(** * ShapeMaster: hand-segmentation, calibration, smoothing and scoring

    A shallow embedding of the algorithmic core of [ShapeMaster.py]:
    the drawing scorer ([correlation_score]), the skin-colour calibrators
    ([calibrate_skin_color], [auto_calibrate_skin_color]), the colour-cue
    fusion at the head of [detect_hand], the forearm trimmer
    ([cut_forearm_automatically]), the fingertip helpers
    ([merge_close_points], [get_palm_center], [fallback_single_finger]),
    the position smoother ([update_kalman]) and the control flow of
    [detect_hand].

    Conventions.  An 8-bit pixel is a [Z]; a raster is a list of rows.
    Floating-point quantities (the score, the Kalman state, means and
    standard deviations) are modelled by exact rational or integer
    arithmetic, without rounding; distances produced by [np.hypot] on
    integer coordinates are compared through their squares.  OpenCV
    routines whose result is decided inside the library (colour
    conversion, contour tracing, polygon filling, hull and defect
    geometry, edge maps, the face detector) are parameters of the
    sections that use them. *)

From Stdlib Require Import ZArith QArith Qminmax Qround List Lia Bool.
Import ListNotations.

Local Open Scope Z_scope.

(** * Rasters *)

Module Raster.

Definition raster (A : Type) : Type := list (list A).

(** [m[y, x]] for non-negative indices inside the raster. *)
Definition get {A} (m : raster A) (y x : Z) : option A :=
  if (0 <=? y) && (0 <=? x)
  then match nth_error m (Z.to_nat y) with
       | Some row => nth_error row (Z.to_nat x)
       | None => None
       end
  else None.

(** [map] that also passes the index of each element, counted from [i]. *)
Fixpoint imap {A B} (f : Z -> A -> B) (i : Z) (l : list A) : list B :=
  match l with
  | [] => []
  | a :: l' => f i a :: imap f (i + 1) l'
  end.

Definition pointwise {A B} (f : A -> B) (m : raster A) : raster B :=
  map (map f) m.

(** [.shape] of a two-dimensional array, as the list of its row lengths. *)
Definition shape {A} (m : raster A) : list nat := map (@length A) m.

Definition same_shape {A B} (a : raster A) (b : raster B) : bool :=
  if list_eq_dec Nat.eq_dec (shape a) (shape b) then true else false.

(** [.shape[0]] and [.shape[1]] of a rectangular raster. *)
Definition height {A} (m : raster A) : Z := Z.of_nat (length m).
Definition width {A} (m : raster A) : Z := Z.of_nat (length (hd [] m)).

(** numpy's reading of one integer index on an axis of length [n]: a
    negative index counts from the end, anything else out of range raises
    [IndexError] ([None]). *)
Definition np_index (n i : Z) : option Z :=
  if (0 <=? i) && (i <? n) then Some i
  else if (- n <=? i) && (i <? 0) then Some (n + i)
  else None.

(** Python's clamping of one bound of a slice on an axis of length [n]. *)
Definition slice_bound (n i : Z) : Z :=
  if i <? 0 then Z.max (i + n) 0 else Z.min i n.

(** [l[a:b]] *)
Definition py_slice {A} (l : list A) (a b : Z) : list A :=
  let n := Z.of_nat (length l) in
  let a := slice_bound n a in
  let b := slice_bound n b in
  firstn (Z.to_nat (b - a)) (skipn (Z.to_nat a) l).

(** [m[y1:y2, x1:x2]] *)
Definition crop {A} (m : raster A) (y1 y2 x1 x2 : Z) : raster A :=
  map (fun row => py_slice row x1 x2) (py_slice m y1 y2).

(** [range(a, b)] *)
Definition range (a b : Z) : list Z :=
  map (fun k => a + Z.of_nat k) (seq 0 (Z.to_nat (b - a))).

(** [range(a, b, -1)] *)
Definition range_down (a b : Z) : list Z :=
  map (fun k => a - Z.of_nat k) (seq 0 (Z.to_nat (a - b))).

(** A raster with at least one pixel. *)
Definition nonempty {A} (m : raster A) : Prop :=
  exists y x v, get m y x = Some v.

Lemma imap_length {A B} (f : Z -> A -> B) l : forall i,
  length (imap f i l) = length l.
Proof. induction l as [|a l IH]; intros i; simpl; [reflexivity|now rewrite IH]. Qed.

Lemma imap_nth_error {A B} (f : Z -> A -> B) l : forall i n,
  nth_error (imap f i l) n = option_map (f (i + Z.of_nat n)) (nth_error l n).
Proof.
  induction l as [|a l IH]; intros i n.
  - destruct n; reflexivity.
  - destruct n as [|n]; simpl.
    + now rewrite Z.add_0_r.
    + rewrite IH. do 2 f_equal. lia.
Qed.

Lemma shape_pointwise {A B} (f : A -> B) m : shape (pointwise f m) = shape m.
Proof.
  unfold shape, pointwise. rewrite map_map.
  apply map_ext. intros r. apply length_map.
Qed.

Lemma get_pointwise {A B} (f : A -> B) m y x :
  get (pointwise f m) y x = option_map f (get m y x).
Proof.
  unfold get, pointwise.
  destruct ((0 <=? y) && (0 <=? x)); [|reflexivity].
  rewrite nth_error_map. destruct (nth_error m (Z.to_nat y)); simpl; [|reflexivity].
  apply nth_error_map.
Qed.

Lemma in_range a b c : In c (range a b) <-> a <= c < b.
Proof.
  unfold range. rewrite in_map_iff. split.
  - intros (k & <- & Hk). apply in_seq in Hk. lia.
  - intros H. exists (Z.to_nat (c - a)). split; [lia|]. apply in_seq. lia.
Qed.

Lemma same_shape_refl {A} (m : raster A) : same_shape m m = true.
Proof. unfold same_shape. destruct list_eq_dec; congruence. Qed.

End Raster.

(** * DrawingScorer: [correlation_score] *)

Module Scorer.
Import Raster.

(** [user_img] / [ref_img]: a single-channel array of shape (h, w), or a
    BGR array of shape (h, w, 3). *)
Inductive image : Type :=
| Gray (g : raster Z)
| Color (c : raster (Z * Z * Z)).

(** [cv2.bitwise_not] on 8-bit pixels. *)
Definition bitwise_not (m : raster Z) : raster Z :=
  pointwise (fun p => Z.lxor p 255) m.

(** [cv2.threshold(src, thresh, maxval, cv2.THRESH_BINARY_INV)]. *)
Definition threshold_binary_inv (thresh maxval : Z) (m : raster Z) : raster Z :=
  pointwise (fun p => if p >? thresh then 0 else maxval) m.

Definition zrange (n : Z) : list Z := map Z.of_nat (seq 0 (Z.to_nat n)).

(** Nearest integer to the square root of [m] (a square root of an
    integer is never half-way between two integers). *)
Definition round_sqrt (m : Z) : Z :=
  let s := Z.sqrt m in if m <=? s * s + s then s else s + 1.

(** [cv2.getStructuringElement(cv2.MORPH_ELLIPSE, (n, n))]: row [i] of the
    inscribed ellipse is filled from [c - dx] to [c + dx], where
    [dx = round (c * sqrt ((r*r - dy*dy) / (r*r)))] and [r = c = n / 2]. *)
Definition ellipse_row (n i : Z) : list Z :=
  let r := n / 2 in
  let c := n / 2 in
  let dy := i - r in
  let dx := round_sqrt (r * r - dy * dy) in
  let j1 := if Z.abs dy <=? r then Z.max (c - dx) 0 else 0 in
  let j2 := if Z.abs dy <=? r then Z.min (c + dx + 1) n else 0 in
  map (fun j => if (j1 <=? j) && (j <? j2) then 1 else 0) (zrange n).

Definition getStructuringElement_ellipse (n : Z) : raster Z :=
  map (ellipse_row n) (zrange n).

(** Offsets, relative to the anchor, of the non-zero kernel cells. *)
Definition kernel_offsets (k : raster Z) (ay ax : Z) : list (Z * Z) :=
  concat (imap (fun i row =>
    concat (imap (fun j e => if e =? 0 then [] else [(i - ay, j - ax)]) 0 row)) 0 k).

(** One output pixel of a dilation: the maximum of the source over the
    kernel footprint; cells that fall outside the image do not take part
    (the library's default border for a dilation). *)
Definition dilate_px (offs : list (Z * Z)) (m : raster Z) (y x : Z) : Z :=
  fold_left (fun acc d =>
               match get m (y + fst d) (x + snd d) with
               | Some v => Z.max acc v
               | None => acc
               end) offs 0.

Definition dilate1 (offs : list (Z * Z)) (m : raster Z) : raster Z :=
  imap (fun y row => imap (fun x _ => dilate_px offs m y x) 0 row) 0 m.

(** [cv2.dilate(src, kernel, iterations=n)] with the default (centre)
    anchor: a non-rectangular kernel is applied [n] times in a row. *)
Definition dilate (m : raster Z) (k : raster Z) (iterations : nat) : raster Z :=
  let ay := Z.of_nat (length k) / 2 in
  let ax := Z.of_nat (length (hd [] k)) / 2 in
  Nat.iter iterations (dilate1 (kernel_offsets k ay ax)) m.

(** [np.sum(f(a, b))] for an elementwise boolean [f] of two arrays of one
    shape. *)
Fixpoint count_row (f : Z -> Z -> bool) (r1 r2 : list Z) : Z :=
  match r1, r2 with
  | p :: r1', q :: r2' => (if f p q then 1 else 0) + count_row f r1' r2'
  | _, _ => 0
  end.

Fixpoint count2 (f : Z -> Z -> bool) (a b : raster Z) : Z :=
  match a, b with
  | r1 :: a', r2 :: b' => count_row f r1 r2 + count2 f a' b'
  | _, _ => 0
  end.

Definition both_255 (u r : Z) : bool := (u =? 255) && (r =? 255).
Definition either_255 (u r : Z) : bool := (u =? 255) || (r =? 255).

(** [accuracy = 0.0 if union == 0 else float(overlap) / float(union)] *)
Definition accuracy_of (overlap union : Z) : Q :=
  if union =? 0 then 0%Q else (inject_Z overlap / inject_Z union)%Q.

Record score_result : Type := {
  final_score : Q;
  user_dil : raster Z;
  ref_dil : raster Z;
  user_bin : raster Z;
  ref_bin : raster Z }.

(** An array without any element; OpenCV raises on it. *)
Definition no_pixel {A} (m : raster A) : bool :=
  match concat m with
  | [] => true
  | _ :: _ => false
  end.

(** numpy's broadcasting of one axis against an axis of length [n]: an
    axis of length 1 is repeated. *)
Definition stretch {A} (n : nat) (l : list A) : list A :=
  match l with
  | [a] => repeat a n
  | _ => l
  end.

(** The two axes broadcast together, or [None] when their lengths differ
    and neither is 1. *)
Definition broadcast_axis {A B} (a : list A) (b : list B) : option (list A * list B) :=
  let a' := stretch (length b) a in
  let b' := stretch (length a) b in
  if Nat.eqb (length a') (length b') then Some (a', b') else None.

Fixpoint broadcast_rows (a b : raster Z) : option (raster Z * raster Z) :=
  match a, b with
  | ra :: a', rb :: b' =>
      match broadcast_axis ra rb, broadcast_rows a' b' with
      | Some (ra', rb'), Some (a'', b'') => Some (ra' :: a'', rb' :: b'')
      | _, _ => None
      end
  | _, _ => Some ([], [])
  end.

(** [np.broadcast_arrays(a, b)] on two two-dimensional arrays: what an
    elementwise operator of numpy works on; [None] where it raises
    [ValueError]. *)
Definition broadcast_arrays (a b : raster Z) : option (raster Z * raster Z) :=
  match broadcast_axis a b with
  | Some (a', b') => broadcast_rows a' b'
  | None => None
  end.

Section CorrelationScore.

(** [cv2.cvtColor(img, cv2.COLOR_BGR2GRAY)] on one pixel. *)
Variable cvtColor_BGR2GRAY : Z * Z * Z -> Z.

Definition to_gray (img : image) : raster Z :=
  match img with
  | Gray g => g
  | Color c => pointwise cvtColor_BGR2GRAY c
  end.

(** [correlation_score(user_img, ref_img, dilation_size, factor, iter)].
    [None] stands for an exception: OpenCV raises on an array without any
    element, and the two comparisons of line 179 raise [ValueError] on
    shapes that do not broadcast together. *)
Definition correlation_score (user_img ref_img : image)
    (dilation_size : Z) (factor : Q) (iter : nat) : option score_result :=
  let user_gray := to_gray user_img in
  let ref_gray := to_gray ref_img in
  if no_pixel user_gray || no_pixel ref_gray then None
  else
    let ref_gray := bitwise_not ref_gray in
    let user_bin := threshold_binary_inv 127 255 user_gray in
    let ref_bin := threshold_binary_inv 127 255 ref_gray in
    let user_kernel := getStructuringElement_ellipse dilation_size in
    let ref_kernel := getStructuringElement_ellipse dilation_size in
    let user_dil := dilate user_bin user_kernel iter in
    let ref_dil := dilate ref_bin ref_kernel iter in
    match broadcast_arrays user_dil ref_dil with
    | Some (user_255, ref_255) =>
        let overlap := count2 both_255 user_255 ref_255 in
        let union := count2 either_255 user_255 ref_255 in
        let accuracy := accuracy_of overlap union in
        let accuracy_percent := (accuracy * 100)%Q in
        let final_score := Qmin (accuracy_percent * factor) 100 in
        Some {| final_score := final_score; user_dil := user_dil; ref_dil := ref_dil;
                user_bin := user_bin; ref_bin := ref_bin |}
    | None => None
    end.

(** The call with the default [dilation_size=10, factor=1.1, iter=6]. *)
Definition correlation_score_default (user_img ref_img : image) : option score_result :=
  correlation_score user_img ref_img 10 (11 # 10) 6.

End CorrelationScore.

(** An 8-bit luma conversion in fixed point,
    [(1868 B + 9617 G + 4899 R + 2^13) >> 14], used where an example needs
    a concrete conversion. *)
Definition bgr2gray_fixed (p : Z * Z * Z) : Z :=
  let '(b, g, r) := p in
  Z.shiftr (1868 * b + 9617 * g + 4899 * r + 8192) 14.

End Scorer.

Module ScorerFacts.
Import Raster Scorer.

Lemma bitwise_not_involutive m : bitwise_not (bitwise_not m) = m.
Proof.
  unfold bitwise_not, pointwise. rewrite map_map.
  rewrite <- (map_id m) at 2. apply map_ext. intros row.
  rewrite map_map. rewrite <- (map_id row) at 2. apply map_ext. intros p.
  rewrite Z.lxor_assoc, Z.lxor_nilpotent. apply Z.lxor_0_r.
Qed.

(** ** Dilation, pixel by pixel *)

Definition dil_step (m : raster Z) (y x : Z) (acc : Z) (d : Z * Z) : Z :=
  match get m (y + fst d) (x + snd d) with
  | Some v => Z.max acc v
  | None => acc
  end.

Lemma fold_dil_ge m y x offs : forall a, a <= fold_left (dil_step m y x) offs a.
Proof.
  induction offs as [|d offs IH]; intros a; simpl; [lia|].
  etransitivity; [|apply IH]. unfold dil_step.
  destruct (get m (y + fst d) (x + snd d)); lia.
Qed.

Lemma fold_dil_covers m y x offs d v : forall a,
  In d offs -> get m (y + fst d) (x + snd d) = Some v ->
  v <= fold_left (dil_step m y x) offs a.
Proof.
  induction offs as [|d' offs IH]; intros a Hin Hget; [contradiction|].
  destruct Hin as [->|Hin]; simpl.
  - etransitivity; [|apply fold_dil_ge]. unfold dil_step. rewrite Hget. lia.
  - now apply IH.
Qed.

Lemma fold_dil_le m y x (bound : Z) offs : forall a,
  a <= bound ->
  (forall y' x' v, get m y' x' = Some v -> v <= bound) ->
  fold_left (dil_step m y x) offs a <= bound.
Proof.
  induction offs as [|d offs IH]; intros a Ha Hm; simpl; [exact Ha|].
  apply IH; [|exact Hm]. unfold dil_step.
  destruct (get m (y + fst d) (x + snd d)) eqn:E; [|exact Ha].
  apply Hm in E. lia.
Qed.

Lemma get_dilate1 offs m y x :
  get (dilate1 offs m) y x = option_map (fun _ => dilate_px offs m y x) (get m y x).
Proof.
  unfold get, dilate1.
  destruct (0 <=? y) eqn:Hy; [|reflexivity].
  destruct (0 <=? x) eqn:Hx; simpl; [|reflexivity].
  apply Z.leb_le in Hy, Hx.
  rewrite imap_nth_error.
  destruct (nth_error m (Z.to_nat y)) as [row|]; simpl; [|reflexivity].
  rewrite imap_nth_error. rewrite !Z.add_0_l, !Z2Nat.id by assumption.
  reflexivity.
Qed.

Lemma shape_imap_rows {A B} (g : Z -> Z -> A -> B) (m : raster A) : forall i,
  shape (imap (fun y row => imap (g y) 0 row) i m) = shape m.
Proof.
  unfold shape. induction m as [|row m IH]; intros i; simpl.
  - reflexivity.
  - now rewrite imap_length, IH.
Qed.

Lemma shape_dilate1 offs m : shape (dilate1 offs m) = shape m.
Proof.
  unfold dilate1.
  apply (shape_imap_rows (fun y x (_ : Z) => dilate_px offs m y x)).
Qed.

Lemma shape_dilate m k n : shape (dilate m k n) = shape m.
Proof.
  unfold dilate. induction n as [|n IH]; simpl; [reflexivity|].
  now rewrite shape_dilate1.
Qed.

(** A dilation whose kernel holds its own anchor keeps every pixel that is
    already at the maximum 255 of a mask bounded by 255. *)
Lemma dilate1_keeps_255 offs m y x :
  In (0, 0) offs ->
  (forall y' x' v, get m y' x' = Some v -> v <= 255) ->
  get m y x = Some 255 ->
  get (dilate1 offs m) y x = Some 255.
Proof.
  intros Hin Hb Hget. rewrite get_dilate1, Hget. simpl. f_equal.
  unfold dilate_px. change (fold_left (dil_step m y x) offs 0 = 255).
  apply Z.le_antisymm.
  - apply fold_dil_le; [lia|exact Hb].
  - apply (fold_dil_covers m y x offs (0, 0)); [exact Hin|].
    simpl. now rewrite !Z.add_0_r.
Qed.

Lemma dilate1_bounded offs m :
  (forall y x v, get m y x = Some v -> v <= 255) ->
  forall y x v, get (dilate1 offs m) y x = Some v -> v <= 255.
Proof.
  intros Hb y x v. rewrite get_dilate1.
  destruct (get m y x); simpl; [|discriminate].
  intros [= <-]. unfold dilate_px. change (fold_left (dil_step m y x) offs 0 <= 255).
  apply fold_dil_le; [lia|exact Hb].
Qed.

Lemma iter_dilate1_keeps_255 offs n : forall m y x,
  In (0, 0) offs ->
  (forall y' x' v, get m y' x' = Some v -> v <= 255) ->
  get m y x = Some 255 ->
  get (Nat.iter n (dilate1 offs) m) y x = Some 255 /\
  (forall y' x' v, get (Nat.iter n (dilate1 offs) m) y' x' = Some v -> v <= 255).
Proof.
  induction n as [|n IH]; intros m y x Hin Hb Hget; simpl.
  - split; assumption.
  - destruct (IH m y x Hin Hb Hget) as [H1 H2]. split.
    + now apply dilate1_keeps_255.
    + now apply dilate1_bounded.
Qed.

(** ** Counting *)

Lemma count_row_nonneg f r1 : forall r2, 0 <= count_row f r1 r2.
Proof.
  induction r1 as [|p r1 IH]; intros [|q r2]; simpl; try lia.
  specialize (IH r2). destruct (f p q); lia.
Qed.

Lemma count2_nonneg f a : forall b, 0 <= count2 f a b.
Proof.
  induction a as [|r1 a IH]; intros [|r2 b]; simpl; try lia.
  specialize (IH b). pose proof (count_row_nonneg f r1 r2). lia.
Qed.

Lemma count_row_diag f g r :
  (forall p, f p p = g p p) -> count_row f r r = count_row g r r.
Proof.
  intros H. induction r as [|p r IH]; simpl; [reflexivity|]. now rewrite H, IH.
Qed.

Lemma count2_diag f g a :
  (forall p, f p p = g p p) -> count2 f a a = count2 g a a.
Proof.
  intros H. induction a as [|r a IH]; simpl; [reflexivity|].
  now rewrite (count_row_diag f g r H), IH.
Qed.

Lemma count_row_diag_pos f r n p :
  nth_error r n = Some p -> f p p = true -> 0 < count_row f r r.
Proof.
  revert n. induction r as [|q r IH]; intros [|n] Hn Hf; simpl in *; try discriminate.
  - injection Hn as ->. rewrite Hf. pose proof (count_row_nonneg f r r). lia.
  - specialize (IH n Hn Hf). destruct (f q q); lia.
Qed.

Lemma count2_diag_pos f a y x p :
  get a y x = Some p -> f p p = true -> 0 < count2 f a a.
Proof.
  unfold get. destruct ((0 <=? y) && (0 <=? x)); [|discriminate].
  generalize (Z.to_nat y) as n. generalize (Z.to_nat x) as k. intros k.
  induction a as [|r a IH]; intros [|n] Hn Hf; simpl in *; try discriminate.
  - pose proof (count_row_diag_pos f r k p Hn Hf). pose proof (count2_nonneg f a a). lia.
  - specialize (IH n Hn Hf). pose proof (count_row_nonneg f r r). lia.
Qed.

(** ** Score arithmetic *)

Lemma accuracy_of_empty_union overlap : accuracy_of overlap 0 = 0%Q.
Proof. reflexivity. Qed.

Lemma accuracy_of_nonneg overlap union :
  0 <= overlap -> 0 <= union -> (0 <= accuracy_of overlap union)%Q.
Proof.
  intros Ho Hu. unfold accuracy_of. destruct (union =? 0) eqn:E; [apply Qle_refl|].
  apply Z.eqb_neq in E. apply Qle_shift_div_l.
  - change 0%Q with (inject_Z 0). rewrite <- Zlt_Qlt. lia.
  - rewrite Qmult_0_l. change 0%Q with (inject_Z 0). rewrite <- Zle_Qle. exact Ho.
Qed.

Lemma accuracy_of_full n : 0 < n -> (accuracy_of n n == 1)%Q.
Proof.
  intros Hn. unfold accuracy_of. destruct (n =? 0) eqn:E.
  - apply Z.eqb_eq in E. lia.
  - apply Qmult_inv_r. change 0%Q with (inject_Z 0). rewrite inject_Z_injective. lia.
Qed.

Lemma default_kernel_has_anchor :
  let k := getStructuringElement_ellipse 10 in
  In (0, 0) (kernel_offsets k (Z.of_nat (length k) / 2) (Z.of_nat (length (hd [] k)) / 2)).
Proof.
  vm_compute. repeat (first [left; reflexivity | right]).
Qed.

Lemma get_threshold_binary_inv t mx m y x :
  get (threshold_binary_inv t mx m) y x =
  option_map (fun p => if p >? t then 0 else mx) (get m y x).
Proof. apply get_pointwise. Qed.

Lemma threshold_bounded m y x v :
  get (threshold_binary_inv 127 255 m) y x = Some v -> v <= 255.
Proof.
  rewrite get_threshold_binary_inv. destruct (get m y x) as [p|]; simpl; [|discriminate].
  intros [= <-]. destruct (p >? 127); lia.
Qed.

Lemma same_shape_dilated a b k1 k2 n :
  same_shape a b = true ->
  same_shape (dilate (threshold_binary_inv 127 255 a) k1 n)
             (dilate (threshold_binary_inv 127 255 b) k2 n) = true.
Proof.
  unfold same_shape, threshold_binary_inv.
  rewrite !shape_dilate, !shape_pointwise. trivial.
Qed.

Lemma score_cap_range (acc factor : Q) :
  (0 <= acc)%Q -> (0 <= factor)%Q ->
  (0 <= Qmin (acc * 100 * factor) 100 <= 100)%Q.
Proof.
  intros Ha Hf. split.
  - apply Q.min_glb; [|discriminate].
    apply Qmult_le_0_compat; [|exact Hf].
    apply Qmult_le_0_compat; [exact Ha|discriminate].
  - apply Q.le_min_r.
Qed.

(** ** Broadcasting and arrays without elements *)

Lemma stretch_same {A} (l : list A) : stretch (length l) l = l.
Proof. destruct l as [|a [|b l]]; reflexivity. Qed.

Lemma broadcast_axis_same {A B} (a : list A) (b : list B) :
  length a = length b -> broadcast_axis a b = Some (a, b).
Proof.
  intros H. unfold broadcast_axis.
  replace (stretch (length b) a) with a by (rewrite <- H; symmetry; apply stretch_same).
  replace (stretch (length a) b) with b by (rewrite H; symmetry; apply stretch_same).
  now rewrite H, Nat.eqb_refl.
Qed.

Lemma broadcast_arrays_same a b :
  same_shape a b = true -> broadcast_arrays a b = Some (a, b).
Proof.
  unfold same_shape. destruct list_eq_dec as [Hs|]; [intros _|discriminate].
  unfold broadcast_arrays. rewrite broadcast_axis_same.
  2:{ apply (f_equal (@length nat)) in Hs. unfold shape in Hs.
      now rewrite !length_map in Hs. }
  revert b Hs. induction a as [|ra a IH]; intros [|rb b] Hs; try discriminate;
    [reflexivity|].
  unfold shape in Hs. cbn [map] in Hs. injection Hs as Hl Hs.
  cbn [broadcast_rows]. rewrite (broadcast_axis_same ra rb Hl).
  now rewrite (IH b Hs).
Qed.

Lemma no_pixel_get {A} (m : raster A) y x v : get m y x = Some v -> no_pixel m = false.
Proof.
  unfold get, no_pixel. destruct ((0 <=? y) && (0 <=? x)); [|discriminate].
  destruct (nth_error m (Z.to_nat y)) as [row|] eqn:Erow; [|discriminate].
  intros Hv. apply nth_error_In in Erow, Hv.
  assert (Hin : In v (concat m)) by (apply in_concat; now exists row).
  destruct (concat m); [destruct Hin|reflexivity].
Qed.

Lemma no_pixel_same_shape {A B} (a : raster A) (b : raster B) :
  same_shape a b = true -> no_pixel b = no_pixel a.
Proof.
  unfold same_shape. destruct list_eq_dec as [Hs|]; [intros _|discriminate].
  unfold no_pixel. revert b Hs.
  induction a as [|ra a IH]; intros [|rb b] Hs; try discriminate; [reflexivity|].
  unfold shape in Hs. cbn [map] in Hs. injection Hs as Hl Hs.
  cbn [concat]. destruct ra as [|p ra], rb as [|q rb]; try discriminate;
    cbn [app]; [now apply IH|reflexivity].
Qed.

(** On two arrays of one shape with at least one element, the scorer
    returns, and counts on the two dilated masks themselves. *)
Lemma correlation_score_same_shape cvt user_img ref_img dilation_size factor iter :
  same_shape (to_gray cvt user_img) (to_gray cvt ref_img) = true ->
  nonempty (to_gray cvt user_img) ->
  correlation_score cvt user_img ref_img dilation_size factor iter =
  let user_bin := threshold_binary_inv 127 255 (to_gray cvt user_img) in
  let ref_bin := threshold_binary_inv 127 255 (bitwise_not (to_gray cvt ref_img)) in
  let user_dil := dilate user_bin (getStructuringElement_ellipse dilation_size) iter in
  let ref_dil := dilate ref_bin (getStructuringElement_ellipse dilation_size) iter in
  Some {| final_score :=
            Qmin (accuracy_of (count2 both_255 user_dil ref_dil)
                              (count2 either_255 user_dil ref_dil) * 100 * factor) 100;
          user_dil := user_dil; ref_dil := ref_dil;
          user_bin := user_bin; ref_bin := ref_bin |}.
Proof.
  intros Hshape (y & x & v & Hget). unfold correlation_score.
  rewrite (no_pixel_same_shape _ _ Hshape), (no_pixel_get _ _ _ _ Hget). cbn [orb].
  rewrite broadcast_arrays_same; [reflexivity|].
  apply same_shape_dilated.
  unfold same_shape in *. unfold bitwise_not. rewrite shape_pointwise. exact Hshape.
Qed.

Section Claims.

Variable cvtColor_BGR2GRAY : Z * Z * Z -> Z.
Let score := correlation_score_default cvtColor_BGR2GRAY.
Let gray := to_gray cvtColor_BGR2GRAY.

Lemma coinciding_score dil :
  count2 either_255 dil dil <> 0 ->
  count2 both_255 dil dil = count2 either_255 dil dil /\
  (Qmin (accuracy_of (count2 both_255 dil dil) (count2 either_255 dil dil) * 100 * (11 # 10)) 100
   == 100)%Q.
Proof.
  intros Hne.
  assert (Hdiag : count2 both_255 dil dil = count2 either_255 dil dil).
  { apply count2_diag. intros p. unfold both_255, either_255. now destruct (p =? 255). }
  split; [exact Hdiag|]. rewrite Hdiag.
  pose proof (count2_nonneg either_255 dil dil) as Hpos.
  rewrite accuracy_of_full by lia. reflexivity.
Qed.

(** C1, as amended.  Whenever the dilated user and reference foregrounds
    coincide and are not empty, the default-parameter score is exactly
    100: the overlap equals the union, and the 1.1 bias is capped.  This
    is the case when the reference is the inversion of the user mask (the
    scorer inverts the reference, not the user image, before binarizing)
    and the user mask has at least one ink pixel (value at most 127). *)
Theorem coinciding_foregrounds_score_100 (user_img ref_img : image) :
  (forall res,
     score user_img ref_img = Some res ->
     user_dil res = ref_dil res ->
     count2 either_255 (user_dil res) (ref_dil res) <> 0 ->
     count2 both_255 (user_dil res) (ref_dil res)
       = count2 either_255 (user_dil res) (ref_dil res) /\
     (final_score res == 100)%Q) /\
  (gray ref_img = bitwise_not (gray user_img) ->
   (exists y x v, get (gray user_img) y x = Some v /\ v <= 127) ->
   exists res,
     score user_img ref_img = Some res /\
     user_dil res = ref_dil res /\
     count2 either_255 (user_dil res) (ref_dil res) <> 0 /\
     (final_score res == 100)%Q).
Proof.
  split.
  - intros res. unfold score, correlation_score_default, correlation_score.
    destruct (no_pixel _ || no_pixel _); [discriminate|].
    set (ud := dilate (threshold_binary_inv 127 255 (to_gray _ user_img)) _ _).
    set (rd := dilate (threshold_binary_inv 127 255 (bitwise_not _)) _ _).
    destruct (broadcast_arrays ud rd) as [[user_255 ref_255]|] eqn:E; [|discriminate].
    intros [= <-]. cbn [user_dil ref_dil final_score].
    intros Heq Hne. rewrite <- Heq in E, Hne |- *.
    rewrite broadcast_arrays_same in E by apply same_shape_refl.
    injection E as <- <-. now apply coinciding_score.
  - intros Href (y & x & v & Hget & Hv).
    unfold score, correlation_score_default.
    rewrite correlation_score_same_shape.
    2:{ fold gray. rewrite Href. unfold same_shape, bitwise_not.
        rewrite shape_pointwise. destruct list_eq_dec; congruence. }
    2:{ now exists y, x, v. }
    cbv zeta. fold gray. rewrite Href, bitwise_not_involutive.
    set (bin := threshold_binary_inv 127 255 (gray user_img)).
    set (dil := dilate bin (getStructuringElement_ellipse 10) 6).
    eexists. split; [reflexivity|].
    cbn [user_dil ref_dil final_score].
    assert (Hpos : 0 < count2 either_255 dil dil).
    { apply (count2_diag_pos either_255 dil y x 255); [|reflexivity].
      unfold dil, dilate.
      apply iter_dilate1_keeps_255.
      - exact default_kernel_has_anchor.
      - intros y' x' v'. apply threshold_bounded.
      - unfold bin. rewrite get_threshold_binary_inv, Hget. simpl.
        destruct (v >? 127) eqn:E; [|reflexivity].
        apply Z.gtb_lt in E. lia. }
    split; [reflexivity|]. split; [lia|].
    apply coinciding_score. lia.
Qed.

(** C10, as amended.  The scorer is not total on arbitrary masks: it
    raises on a mask without any pixel and on two masks whose shapes do
    not broadcast together.  On two masks of one shape, with at least one
    pixel, the default-parameter scorer returns a result; an empty union
    is not divided by (the accuracy is taken as 0 and the score is 0), and
    the final score lies in [0, 100].  Whenever the scorer returns, on
    whatever input, the final score lies in [0, 100]. *)
Theorem correlation_score_total_in_range (user_img ref_img : image) :
  (same_shape (gray user_img) (gray ref_img) = true ->
   nonempty (gray user_img) ->
   exists res,
     score user_img ref_img = Some res /\
     (0 <= final_score res <= 100)%Q /\
     (count2 either_255 (user_dil res) (ref_dil res) = 0 ->
        accuracy_of (count2 both_255 (user_dil res) (ref_dil res))
                    (count2 either_255 (user_dil res) (ref_dil res)) = 0%Q /\
        (final_score res == 0)%Q)) /\
  (forall res,
     score user_img ref_img = Some res -> (0 <= final_score res <= 100)%Q).
Proof.
  split.
  - intros Hshape Hne.
    unfold score, correlation_score_default.
    rewrite (correlation_score_same_shape _ _ _ _ _ _ Hshape Hne). cbv zeta.
    eexists. split; [reflexivity|]. cbn [final_score user_dil ref_dil]. split.
    + apply score_cap_range; [|discriminate].
      apply accuracy_of_nonneg; apply count2_nonneg.
    + intros ->. split; reflexivity.
  - intros res. unfold score, correlation_score_default, correlation_score.
    destruct (no_pixel _ || no_pixel _); [discriminate|].
    destruct (broadcast_arrays _ _) as [[user_255 ref_255]|]; [|discriminate].
    intros [= <-]. cbn [final_score].
    apply score_cap_range; [|discriminate].
    apply accuracy_of_nonneg; apply count2_nonneg.
Qed.

End Claims.

(** C1, as stated, fails: a one-pixel mask scored against itself gets 0,
    because the scorer inverts only the reference, so the two binarized
    foregrounds are complementary. *)
Lemma self_score_counterexample :
  exists res,
    correlation_score_default bgr2gray_fixed (Gray [[0]]) (Gray [[0]]) = Some res /\
    user_bin res = [[255]] /\ ref_bin res = [[0]] /\
    (final_score res == 0)%Q /\ ~ (final_score res == 100)%Q.
Proof.
  eexists. split; [vm_compute; reflexivity|]. simpl.
  repeat split; discriminate.
Qed.

Lemma coinciding_foregrounds_score_100_witness :
  exists res,
    correlation_score_default bgr2gray_fixed (Gray [[0; 255]]) (Gray [[255; 0]]) = Some res /\
    (final_score res == 100)%Q.
Proof.
  destruct (coinciding_foregrounds_score_100 bgr2gray_fixed (Gray [[0; 255]]) (Gray [[255; 0]]))
    as [_ H].
  destruct H as (res & H1 & _ & _ & H2).
  - reflexivity.
  - exists 0, 0, 0. split; [reflexivity|lia].
  - exists res. split; assumption.
Defined.

Lemma correlation_score_total_in_range_witness :
  (exists res,
     correlation_score_default bgr2gray_fixed
       (Color [[(255, 255, 255); (0, 0, 0)]]) (Gray [[0; 255]]) = Some res /\
     (0 <= final_score res <= 100)%Q) /\
  (exists res,
     correlation_score_default bgr2gray_fixed (Gray [[255]]) (Gray [[0]]) = Some res /\
     (final_score res == 0)%Q).
Proof.
  split.
  - destruct (correlation_score_total_in_range bgr2gray_fixed
                (Color [[(255, 255, 255); (0, 0, 0)]]) (Gray [[0; 255]])) as [H _].
    destruct H as (res & H1 & H2 & _).
    + reflexivity.
    + exists 0, 0, 255. reflexivity.
    + exists res. split; assumption.
  - destruct (correlation_score_total_in_range bgr2gray_fixed (Gray [[255]]) (Gray [[0]]))
      as [H _].
    destruct H as (res & H1 & _ & H3).
    + reflexivity.
    + exists 0, 0, 255. reflexivity.
    + exists res. split; [exact H1|]. apply H3.
      vm_compute in H1. injection H1 as <-. reflexivity.
Defined.

(** C10, as stated, fails: the scorer does not return on every input.  On
    a 2 x 2 mask and a 3 x 3 mask the comparison of the two dilated masks
    raises.  (A 2 x 2 mask and a 1 x 2 mask are broadcast together and
    scored.) *)
Lemma unequal_shapes_counterexample :
  correlation_score_default bgr2gray_fixed
    (Gray [[0; 0]; [0; 0]]) (Gray [[0; 0; 0]; [0; 0; 0]; [0; 0; 0]]) = None /\
  exists res,
    correlation_score_default bgr2gray_fixed
      (Gray [[0; 0]; [0; 0]]) (Gray [[255; 255]]) = Some res /\
    (final_score res == 100)%Q.
Proof.
  split; [vm_compute; reflexivity|].
  eexists. split; [vm_compute; reflexivity|]. reflexivity.
Qed.

End ScorerFacts.

(** * Fingertip helpers *)

Module Fingers.

Definition Point : Type := (Z * Z)%type.

(** A contour as [cv2.findContours] returns it: the ordered points of a
    closed polyline. *)
Definition Contour : Type := list Point.

(** Squared Euclidean distance.  [np.hypot] of two integers is compared
    with other such values, or with an integer bound, through it. *)
Definition dist_sq (p q : Point) : Z :=
  (fst p - fst q) * (fst p - fst q) + (snd p - snd q) * (snd p - snd q).

(** [np.hypot(dx, dy) < t] for an integer threshold [t]. *)
Definition hypot_lt (d2 t : Z) : bool := (0 <? t) && (d2 <? t * t).

(** [np.hypot(dx, dy) > t] for an integer threshold [t]. *)
Definition hypot_gt (d2 t : Z) : bool := (t <? 0) || (t * t <? d2).

(** The inner [for i, mp in enumerate(merged)] loop: fold [pt] into the
    first cluster closer than the threshold; [None] when [found_close]
    stays false. *)
Fixpoint merge_into (pt : Point) (distance_threshold : Z) (merged : list Point)
  : option (list Point) :=
  match merged with
  | [] => None
  | mp :: rest =>
      if hypot_lt (dist_sq pt mp) distance_threshold
      then let avg_x := (fst pt + fst mp) / 2 in
           let avg_y := (snd pt + snd mp) / 2 in
           Some ((avg_x, avg_y) :: rest)
      else option_map (cons mp) (merge_into pt distance_threshold rest)
  end.

Definition merge_step (distance_threshold : Z) (merged : list Point) (pt : Point)
  : list Point :=
  match merged with
  | [] => [pt]
  | _ => match merge_into pt distance_threshold merged with
         | Some merged' => merged'
         | None => merged ++ [pt]
         end
  end.

(** [merge_close_points(points, distance_threshold)] *)
Definition merge_close_points (points : list Point) (distance_threshold : Z)
  : list Point :=
  fold_left (merge_step distance_threshold) points [].

(** [cv2.boundingRect]: the upright rectangle (x, y, w, h) that holds every
    point of the contour. *)
Definition boundingRect (c : Contour) : Z * Z * Z * Z :=
  match c with
  | [] => (0, 0, 0, 0)
  | p :: c' =>
      let xmin := fold_left Z.min (map fst c') (fst p) in
      let xmax := fold_left Z.max (map fst c') (fst p) in
      let ymin := fold_left Z.min (map snd c') (snd p) in
      let ymax := fold_left Z.max (map snd c') (snd p) in
      (xmin, ymin, xmax - xmin + 1, ymax - ymin + 1)
  end.

(** The spatial moments [cv2.moments] reports that the code reads. *)
Record Moments : Type := { m00 : Q; m10 : Q; m01 : Q }.

(** Python's [int()] of a float: truncation toward zero. *)
Definition int_of (q : Q) : Z := Z.quot (Qnum q) (Z.pos (Qden q)).

(** [get_palm_center], given the moments of the contour. *)
Definition get_palm_center (M : Moments) (contour : Contour) : Point :=
  if negb (Qeq_bool (m00 M) 0)
  then let cx := int_of (m10 M / m00 M) in
       let cy := int_of (m01 M / m00 M) in
       (cx, cy)
  else let '(x, y, w, h) := boundingRect contour in
       (x + w / 2, y + h / 2).

(** The scan of [fallback_single_finger]: [(max_dist, best_point)] after
    the loop, with [max_dist] kept as a squared distance. *)
Definition farthest_step (center : Point) (st : Z * option Point) (pt : Point)
  : Z * option Point :=
  let dist := dist_sq pt center in
  if dist >? fst st then (dist, Some pt) else st.

Definition farthest_scan (contour : Contour) (center : Point) : Z * option Point :=
  fold_left (farthest_step center) contour (0, None).

(** [fallback_single_finger(contour, center, min_radius)] *)
Definition fallback_single_finger (contour : Contour) (center : Point) (min_radius : Z)
  : option Point :=
  let '(max_dist, best_point) := farthest_scan contour center in
  match best_point with
  | Some p => if hypot_gt max_dist min_radius then Some p else None
  | None => None
  end.

End Fingers.

Module FingersFacts.
Import Fingers.

Lemma merge_into_length pt t merged merged' :
  merge_into pt t merged = Some merged' -> length merged' = length merged.
Proof.
  revert merged'. induction merged as [|mp rest IH]; intros merged' H; simpl in H.
  - discriminate.
  - destruct (hypot_lt (dist_sq pt mp) t).
    + injection H as <-. reflexivity.
    + destruct (merge_into pt t rest) as [r|]; simpl in H; [|discriminate].
      injection H as <-. simpl. f_equal. now apply IH.
Qed.

Lemma merge_step_nonempty t merged pt : merge_step t merged pt <> [].
Proof.
  unfold merge_step. destruct merged as [|mp rest]; [discriminate|].
  destruct (merge_into pt t (mp :: rest)) as [m'|] eqn:E.
  - apply merge_into_length in E. destruct m'; [discriminate E|discriminate].
  - destruct rest; discriminate.
Qed.

Lemma fold_merge_nonempty t points : forall merged,
  merged <> [] -> fold_left (merge_step t) points merged <> [].
Proof.
  induction points as [|pt points IH]; intros merged H; simpl; [exact H|].
  apply IH, merge_step_nonempty.
Qed.

(** Clustering never loses every point: the result is empty only for an
    empty input. *)
Lemma merge_close_points_nil points t :
  merge_close_points points t = [] <-> points = [].
Proof.
  split.
  - destruct points as [|pt points]; [reflexivity|].
    unfold merge_close_points. simpl. intros H.
    exfalso. revert H. apply fold_merge_nonempty. discriminate.
  - intros ->. reflexivity.
Qed.


End FingersFacts.

(** * ForearmTrimmer: [cut_forearm_automatically] *)

Module Forearm.
Import Raster.

(** [mask[row_i, col_i]] *)
Definition mask_at (mask : raster Z) (row_i col_i : Z) : option Z :=
  match np_index (height mask) row_i, np_index (width mask) col_i with
  | Some r, Some c => get mask r c
  | _, _ => None
  end.

(** One step of the inner column loop on the pair [(left, right)]; an
    index error aborts the scan. *)
Definition scan_col (mask : raster Z) (row_i : Z)
    (st : option (option Z * option Z)) (col_i : Z) : option (option Z * option Z) :=
  match st with
  | None => None
  | Some (lt, rt) =>
      match mask_at mask row_i col_i with
      | None => None
      | Some v =>
          if negb (v =? 0)
          then Some (match lt with None => Some col_i | Some l => Some l end, Some col_i)
          else Some (lt, rt)
      end
  end.

(** The width appended to [row_widths] for row [row_i]. *)
Definition row_width (mask : raster Z) (row_i x w : Z) : option Z :=
  match fold_left (scan_col mask row_i) (range x (x + w)) (Some (None, None)) with
  | None => None
  | Some (Some lt, Some rt) => Some (rt - lt + 1)
  | Some _ => Some 0
  end.

Fixpoint all_some {A} (l : list (option A)) : option (list A) :=
  match l with
  | [] => Some []
  | None :: _ => None
  | Some a :: l' => option_map (cons a) (all_some l')
  end.

(** [w_prev > 0 and w_curr < min_ratio * w_prev] *)
Definition drops (min_ratio : Q) (w_prev w_curr : Z) : bool :=
  (w_prev >? 0) && negb (Qle_bool (min_ratio * inject_Z w_prev) (inject_Z w_curr)).

(** The second loop, entered at index [i] with [row_widths[i-1] = w_prev]:
    the index at which [consecutive_count] reaches [consecutive_rows]. *)
Fixpoint find_cut (min_ratio : Q) (consecutive_rows : Z)
    (w_prev : Z) (rest : list Z) (i : nat) (consecutive_count : Z) : option nat :=
  match rest with
  | [] => None
  | w_curr :: rest' =>
      let consecutive_count :=
        if drops min_ratio w_prev w_curr then consecutive_count + 1 else 0 in
      if consecutive_count >=? consecutive_rows then Some i
      else find_cut min_ratio consecutive_rows w_curr rest' (S i) consecutive_count
  end.

(** [mask[r0:r1, c0:c1] = 0] *)
Definition assign_zero (mask : raster Z) (r0 r1 c0 c1 : Z) : raster Z :=
  let r0 := slice_bound (height mask) r0 in
  let r1 := slice_bound (height mask) r1 in
  let c0 := slice_bound (width mask) c0 in
  let c1 := slice_bound (width mask) c1 in
  imap (fun r row =>
          if (r0 <=? r) && (r <? r1)
          then imap (fun c v => if (c0 <=? c) && (c <? c1) then 0 else v) 0 row
          else row) 0 mask.

(** [cut_forearm_automatically(mask, x, y, w, h, min_ratio, consecutive_rows)]:
    the mask after the call and the returned flag; [None] when an index
    falls outside the mask. *)
Definition cut_forearm_automatically (mask : raster Z) (x y w h : Z)
    (min_ratio : Q) (consecutive_rows : Z) : option (raster Z * bool) :=
  if h <? 10 then Some (mask, false)
  else
    match all_some (map (fun row_i => row_width mask row_i x w)
                        (range_down (y + h - 1) (y - 1))) with
    | None => None
    | Some [] => Some (mask, false)
    | Some (w0 :: rest) =>
        match find_cut min_ratio consecutive_rows w0 rest 1 0 with
        | Some i =>
            let row_cut := (y + h - 1) - Z.of_nat i in
            Some (assign_zero mask row_cut (y + h) x (x + w), true)
        | None => Some (mask, false)
        end
    end.

(** The bounding box lies inside a rectangular mask. *)
Definition bbox_inside (mask : raster Z) (x y w h : Z) : Prop :=
  0 <= x /\ 0 <= y /\ x + w <= width mask /\ y + h <= height mask /\
  Forall (fun row => Z.of_nat (length row) = width mask) mask.

(** The span of the filled pixels of row [row_i] between columns [x] and
    [x + w - 1], stated directly: from the leftmost to the rightmost
    non-zero pixel, both included; 0 for a row without any. *)
Definition filled (mask : raster Z) (row_i col_i : Z) : bool :=
  match get mask row_i col_i with
  | Some v => negb (v =? 0)
  | None => false
  end.

Definition span_width (mask : raster Z) (row_i x w : Z) : Z :=
  match filter (filled mask row_i) (range x (x + w)) with
  | [] => 0
  | c :: cs => last cs c - c + 1
  end.

(** Width of the [k]-th row counted from the bottom of the box. *)
Definition width_from_bottom (mask : raster Z) (x y w h : Z) (k : Z) : Z :=
  span_width mask (y + h - 1 - k) x w.

(** Row [k] from the bottom completes a run of two rows, each narrower
    than half of the row below it. *)
Definition contraction (mask : raster Z) (x y w h : Z) (k : Z) : Prop :=
  2 <= k < h /\
  2 * width_from_bottom mask x y w h k < width_from_bottom mask x y w h (k - 1) /\
  2 * width_from_bottom mask x y w h (k - 1) < width_from_bottom mask x y w h (k - 2).

End Forearm.

Module ForearmFacts.
Import Raster Forearm.

(** The default ratio test in integers. *)
Definition dropsb (w_prev w_curr : Z) : bool := (w_prev >? 0) && (2 * w_curr <? w_prev).

Lemma drops_half w_prev w_curr : drops (1 # 2) w_prev w_curr = dropsb w_prev w_curr.
Proof.
  unfold drops, dropsb. f_equal.
  destruct (Qle_bool ((1 # 2) * inject_Z w_prev) (inject_Z w_curr)) eqn:E; cbn [negb]; symmetry.
  - apply Qle_bool_iff in E. unfold Qle in E. cbn [Qnum Qden Qmult inject_Z] in E.
    rewrite Pos.mul_1_r in E. apply Z.ltb_ge. lia.
  - apply Z.ltb_lt. destruct (Z.lt_ge_cases (2 * w_curr) w_prev) as [H|H]; [exact H|].
    assert (Qle_bool ((1 # 2) * inject_Z w_prev) (inject_Z w_curr) = true) as E'.
    { apply Qle_bool_iff. unfold Qle. cbn [Qnum Qden Qmult inject_Z].
      rewrite Pos.mul_1_r. lia. }
    congruence.
Qed.

(** ** The run detector on a list of widths *)

Section Scan.

Variable ws : list Z.

Definition contr (j : nat) : Prop :=
  (2 <= j)%nat /\
  dropsb (nth (j - 2) ws 0) (nth (j - 1) ws 0) = true /\
  dropsb (nth (j - 1) ws 0) (nth j ws 0) = true.

Lemma skipn_cons_inv {A} (d : A) : forall i (l : list A) a r,
  skipn i l = a :: r -> nth i l d = a /\ skipn (S i) l = r /\ (i < length l)%nat.
Proof.
  induction i as [|i IH]; intros [|b l] a r H; simpl in H; try discriminate.
  - injection H as -> ->. simpl. repeat split. lia.
  - destruct (IH l a r H) as (H1 & H2 & H3). simpl. repeat split; try assumption. lia.
Qed.

Lemma skipn_nil_inv {A} : forall i (l : list A), skipn i l = [] -> (length l <= i)%nat.
Proof.
  induction i as [|i IH]; intros [|b l] H; simpl in *; try lia; try discriminate.
  specialize (IH l H). lia.
Qed.

Lemma find_cut_spec : forall rest i w_prev count,
  (1 <= i)%nat ->
  skipn i ws = rest ->
  nth (i - 1) ws 0 = w_prev ->
  count = (if (2 <=? i)%nat && dropsb (nth (i - 2) ws 0) (nth (i - 1) ws 0) then 1 else 0) ->
  (forall j, (j < i)%nat -> ~ contr j) ->
  match find_cut (1 # 2) 2 w_prev rest i count with
  | Some k => (k < length ws)%nat /\ contr k /\ forall j, (j < k)%nat -> ~ contr j
  | None => forall j, (j < length ws)%nat -> ~ contr j
  end.
Proof.
  induction rest as [|w_curr rest IH]; intros i w_prev count Hi Hskip Hprev Hcount Hno; simpl.
  - apply skipn_nil_inv in Hskip. intros j Hj. apply Hno. lia.
  - destruct (skipn_cons_inv 0 i ws w_curr rest Hskip) as (Hcur & Hskip' & Hlen).
    rewrite drops_half.
    assert (Hi1 : (S i - 1 = i)%nat) by lia.
    assert (Hi2 : (S i - 2 = i - 1)%nat) by lia.
    destruct (dropsb w_prev w_curr) eqn:Hd.
    + destruct ((2 <=? i)%nat && dropsb (nth (i - 2) ws 0) (nth (i - 1) ws 0)) eqn:Hc;
        subst count; simpl.
      * apply andb_prop in Hc as [Hc1 Hc2]. apply Nat.leb_le in Hc1.
        repeat split; try assumption. rewrite Hprev, Hcur. exact Hd.
      * apply IH; try assumption; try lia.
        -- rewrite Hi1. exact Hcur.
        -- rewrite Hi1, Hi2, Hprev, Hcur, Hd.
           replace (2 <=? S i)%nat with true by (symmetry; apply Nat.leb_le; lia).
           reflexivity.
        -- intros j Hj. destruct (Nat.eq_dec j i) as [->|Hne]; [|apply Hno; lia].
           intros (H2 & Ha & Hb). apply Nat.leb_le in H2. rewrite H2, Ha in Hc. discriminate.
    + replace (0 >=? 2) with false by reflexivity.
      apply IH; try assumption; try lia.
      * rewrite Hi1. exact Hcur.
      * rewrite Hi1, Hi2, Hprev, Hcur, Hd. now rewrite andb_false_r.
      * intros j Hj. destruct (Nat.eq_dec j i) as [->|Hne]; [|apply Hno; lia].
        intros (H2 & Ha & Hb). rewrite Hprev, Hcur in Hb. congruence.
Qed.

End Scan.

(** ** The row scan computes the filled span *)

Lemma all_some_map {A B} (f : A -> option B) (g : A -> B) l :
  (forall a, In a l -> f a = Some (g a)) -> all_some (map f l) = Some (map g l).
Proof.
  induction l as [|a l IH]; intros H; simpl; [reflexivity|].
  rewrite (H a (or_introl eq_refl)). rewrite IH; [reflexivity|].
  intros b Hb. apply H. now right.
Qed.

Lemma get_inside (mask : raster Z) r c :
  Forall (fun row => Z.of_nat (length row) = width mask) mask ->
  0 <= r < height mask -> 0 <= c < width mask ->
  exists v, get mask r c = Some v.
Proof.
  intros Hrect Hr Hc. unfold get, height in *.
  replace (0 <=? r) with true by (symmetry; apply Z.leb_le; lia).
  replace (0 <=? c) with true by (symmetry; apply Z.leb_le; lia). simpl.
  destruct (nth_error mask (Z.to_nat r)) as [row|] eqn:E.
  - rewrite Forall_forall in Hrect. specialize (Hrect row (nth_error_In _ _ E)).
    destruct (nth_error row (Z.to_nat c)) as [v|] eqn:E'; [now exists v|].
    apply nth_error_None in E'. lia.
  - apply nth_error_None in E. lia.
Qed.

Lemma mask_at_inside (mask : raster Z) r c :
  0 <= r < height mask -> 0 <= c < width mask ->
  mask_at mask r c = get mask r c.
Proof.
  intros Hr Hc. unfold mask_at, np_index.
  replace ((0 <=? r) && (r <? height mask)) with true
    by (symmetry; apply andb_true_iff; split; [apply Z.leb_le|apply Z.ltb_lt]; lia).
  replace ((0 <=? c) && (c <? width mask)) with true
    by (symmetry; apply andb_true_iff; split; [apply Z.leb_le|apply Z.ltb_lt]; lia).
  reflexivity.
Qed.

Definition pick_left (lt : option Z) (fs : list Z) : option Z :=
  match lt with Some l => Some l | None => hd_error fs end.

Definition pick_right (rt : option Z) (fs : list Z) : option Z :=
  match fs with [] => rt | c :: cs => Some (last cs c) end.

Lemma last_cons_default {A} (l : list A) : forall a d, last (a :: l) d = last l a.
Proof.
  induction l as [|b l IH]; intros a d; [reflexivity|].
  change (last (a :: b :: l) d) with (last (b :: l) d). now rewrite !IH.
Qed.

Lemma scan_cols_spec mask row_i cols : forall lt rt,
  (forall c, In c cols -> exists v, mask_at mask row_i c = Some v /\ get mask row_i c = Some v) ->
  fold_left (scan_col mask row_i) cols (Some (lt, rt)) =
  Some (pick_left lt (filter (filled mask row_i) cols),
        pick_right rt (filter (filled mask row_i) cols)).
Proof.
  induction cols as [|c cols IH]; intros lt rt Hin.
  - destruct lt; reflexivity.
  - destruct (Hin c (or_introl eq_refl)) as (v & Hat & Hget).
    assert (Hf : filled mask row_i c = negb (v =? 0)) by (unfold filled; now rewrite Hget).
    cbn [fold_left filter scan_col]. rewrite Hat, Hf.
    destruct (negb (v =? 0)); rewrite IH by (intros c' Hc'; apply Hin; now right).
    + f_equal. f_equal.
      * destruct lt; reflexivity.
      * unfold pick_right. destruct (filter (filled mask row_i) cols) as [|c' cs]; [reflexivity|].
        now rewrite last_cons_default.
    + reflexivity.
Qed.

Lemma row_width_span mask row_i x w :
  Forall (fun row => Z.of_nat (length row) = width mask) mask ->
  0 <= row_i < height mask -> 0 <= x -> x + w <= width mask ->
  row_width mask row_i x w = Some (span_width mask row_i x w).
Proof.
  intros Hrect Hrow Hx Hw. unfold row_width, span_width.
  rewrite scan_cols_spec.
  - destruct (filter (filled mask row_i) (range x (x + w))); reflexivity.
  - intros c Hc. apply in_range in Hc.
    destruct (get_inside mask row_i c Hrect) as [v Hv]; try lia.
    exists v. split; [|exact Hv]. rewrite mask_at_inside by lia. exact Hv.
Qed.

(** The first filled column of an ascending scan is the smallest one. *)
Lemma filter_seq_first_le (P : Z -> bool) a : forall n s c cs,
  filter P (map (fun k => a + Z.of_nat k) (seq s n)) = c :: cs ->
  forall e, In e (c :: cs) -> c <= e.
Proof.
  induction n as [|n IH]; intros s c cs H e He; simpl in H; [discriminate|].
  destruct (P (a + Z.of_nat s)) eqn:E.
  - injection H as <- <-. destruct He as [<-|He]; [lia|].
    apply filter_In in He as [He _]. apply in_map_iff in He as (k & <- & Hk).
    apply in_seq in Hk. lia.
  - now apply (IH (S s) c cs).
Qed.

Lemma last_in {A} (l : list A) d : l <> [] -> In (last l d) l.
Proof.
  induction l as [|a l IH]; intros H; [contradiction|].
  destruct l as [|b l]; [now left|]. right. apply IH. discriminate.
Qed.

Lemma span_width_nonneg mask row_i x w : 0 <= span_width mask row_i x w.
Proof.
  unfold span_width, range.
  destruct (filter _ _) as [|c cs] eqn:E; [lia|].
  assert (c <= last cs c); [|lia].
  apply (filter_seq_first_le _ _ _ _ _ _ E).
  destruct cs as [|c' cs]; [now left|]. right. apply last_in. discriminate.
Qed.

(** ** The slice assignment *)

Definition in_slice (mask : raster Z) (r0 r1 c0 c1 r c : Z) : bool :=
  (slice_bound (height mask) r0 <=? r) && (r <? slice_bound (height mask) r1) &&
  ((slice_bound (width mask) c0 <=? c) && (c <? slice_bound (width mask) c1)).

Lemma get_assign_zero mask r0 r1 c0 c1 r c :
  get (assign_zero mask r0 r1 c0 c1) r c =
  if in_slice mask r0 r1 c0 c1 r c
  then option_map (fun _ => 0) (get mask r c)
  else get mask r c.
Proof.
  unfold in_slice, assign_zero, get.
  destruct (0 <=? r) eqn:Hr; cbn [andb]; [|now destruct (_ && _)].
  destruct (0 <=? c) eqn:Hc; cbn [andb]; [|now destruct (_ && _)].
  apply Z.leb_le in Hr, Hc.
  rewrite imap_nth_error, Z.add_0_l, Z2Nat.id by assumption.
  destruct (nth_error mask (Z.to_nat r)) as [row|]; cbn [option_map].
  - destruct ((slice_bound (height mask) r0 <=? r) && (r <? slice_bound (height mask) r1));
      cbn [andb]; [|reflexivity].
    rewrite imap_nth_error, Z.add_0_l, Z2Nat.id by assumption.
    destruct (nth_error row (Z.to_nat c)); cbn [option_map]; [|now destruct (_ && _)].
    now destruct (_ && _).
  - now destruct (_ && _).
Qed.

(** ** Widths collected by the first loop *)

Lemma nth_map_seq {B} (f : nat -> B) (d : B) n j :
  (j < n)%nat -> nth j (map f (seq 0 n)) d = f j.
Proof.
  intros Hj. rewrite (nth_indep _ d (f 0%nat)) by (now rewrite length_map, length_seq).
  rewrite map_nth, seq_nth by assumption. reflexivity.
Qed.

Definition widths (mask : raster Z) (x y w h : Z) : list Z :=
  map (fun row_i => span_width mask row_i x w) (range_down (y + h - 1) (y - 1)).

Lemma widths_length mask x y w h : length (widths mask x y w h) = Z.to_nat h.
Proof.
  unfold widths, range_down. rewrite !length_map, length_seq. f_equal. lia.
Qed.

Lemma widths_nth mask x y w h j :
  (j < Z.to_nat h)%nat ->
  nth j (widths mask x y w h) 0 = width_from_bottom mask x y w h (Z.of_nat j).
Proof.
  intros Hj. unfold widths, range_down. rewrite map_map.
  rewrite nth_map_seq by lia. reflexivity.
Qed.

Lemma row_widths_collected mask x y w h :
  bbox_inside mask x y w h -> 0 <= h ->
  all_some (map (fun row_i => row_width mask row_i x w) (range_down (y + h - 1) (y - 1)))
  = Some (widths mask x y w h).
Proof.
  intros (Hx & Hy & Hw & Hh & Hrect) Hpos. unfold widths.
  apply all_some_map. intros row_i Hin.
  unfold range_down in Hin. apply in_map_iff in Hin as (k & <- & Hk). apply in_seq in Hk.
  apply row_width_span; try assumption. lia.
Qed.

Lemma dropsb_iff mask x y w h k :
  dropsb (width_from_bottom mask x y w h (k - 1)) (width_from_bottom mask x y w h k) = true
  <-> 2 * width_from_bottom mask x y w h k < width_from_bottom mask x y w h (k - 1).
Proof.
  unfold dropsb. rewrite andb_true_iff, Z.ltb_lt.
  pose proof (span_width_nonneg mask (y + h - 1 - k) x w) as Hk. fold (width_from_bottom mask x y w h k) in Hk.
  split; [tauto|]. intros H. split; [|exact H]. apply Z.gtb_lt. lia.
Qed.

Lemma contr_iff_contraction mask x y w h j :
  (j < Z.to_nat h)%nat ->
  contr (widths mask x y w h) j <-> contraction mask x y w h (Z.of_nat j).
Proof.
  intros Hj. unfold contr, contraction. split.
  - intros (H2 & Ha & Hb).
    rewrite !widths_nth in Ha, Hb by lia.
    replace (Z.of_nat (j - 2)) with (Z.of_nat j - 1 - 1) in Ha by lia.
    replace (Z.of_nat (j - 1)) with (Z.of_nat j - 1) in Ha, Hb by lia.
    apply dropsb_iff in Ha, Hb.
    replace (Z.of_nat j - 2) with (Z.of_nat j - 1 - 1) by lia.
    repeat split; try assumption; lia.
  - intros (Hr & Hb & Ha).
    split; [lia|]. rewrite !widths_nth by lia.
    replace (Z.of_nat (j - 2)) with (Z.of_nat j - 1 - 1) by lia.
    replace (Z.of_nat (j - 1)) with (Z.of_nat j - 1) by lia.
    replace (Z.of_nat j - 2) with (Z.of_nat j - 1 - 1) in Ha by lia.
    split; apply dropsb_iff; assumption.
Qed.

Lemma span_width_empty mask row_i x w : w <= 0 -> span_width mask row_i x w = 0.
Proof.
  intros Hw. unfold span_width, range.
  replace (Z.to_nat (x + w - x)) with 0%nat by lia. reflexivity.
Qed.

(** The region [mask[row_cut:y+h, x:x+w]] for a cut at row [k] from the
    bottom of the box. *)
Definition in_cut (x y w h k r c : Z) : bool :=
  (y + h - 1 - k <=? r) && (r <? y + h) && ((x <=? c) && (c <? x + w)).

Lemma slice_bound_inside n i : 0 <= i <= n -> slice_bound n i = i.
Proof.
  intros H. unfold slice_bound.
  replace (i <? 0) with false by (symmetry; apply Z.ltb_ge; lia). lia.
Qed.

(** C7.  With the default ratio 0.5 and run length 2: a box lower than 10
    rows leaves the mask as it is and returns False; on a box of at least
    10 rows inside the mask, if no row (scanning bottom to top) completes
    two consecutive halvings of the span width the mask is returned
    identical with False, and otherwise, at the first such row, every
    pixel of the box from that row down to the bottom of the box is set to
    0, nothing else changes, and True is returned. *)
Theorem cut_forearm_correct (mask : raster Z) (x y w h : Z) :
  (h < 10 -> cut_forearm_automatically mask x y w h (1 # 2) 2 = Some (mask, false)) /\
  (10 <= h -> bbox_inside mask x y w h ->
     ((forall k, ~ contraction mask x y w h k) ->
        cut_forearm_automatically mask x y w h (1 # 2) 2 = Some (mask, false)) /\
     (forall k, contraction mask x y w h k ->
        (forall j, j < k -> ~ contraction mask x y w h j) ->
        exists mask',
          cut_forearm_automatically mask x y w h (1 # 2) 2 = Some (mask', true) /\
          forall r c, get mask' r c =
                      if in_cut x y w h k r c
                      then option_map (fun _ => 0) (get mask r c)
                      else get mask r c)).
Proof.
  split.
  - intros Hh. unfold cut_forearm_automatically.
    now replace (h <? 10) with true by (symmetry; apply Z.ltb_lt; lia).
  - intros Hh Hbox. unfold cut_forearm_automatically.
    replace (h <? 10) with false by (symmetry; apply Z.ltb_ge; lia).
    rewrite row_widths_collected by (assumption || lia).
    pose proof (widths_length mask x y w h) as Hlen.
    destruct (widths mask x y w h) as [|w0 rest] eqn:Hws; [simpl in Hlen; lia|].
    pose proof (find_cut_spec (w0 :: rest) rest 1 w0 0) as Hspec.
    specialize (Hspec (le_n 1) eq_refl eq_refl eq_refl).
    assert (Hno1 : forall j, (j < 1)%nat -> ~ contr (w0 :: rest) j)
      by (intros j Hj (H2 & _); lia).
    specialize (Hspec Hno1). rewrite <- Hws in Hspec.
    destruct (find_cut (1 # 2) 2 w0 rest 1 0) as [i|].
    + destruct Hspec as (Hi & Hc & Hmin). rewrite Hws, Hlen in Hi.
      apply contr_iff_contraction in Hc; [|exact Hi].
      split.
      * intros Hnone. exfalso. exact (Hnone _ Hc).
      * intros k Hk Hfirst.
        assert (k = Z.of_nat i) as ->.
        { destruct Hk as [Hk1 Hk']. apply Z.le_antisymm.
          - destruct (Z.le_gt_cases k (Z.of_nat i)) as [Hle|Hgt]; [exact Hle|].
            exfalso. exact (Hfirst _ Hgt Hc).
          - destruct (Z.le_gt_cases (Z.of_nat i) k) as [Hle|Hgt]; [exact Hle|].
            exfalso. apply (Hmin (Z.to_nat k)); [lia|].
            apply contr_iff_contraction; [lia|].
            rewrite Z2Nat.id by lia. split; assumption. }
        eexists. split; [reflexivity|]. intros r c.
        rewrite get_assign_zero. unfold in_slice, in_cut.
        destruct Hbox as (Hx & Hy & Hw & Hhh & _). pose proof Hc as Hc'. destruct Hc as [Hc _].
        destruct (Z.le_gt_cases 0 w) as [Hw0|Hw0].
        -- rewrite !slice_bound_inside by lia. reflexivity.
        -- (* a contraction needs a non-empty column range *)
           exfalso. destruct Hc' as (_ & Hk2 & _).
           unfold width_from_bottom in Hk2.
           rewrite !span_width_empty in Hk2 by lia. lia.
    + split.
      * reflexivity.
      * intros k Hk _. exfalso. destruct Hk as [Hk1 Hk'].
        apply (Hspec (Z.to_nat k)); [rewrite Hws, Hlen; lia|].
        apply contr_iff_contraction; [lia|].
        rewrite Z2Nat.id by lia. split; assumption.
Qed.

(** A 10 x 8 hand mask: a full-width bottom row, then 3 and 1 filled
    pixels going up. *)
Definition tapering_mask : raster Z :=
  map (fun n => repeat 255 n ++ repeat 0 (8 - n)) [1; 1; 1; 1; 1; 1; 1; 1; 3; 8]%nat.

Lemma cut_forearm_correct_witness :
  exists mask',
    cut_forearm_automatically tapering_mask 0 0 8 10 (1 # 2) 2 = Some (mask', true) /\
    get mask' 9 0 = Some 0 /\ get mask' 7 0 = Some 0 /\ get mask' 6 0 = Some 255.
Proof.
  destruct (cut_forearm_correct tapering_mask 0 0 8 10) as [_ H].
  destruct H as [_ H].
  - lia.
  - unfold bbox_inside. repeat split; try (vm_compute; discriminate).
    repeat constructor.
  - destruct (H 2) as (mask' & Hcut & Hpix).
    + unfold contraction. repeat split; vm_compute; congruence.
    + intros j Hj [Hr _]. lia.
    + exists mask'. split; [exact Hcut|].
      rewrite !Hpix. repeat split; reflexivity.
Defined.

End ForearmFacts.

(** * ColorRangeCalibrator: [calibrate_skin_color], [auto_calibrate_skin_color] *)

Module Calib.
Import Raster.

(** A pixel, or a bound triple, of three 8-bit channels. *)
Definition Triple : Type := (Z * Z * Z)%type.

Definition ch0 (t : Triple) : Z := fst (fst t).
Definition ch1 (t : Triple) : Z := snd (fst t).
Definition ch2 (t : Triple) : Z := snd t.

(** Storing a value in a [np.uint8]: reduction modulo 256. *)
Definition uint8 (v : Z) : Z := v mod 256.

(** [np.array([a, b, c], dtype=np.uint8)] *)
Definition array_uint8 (a b c : Z) : Triple := (uint8 a, uint8 b, uint8 c).

Definition pixels {A} (region : raster A) : list A := concat region.

Definition sum (l : list Z) : Z := fold_right Z.add 0 l.

(** [int(np.mean(vals))] on a non-empty array of bytes. *)
Definition int_mean (vals : list Z) : Z := sum vals / Z.of_nat (length vals).

(** [int(np.std(vals))]: the integer part of
    [sqrt (n * sum (v^2) - (sum v)^2) / n], taken in exact arithmetic.
    (numpy computes it in floating point: where the exact value is an
    integer the float can fall just below it, and [int] then gives one
    less.) *)
Definition int_std (vals : list Z) : Z :=
  let n := Z.of_nat (length vals) in
  let s := sum vals in
  let s2 := sum (map (fun v => v * v) vals) in
  Z.sqrt (n * s2 - s * s) / n.

(** [cv2.calcHist([img], [0], None, [bins], [0, bins])] on the values of
    channel 0: one count per integer value below [bins]. *)
Definition calcHist (vals : list Z) (bins : Z) : list Z :=
  map (fun b => Z.of_nat (count_occ Z.eq_dec vals b)) (range 0 bins).

(** [np.argmax]: the first index that holds the maximum. *)
Fixpoint argmax_from (l : list Z) (i best_i best_v : Z) : Z :=
  match l with
  | [] => best_i
  | v :: l' =>
      if v >? best_v then argmax_from l' (i + 1) i v
      else argmax_from l' (i + 1) best_i best_v
  end.

Definition argmax (l : list Z) : Z :=
  match l with
  | [] => 0
  | v :: l' => argmax_from l' 1 0 v
  end.

(** The statistics both calibrators take from the sampled region. *)
Record Stats : Type := {
  peak_hue : Z;
  std_dev_hsv : Z;
  cr_mean : Z;
  cb_mean : Z;
  std_dev_crcb : Z }.

(** The module-level ranges [lower_skin_hsv], [upper_skin_hsv],
    [lower_skin_ycrcb], [upper_skin_ycrcb], once set. *)
Record SkinRanges : Type := {
  lower_skin_hsv : Triple;
  upper_skin_hsv : Triple;
  lower_skin_ycrcb : Triple;
  upper_skin_ycrcb : Triple }.

(** The four arrays both calibrators build from the statistics. *)
Definition ranges_of_stats (s : Stats) : SkinRanges :=
  {| lower_skin_hsv :=
       array_uint8 (Z.max 0 (peak_hue s - 2 * std_dev_hsv s)) 30 60;
     upper_skin_hsv :=
       array_uint8 (Z.min 180 (peak_hue s + 2 * std_dev_hsv s)) 255 255;
     lower_skin_ycrcb :=
       array_uint8 0 (Z.max 133 (cr_mean s - std_dev_crcb s))
                     (Z.max 77 (cb_mean s - std_dev_crcb s));
     upper_skin_ycrcb :=
       array_uint8 255 (Z.min 173 (cr_mean s + std_dev_crcb s))
                       (Z.min 127 (cb_mean s + std_dev_crcb s)) |}.

(** How numpy types [python_int - uint8_scalar]: value-based casting
    (NumPy 1.x) computes in a wide signed integer, NEP 50 (NumPy 2)
    computes in [uint8]. *)
Inductive promotion : Type := ValueBased | NEP50.

(** [abs(a - b)] for a Python int [a] (a byte value here) and a
    [np.uint8] [b]. *)
Definition abs_diff_int_uint8 (p : promotion) (a b : Z) : Z :=
  match p with
  | ValueBased => Z.abs (a - b)
  | NEP50 => uint8 (uint8 a - b)
  end.

(** [(lower[i] + upper[i]) // 2] on two [np.uint8] scalars: the sum is
    itself a [np.uint8]. *)
Definition uint8_mid (l u : Z) : Z := uint8 (l + u) / 2.

(** The test [diff_hue > TH or diff_cr > TH or diff_cb > TH] of
    [auto_calibrate_skin_color] against the committed ranges. *)
Definition drift_exceeded (p : promotion) (cur : SkinRanges) (s : Stats) : bool :=
  let old_hue := uint8_mid (ch0 (lower_skin_hsv cur)) (ch0 (upper_skin_hsv cur)) in
  let old_cr := uint8_mid (ch1 (lower_skin_ycrcb cur)) (ch1 (upper_skin_ycrcb cur)) in
  let old_cb := uint8_mid (ch2 (lower_skin_ycrcb cur)) (ch2 (upper_skin_ycrcb cur)) in
  let TH := 40 in
  let diff_hue := Z.abs (peak_hue s - old_hue) in
  let diff_cr := abs_diff_int_uint8 p (cr_mean s) old_cr in
  let diff_cb := abs_diff_int_uint8 p (cb_mean s) old_cb in
  (diff_hue >? TH) || (diff_cr >? TH) || (diff_cb >? TH).

Section Calibrators.

(** [cv2.cvtColor] with [COLOR_BGR2HSV] and [COLOR_BGR2YCrCb], on one
    8-bit pixel. *)
Variable BGR2HSV : Triple -> Triple.
Variable BGR2YCrCb : Triple -> Triple.

(** numpy's promotion rule in force. *)
Variable numpy : promotion.

Definition sample_stats (region : raster Triple) : Stats :=
  let hsv_region := pointwise BGR2HSV region in
  let hues := map ch0 (pixels hsv_region) in
  let hist_hsv := calcHist hues 180 in
  let ycrcb_region := pointwise BGR2YCrCb region in
  {| peak_hue := argmax hist_hsv;
     std_dev_hsv := int_std hues;
     cr_mean := int_mean (map ch1 (pixels ycrcb_region));
     cb_mean := int_mean (map ch2 (pixels ycrcb_region));
     std_dev_crcb := int_std (flat_map (fun t => [ch1 t; ch2 t]) (pixels ycrcb_region)) |}.

(** The 25 x 25 patch around the frame centre. *)
Definition center_region (frame : raster Triple) : raster Triple :=
  let h := height frame in
  let w := width frame in
  let x1 := w / 2 - 12 in
  let y1 := h / 2 - 12 in
  let x2 := w / 2 + 13 in
  let y2 := h / 2 + 13 in
  crop frame y1 y2 x1 x2.

(** [calibrate_skin_color(frame)]: the four arrays it returns; [None] when
    the patch has no pixel and [cv2.cvtColor] raises. *)
Definition calibrate_skin_color (frame : raster Triple) : option SkinRanges :=
  let region := center_region frame in
  match pixels region with
  | [] => None
  | _ => Some (ranges_of_stats (sample_stats region))
  end.

(** The box [(x1, y1, x2, y2)] sampled by the automatic calibration. *)
Definition auto_box (frame : raster Triple) (cx cy box_size : Z) : Z * Z * Z * Z :=
  let h := height frame in
  let w := width frame in
  let x1 := Z.max (cx - box_size / 2) 0 in
  let y1 := Z.max (cy - box_size / 2) 0 in
  let x2 := Z.min (cx + box_size / 2) (w - 1) in
  let y2 := Z.min (cy + box_size / 2) (h - 1) in
  (x1, y1, x2, y2).

(** [auto_calibrate_skin_color(frame, cx, cy, box_size)] run on committed
    ranges [cur]: the ranges after the call and the returned box. *)
Definition auto_calibrate_skin_color (cur : SkinRanges)
    (frame : raster Triple) (cx cy box_size : Z)
  : option (SkinRanges * (Z * Z * Z * Z)) :=
  let '(x1, y1, x2, y2) := auto_box frame cx cy box_size in
  let region := crop frame y1 y2 x1 x2 in
  match pixels region with
  | [] => None
  | _ =>
      let s := sample_stats region in
      let new := ranges_of_stats s in
      if drift_exceeded numpy cur s
      then Some (cur, (x1, y1, x2, y2))
      else Some (new, (x1, y1, x2, y2))
  end.

End Calibrators.

(** The test the drift check is described by: some statistic is more than
    40 away from the midpoint of its committed range. *)
Definition midpoint (l u : Z) : Z := (l + u) / 2.

Definition drift_beyond_midpoints (cur : SkinRanges) (s : Stats) : bool :=
  (Z.abs (peak_hue s - midpoint (ch0 (lower_skin_hsv cur)) (ch0 (upper_skin_hsv cur))) >? 40)
  || (Z.abs (cr_mean s - midpoint (ch1 (lower_skin_ycrcb cur)) (ch1 (upper_skin_ycrcb cur))) >? 40)
  || (Z.abs (cb_mean s - midpoint (ch2 (lower_skin_ycrcb cur)) (ch2 (upper_skin_ycrcb cur))) >? 40).

(** [cv2.cvtColor] on the colours the examples use: a grey pixel
    (b = g = r) has hue 0, saturation 0 and chroma (128, 128); the two
    skin tones BGR (120, 150, 200) and BGR (110, 150, 210) and the orange
    BGR (0, 94, 255) are tabulated. *)
Definition sample_BGR2HSV (p : Triple) : Triple :=
  let '(b, g, r) := p in
  if (b =? 120) && (g =? 150) && (r =? 200) then (11, 102, 200)
  else if (b =? 110) && (g =? 150) && (r =? 210) then (12, 121, 210)
  else if (b =? 0) && (g =? 94) && (r =? 255) then (11, 255, 255)
  else (0, 0, uint8 r).

Definition sample_BGR2YCrCb (p : Triple) : Triple :=
  let '(b, g, r) := p in
  if (b =? 120) && (g =? 150) && (r =? 200) then (162, 155, 104)
  else if (b =? 110) && (g =? 150) && (r =? 210) then (163, 162, 98)
  else if (b =? 0) && (g =? 94) && (r =? 255) then (131, 216, 54)
  else (uint8 r, 128, 128).

Definition uniform_frame (h w : nat) (p : Triple) : raster Triple :=
  repeat (repeat p w) h.

End Calib.

Module CalibFacts.
Import Raster Calib.

Lemma uint8_small v : 0 <= v <= 255 -> uint8 v = v.
Proof. intros H. apply Z.mod_small. lia. Qed.

Lemma uint8_range v : 0 <= uint8 v <= 255.
Proof. unfold uint8. pose proof (Z.mod_pos_bound v 256). lia. Qed.

Lemma sum_bounds l :
  Forall (fun v => 0 <= v <= 255) l -> 0 <= sum l <= 255 * Z.of_nat (length l).
Proof.
  induction 1 as [|v l Hv _ IH]; cbn [sum fold_right length]; [lia|].
  fold (sum l). rewrite Nat2Z.inj_succ. lia.
Qed.

Lemma int_mean_bounds l :
  l <> [] -> Forall (fun v => 0 <= v <= 255) l -> 0 <= int_mean l <= 255.
Proof.
  intros Hne Hall. unfold int_mean. pose proof (sum_bounds l Hall) as Hs.
  assert (0 < Z.of_nat (length l)) by (destruct l; [contradiction|simpl; lia]).
  split.
  - apply Z.div_pos; lia.
  - apply Z.div_le_upper_bound; lia.
Qed.

Lemma int_std_nonneg l : 0 <= int_std l.
Proof.
  unfold int_std. destruct l as [|v l].
  - reflexivity.
  - apply Z.div_pos; [apply Z.sqrt_nonneg|simpl length; lia].
Qed.

Lemma argmax_from_range l : forall i best_i best_v,
  argmax_from l i best_i best_v = best_i \/
  i <= argmax_from l i best_i best_v < i + Z.of_nat (length l).
Proof.
  induction l as [|v l IH]; intros i best_i best_v; simpl; [now left|].
  destruct (v >? best_v).
  - right. destruct (IH (i + 1) i v) as [-> | H]; lia.
  - destruct (IH (i + 1) best_i best_v) as [-> | H]; [now left|right; lia].
Qed.

Lemma argmax_range l : l <> [] -> 0 <= argmax l < Z.of_nat (length l).
Proof.
  destruct l as [|v l]; [contradiction|]. intros _. unfold argmax.
  destruct (argmax_from_range l 1 0 v) as [-> | H]; simpl length; lia.
Qed.

Lemma calcHist_length vals bins : 0 <= bins -> Z.of_nat (length (calcHist vals bins)) = bins.
Proof.
  intros H. unfold calcHist, range. rewrite !length_map, length_seq. lia.
Qed.

(** ** What the committed arrays satisfy *)

Definition fits8 (t : Triple) : Prop :=
  0 <= ch0 t <= 255 /\ 0 <= ch1 t <= 255 /\ 0 <= ch2 t <= 255.

(** Componentwise order of the HSV pair and of the luma bounds; hue
    bounds within [0, 180]; the chroma floors and ceilings. *)
Definition one_sided_ok (r : SkinRanges) : Prop :=
  fits8 (lower_skin_hsv r) /\ fits8 (upper_skin_hsv r) /\
  fits8 (lower_skin_ycrcb r) /\ fits8 (upper_skin_ycrcb r) /\
  ch0 (lower_skin_hsv r) <= ch0 (upper_skin_hsv r) /\
  ch1 (lower_skin_hsv r) <= ch1 (upper_skin_hsv r) /\
  ch2 (lower_skin_hsv r) <= ch2 (upper_skin_hsv r) /\
  0 <= ch0 (lower_skin_hsv r) /\ ch0 (upper_skin_hsv r) <= 180 /\
  ch0 (lower_skin_ycrcb r) <= ch0 (upper_skin_ycrcb r) /\
  133 <= ch1 (lower_skin_ycrcb r) /\ ch1 (upper_skin_ycrcb r) <= 173 /\
  77 <= ch2 (lower_skin_ycrcb r) /\ ch2 (upper_skin_ycrcb r) <= 127.

(** A chroma channel is ordered, hence inside its band, when the sampled
    mean of that channel lies in the band. *)
Definition chroma_ok_in_band (s : Stats) (r : SkinRanges) : Prop :=
  (133 <= cr_mean s <= 173 ->
     133 <= ch1 (lower_skin_ycrcb r) <= ch1 (upper_skin_ycrcb r) /\
     ch1 (upper_skin_ycrcb r) <= 173) /\
  (77 <= cb_mean s <= 127 ->
     77 <= ch2 (lower_skin_ycrcb r) <= ch2 (upper_skin_ycrcb r) /\
     ch2 (upper_skin_ycrcb r) <= 127).

(** The full invariant claimed for a committed pair of ranges. *)
Definition two_sided_ok (r : SkinRanges) : Prop :=
  one_sided_ok r /\
  ch1 (lower_skin_ycrcb r) <= ch1 (upper_skin_ycrcb r) /\
  ch2 (lower_skin_ycrcb r) <= ch2 (upper_skin_ycrcb r) /\
  ch1 (lower_skin_ycrcb r) <= 173 /\ 133 <= ch1 (upper_skin_ycrcb r) /\
  ch2 (lower_skin_ycrcb r) <= 127 /\ 77 <= ch2 (upper_skin_ycrcb r).

Definition valid_stats (s : Stats) : Prop :=
  0 <= peak_hue s < 180 /\ 0 <= std_dev_hsv s /\
  0 <= cr_mean s <= 255 /\ 0 <= cb_mean s <= 255 /\ 0 <= std_dev_crcb s.

Lemma ranges_of_valid_stats s :
  valid_stats s ->
  one_sided_ok (ranges_of_stats s) /\ chroma_ok_in_band s (ranges_of_stats s).
Proof.
  intros (Hp & Hsh & Hcr & Hcb & Hsc).
  unfold one_sided_ok, chroma_ok_in_band, fits8, ranges_of_stats, array_uint8, ch0, ch1, ch2.
  cbn [lower_skin_hsv upper_skin_hsv lower_skin_ycrcb upper_skin_ycrcb fst snd].
  rewrite !uint8_small by lia. repeat split; lia.
Qed.

Lemma pixels_pointwise {A B} (f : A -> B) (region : raster A) :
  pixels (pointwise f region) = map f (pixels region).
Proof. unfold pixels, pointwise. symmetry. apply concat_map. Qed.

(** The region sampled by the automatic calibration. *)
Definition auto_region (frame : raster Triple) (cx cy box_size : Z) : raster Triple :=
  let '(x1, y1, x2, y2) := auto_box frame cx cy box_size in
  crop frame y1 y2 x1 x2.

(** Without wrap-around in the three [uint8] sums, and with differences
    taken in a wide integer, the drift test is the comparison with the
    midpoints of the committed ranges. *)
Lemma drift_test_without_overflow cur s :
  ch0 (lower_skin_hsv cur) + ch0 (upper_skin_hsv cur) <= 255 ->
  ch1 (lower_skin_ycrcb cur) + ch1 (upper_skin_ycrcb cur) <= 255 ->
  ch2 (lower_skin_ycrcb cur) + ch2 (upper_skin_ycrcb cur) <= 255 ->
  0 <= ch0 (lower_skin_hsv cur) + ch0 (upper_skin_hsv cur) ->
  0 <= ch1 (lower_skin_ycrcb cur) + ch1 (upper_skin_ycrcb cur) ->
  0 <= ch2 (lower_skin_ycrcb cur) + ch2 (upper_skin_ycrcb cur) ->
  drift_exceeded ValueBased cur s = drift_beyond_midpoints cur s.
Proof.
  intros. unfold drift_exceeded, drift_beyond_midpoints, uint8_mid, midpoint, abs_diff_int_uint8.
  now rewrite !uint8_small by lia.
Qed.

Section Claims.

Variable BGR2HSV : Triple -> Triple.
Variable BGR2YCrCb : Triple -> Triple.
Variable numpy : promotion.

(** [cv2.cvtColor] of an 8-bit image is an 8-bit image. *)
Hypothesis YCrCb_bytes : forall p,
  0 <= ch1 (BGR2YCrCb p) <= 255 /\ 0 <= ch2 (BGR2YCrCb p) <= 255.

Let stats := sample_stats BGR2HSV BGR2YCrCb.

Lemma sample_stats_valid region : pixels region <> [] -> valid_stats (stats region).
Proof.
  intros Hne. unfold valid_stats, stats, sample_stats.
  cbn [peak_hue std_dev_hsv cr_mean cb_mean std_dev_crcb].
  rewrite !pixels_pointwise.
  assert (Hne' : forall f : Triple -> Z, map f (map BGR2YCrCb (pixels region)) <> []).
  { intros f. destruct (pixels region); [contradiction|discriminate]. }
  repeat split; try apply int_std_nonneg.
  - apply argmax_range.
    intros E. apply (f_equal (@length Z)) in E. apply (f_equal Z.of_nat) in E.
    rewrite calcHist_length in E by lia. discriminate.
  - pose proof (calcHist_length (map ch0 (map BGR2HSV (pixels region))) 180 ltac:(lia)) as Hl.
    pose proof (argmax_range (calcHist (map ch0 (map BGR2HSV (pixels region))) 180)) as Ha.
    rewrite Hl in Ha. apply Ha.
    intros E. rewrite E in Hl. discriminate.
  - apply int_mean_bounds; [apply Hne'|].
    rewrite Forall_map, Forall_map. apply Forall_forall. intros p _. apply YCrCb_bytes.
  - apply int_mean_bounds; [apply Hne'|].
    rewrite Forall_map, Forall_map. apply Forall_forall. intros p _. apply YCrCb_bytes.
  - apply int_mean_bounds; [apply Hne'|].
    rewrite Forall_map, Forall_map. apply Forall_forall. intros p _. apply YCrCb_bytes.
  - apply int_mean_bounds; [apply Hne'|].
    rewrite Forall_map, Forall_map. apply Forall_forall. intros p _. apply YCrCb_bytes.
Qed.

(** C2, as amended.  After a manual calibration, and after an automatic
    calibration that commits, every component of the four stored arrays
    fits in 8 bits; the HSV pair is ordered componentwise with hue bounds
    in [0, 180]; the luma bounds are 0 and 255; the chroma bounds are
    clamped on one side each (lower Cr at least 133, upper Cr at most 173,
    lower Cb at least 77, upper Cb at most 127); and a chroma channel
    satisfies lower <= upper, with both bounds inside its band, whenever
    the sampled mean of that channel lies in the band. *)
Theorem committed_ranges_one_sided :
  (forall frame r,
     calibrate_skin_color BGR2HSV BGR2YCrCb frame = Some r ->
     one_sided_ok r /\ chroma_ok_in_band (stats (center_region frame)) r) /\
  (forall cur frame cx cy box_size r box,
     auto_calibrate_skin_color BGR2HSV BGR2YCrCb numpy cur frame cx cy box_size
       = Some (r, box) ->
     drift_exceeded numpy cur (stats (auto_region frame cx cy box_size)) = false ->
     one_sided_ok r /\ chroma_ok_in_band (stats (auto_region frame cx cy box_size)) r).
Proof.
  split.
  - intros frame r. unfold calibrate_skin_color.
    destruct (pixels (center_region frame)) eqn:E; [discriminate|].
    intros [= <-]. apply ranges_of_valid_stats, sample_stats_valid.
    rewrite E. discriminate.
  - intros cur frame cx cy box_size r box.
    unfold auto_calibrate_skin_color, auto_region.
    destruct (auto_box frame cx cy box_size) as [[[x1 y1] x2] y2].
    destruct (pixels (crop frame y1 y2 x1 x2)) eqn:E; [discriminate|].
    fold stats. intros H Hd. rewrite Hd in H. injection H as <- _.
    apply ranges_of_valid_stats, sample_stats_valid.
    rewrite E. discriminate.
Qed.

End Claims.

Lemma sample_YCrCb_bytes p :
  0 <= ch1 (sample_BGR2YCrCb p) <= 255 /\ 0 <= ch2 (sample_BGR2YCrCb p) <= 255.
Proof.
  destruct p as [[b g] r]. unfold sample_BGR2YCrCb.
  repeat (destruct (_ && _); [cbn; lia|]). cbn; lia.
Qed.

Definition grey_frame : raster Triple := uniform_frame 60 80 (128, 128, 128).
Definition skin_frame : raster Triple := uniform_frame 60 80 (120, 150, 200).
Definition skin_frame' : raster Triple := uniform_frame 60 80 (110, 150, 210).

(** C2, as stated, fails: a manual calibration on a grey patch (chroma
    (128, 128), below the Cr band and above the Cb band) stores a Cr pair
    [133, 128] and a Cb pair [128, 127]: lower exceeds upper on both, the
    upper Cr bound is below 133 and the lower Cb bound above 127. *)
Lemma grey_patch_counterexample :
  exists r,
    calibrate_skin_color sample_BGR2HSV sample_BGR2YCrCb grey_frame = Some r /\
    lower_skin_ycrcb r = (0, 133, 128) /\ upper_skin_ycrcb r = (255, 128, 127) /\
    ~ two_sided_ok r.
Proof.
  eexists. split; [vm_compute; reflexivity|].
  split; [reflexivity|]. split; [reflexivity|].
  intros (_ & H & _). vm_compute in H. apply H. reflexivity.
Qed.

Lemma committed_ranges_one_sided_witness :
  exists r,
    calibrate_skin_color sample_BGR2HSV sample_BGR2YCrCb skin_frame = Some r /\
    one_sided_ok r.
Proof.
  destruct (committed_ranges_one_sided sample_BGR2HSV sample_BGR2YCrCb ValueBased
              sample_YCrCb_bytes) as [Hmanual _].
  eexists. split.
  - vm_compute. reflexivity.
  - apply (Hmanual skin_frame). vm_compute. reflexivity.
Defined.

(** C3 at a failing input.  The ranges committed by a manual calibration
    on one skin tone are (hue 11..11, Cr 133..173, Cb 79..127), with
    midpoints 11, 153 and 103.  An automatic calibration then samples a
    second skin tone with peak hue 12, Cr mean 162 and Cb mean 98: no
    statistic is more than 40 from its midpoint, yet the call leaves the
    ranges unchanged, under either numpy promotion rule, because the Cr
    midpoint is computed as ((133 + 173) mod 256) // 2 = 25. *)
Theorem close_sample_is_rejected :
  exists cur box,
    calibrate_skin_color sample_BGR2HSV sample_BGR2YCrCb skin_frame = Some cur /\
    let s := sample_stats sample_BGR2HSV sample_BGR2YCrCb (auto_region skin_frame' 40 30 50) in
    (peak_hue s, cr_mean s, cb_mean s) = (12, 162, 98) /\
    drift_beyond_midpoints cur s = false /\
    ranges_of_stats s <> cur /\
    uint8_mid (ch1 (lower_skin_ycrcb cur)) (ch1 (upper_skin_ycrcb cur)) = 25 /\
    forall numpy,
      auto_calibrate_skin_color sample_BGR2HSV sample_BGR2YCrCb numpy cur skin_frame' 40 30 50
      = Some (cur, box).
Proof.
  eexists. eexists. split; [vm_compute; reflexivity|].
  cbv zeta. split; [vm_compute; reflexivity|].
  split; [vm_compute; reflexivity|].
  split; [vm_compute; discriminate|].
  split; [vm_compute; reflexivity|].
  intros [|]; vm_compute; reflexivity.
Qed.

End CalibFacts.

(** * CueSegmenter: the colour-cue fusion at the head of [detect_hand] *)

Module Segment.
Import Raster Calib.

(** [cv2.inRange] on one pixel: 255 when every channel lies between the
    bounds, both included, else 0. *)
Definition inRange (p lower upper : Triple) : Z :=
  if (ch0 lower <=? ch0 p) && (ch0 p <=? ch0 upper) &&
     (ch1 lower <=? ch1 p) && (ch1 p <=? ch1 upper) &&
     (ch2 lower <=? ch2 p) && (ch2 p <=? ch2 upper)
  then 255 else 0.

(** Rounding to the nearest integer, ties to even. *)
Definition cvRound (q : Q) : Z :=
  let f := Qfloor q in
  match Qcompare (q - inject_Z f) (1 # 2) with
  | Lt => f
  | Gt => f + 1
  | Eq => if Z.even f then f else f + 1
  end.

Definition saturate_uint8 (v : Z) : Z := Z.max 0 (Z.min 255 v).

(** [cv2.addWeighted(a, alpha, b, beta, gamma)] on one pair of 8-bit
    pixels. *)
Definition addWeighted (a : Z) (alpha : Q) (b : Z) (beta : Q) (gamma : Q) : Z :=
  saturate_uint8 (cvRound (inject_Z a * alpha + inject_Z b * beta + gamma)).

(** [cv2.threshold(src, thresh, maxval, cv2.THRESH_BINARY)] on one pixel. *)
Definition threshold_binary (thresh maxval p : Z) : Z :=
  if p >? thresh then maxval else 0.

Section ColorMask.

Variable BGR2HSV : Triple -> Triple.
Variable BGR2YCrCb : Triple -> Triple.

Definition mask_hsv_px (cur : SkinRanges) (p : Triple) : Z :=
  inRange (BGR2HSV p) (lower_skin_hsv cur) (upper_skin_hsv cur).

Definition mask_ycrcb_px (cur : SkinRanges) (p : Triple) : Z :=
  inRange (BGR2YCrCb p) (lower_skin_ycrcb cur) (upper_skin_ycrcb cur).

Definition combined_px (cur : SkinRanges) (p : Triple) : Z :=
  addWeighted (mask_hsv_px cur p) (40 # 100) (mask_ycrcb_px cur p) (60 # 100) 0.

(** [color_mask], lines 453-460 of [detect_hand]. *)
Definition color_mask (cur : SkinRanges) (frame_roi : raster Triple) : raster Z :=
  pointwise (fun p => threshold_binary 50 255 (combined_px cur p)) frame_roi.

(** The fusion as it is described: the same blend, made binary again at
    the midpoint of the 8-bit range. *)
Definition midpoint_fused_mask (cur : SkinRanges) (frame_roi : raster Triple) : raster Z :=
  pointwise (fun p => threshold_binary 127 255 (combined_px cur p)) frame_roi.

End ColorMask.

End Segment.

Module SegmentFacts.
Import Raster Calib Segment.

Lemma inRange_binary p lower upper : inRange p lower upper = 0 \/ inRange p lower upper = 255.
Proof. unfold inRange. destruct (_ && _); auto. Qed.

Lemma blend_values :
  addWeighted 0 (40 # 100) 0 (60 # 100) 0 = 0 /\
  addWeighted 255 (40 # 100) 0 (60 # 100) 0 = 102 /\
  addWeighted 0 (40 # 100) 255 (60 # 100) 0 = 153 /\
  addWeighted 255 (40 # 100) 255 (60 # 100) 0 = 255.
Proof. repeat split; vm_compute; reflexivity. Qed.

Section Claims.

Variable BGR2HSV : Triple -> Triple.
Variable BGR2YCrCb : Triple -> Triple.

(** C6, as amended.  The fused mask is the blend of the HSV mask (weight
    0.40) and the YCrCb mask (weight 0.60), made binary again at 50: a
    pixel is foreground exactly when its blended value exceeds 50, which
    for the two binary masks is exactly when at least one of them is
    set. *)
Theorem color_mask_thresholds_at_50 (cur : SkinRanges) (frame_roi : raster Triple) :
  (forall y x,
     get (color_mask BGR2HSV BGR2YCrCb cur frame_roi) y x =
     option_map (fun p => if combined_px BGR2HSV BGR2YCrCb cur p >? 50 then 255 else 0)
                (get frame_roi y x)) /\
  (forall p,
     (combined_px BGR2HSV BGR2YCrCb cur p >? 50) =
     (mask_hsv_px BGR2HSV cur p =? 255) || (mask_ycrcb_px BGR2YCrCb cur p =? 255)).
Proof.
  split.
  - intros y x. unfold color_mask. now rewrite get_pointwise.
  - intros p. unfold combined_px, mask_hsv_px, mask_ycrcb_px.
    destruct blend_values as (H00 & H10 & H01 & H11).
    destruct (inRange_binary (BGR2HSV p) (lower_skin_hsv cur) (upper_skin_hsv cur)) as [-> | ->];
    destruct (inRange_binary (BGR2YCrCb p) (lower_skin_ycrcb cur) (upper_skin_ycrcb cur)) as [-> | ->];
    rewrite ?H00, ?H10, ?H01, ?H11; reflexivity.
Qed.

End Claims.

Definition orange_roi : raster Triple := [[(0, 94, 255)]].

(** C6, as stated, fails: with the ranges calibrated on a skin tone, an
    orange pixel of the same hue passes the HSV test and fails the YCrCb
    test; its blended value is 102, above the threshold 50 of the code
    and below the midpoint, so the code marks it while a midpoint
    threshold would not. *)
Lemma hsv_only_pixel_counterexample :
  exists cur,
    calibrate_skin_color sample_BGR2HSV sample_BGR2YCrCb CalibFacts.skin_frame = Some cur /\
    combined_px sample_BGR2HSV sample_BGR2YCrCb cur (0, 94, 255) = 102 /\
    color_mask sample_BGR2HSV sample_BGR2YCrCb cur orange_roi = [[255]] /\
    midpoint_fused_mask sample_BGR2HSV sample_BGR2YCrCb cur orange_roi = [[0]].
Proof.
  eexists. split; [vm_compute; reflexivity|].
  repeat split; vm_compute; reflexivity.
Qed.

End SegmentFacts.

(** * PositionSmoother: the Kalman filter and [update_kalman] *)

Module Smoother.

Local Open Scope Q_scope.

Definition vec : Type := list Q.
Definition mat : Type := list (list Q).

Definition dot (u v : vec) : Q :=
  Qred (fold_right Qplus 0 (map (fun ab => fst ab * snd ab) (combine u v))).

Definition mat_vec (m : mat) (v : vec) : vec := map (fun row => dot row v) m.

Definition column (m : mat) (j : nat) : vec := map (fun row => nth j row 0) m.

Definition transpose (m : mat) : mat :=
  map (column m) (seq 0 (length (hd [] m))).

Definition mat_mul (a b : mat) : mat :=
  map (fun row => map (dot row) (transpose b)) a.

Definition vec_zip (f : Q -> Q -> Q) (u v : vec) : vec :=
  map (fun ab => Qred (f (fst ab) (snd ab))) (combine u v).

Definition mat_zip (f : Q -> Q -> Q) (a b : mat) : mat :=
  map (fun rs => vec_zip f (fst rs) (snd rs)) (combine a b).

Definition scaled_eye (n : nat) (c : Q) : mat :=
  map (fun i => map (fun j => if Nat.eqb i j then c else 0) (seq 0 n)) (seq 0 n).

(** Inverse of a 2 x 2 matrix, which is what solving against the
    innovation covariance amounts to: with a positive measurement noise
    that matrix is never singular. *)
Definition inv2 (m : mat) : mat :=
  match m with
  | [[a; b]; [c; d]] =>
      let det := a * d - b * c in
      [[Qred (d / det); Qred (- b / det)]; [Qred (- c / det); Qred (a / det)]]
  | _ => m
  end.

(** The fields of [cv2.KalmanFilter] that prediction and correction use. *)
Record KalmanFilter : Type := {
  transitionMatrix : mat;
  measurementMatrix : mat;
  processNoiseCov : mat;
  measurementNoiseCov : mat;
  statePre : vec;
  statePost : vec;
  errorCovPre : mat;
  errorCovPost : mat }.

(** [init_kalman_filter()] *)
Definition init_kalman_filter : KalmanFilter :=
  {| transitionMatrix := [[1; 0; 1; 0]; [0; 1; 0; 1]; [0; 0; 1; 0]; [0; 0; 0; 1]];
     measurementMatrix := [[1; 0; 0; 0]; [0; 1; 0; 0]];
     processNoiseCov := scaled_eye 4 (1 # 1000);
     measurementNoiseCov := scaled_eye 2 (1 # 100);
     statePre := [0; 0; 0; 0];
     statePost := [0; 0; 0; 0];
     errorCovPre := scaled_eye 4 0;
     errorCovPost := scaled_eye 4 1 |}%Q.

(** [set_kalman_position(kf, x, y)] *)
Definition set_kalman_position (kf : KalmanFilter) (x y : Q) : KalmanFilter :=
  {| transitionMatrix := transitionMatrix kf;
     measurementMatrix := measurementMatrix kf;
     processNoiseCov := processNoiseCov kf;
     measurementNoiseCov := measurementNoiseCov kf;
     statePre := statePre kf;
     statePost := [x; y; 0; 0]%Q;
     errorCovPre := errorCovPre kf;
     errorCovPost := errorCovPost kf |}.

(** [kf.predict()]: the a-priori state and covariance, which are also
    copied to the a-posteriori fields; returns the filter and [statePre]. *)
Definition predict (kf : KalmanFilter) : KalmanFilter * vec :=
  let F := transitionMatrix kf in
  let pre := mat_vec F (statePost kf) in
  let P := mat_zip Qplus (mat_mul (mat_mul F (errorCovPost kf)) (transpose F))
                   (processNoiseCov kf) in
  ({| transitionMatrix := F;
      measurementMatrix := measurementMatrix kf;
      processNoiseCov := processNoiseCov kf;
      measurementNoiseCov := measurementNoiseCov kf;
      statePre := pre;
      statePost := pre;
      errorCovPre := P;
      errorCovPost := P |}, pre).

(** [kf.correct(measurement)] *)
Definition correct (kf : KalmanFilter) (measurement : vec) : KalmanFilter * vec :=
  let H := measurementMatrix kf in
  let temp2 := mat_mul H (errorCovPre kf) in
  let temp3 := mat_zip Qplus (mat_mul temp2 (transpose H)) (measurementNoiseCov kf) in
  let temp4 := mat_mul (inv2 temp3) temp2 in
  let gain := transpose temp4 in
  let temp5 := vec_zip Qminus measurement (mat_vec H (statePre kf)) in
  let post := vec_zip Qplus (statePre kf) (mat_vec gain temp5) in
  let P := mat_zip Qminus (errorCovPre kf) (mat_mul gain temp2) in
  ({| transitionMatrix := transitionMatrix kf;
      measurementMatrix := H;
      processNoiseCov := processNoiseCov kf;
      measurementNoiseCov := measurementNoiseCov kf;
      statePre := statePre kf;
      statePost := post;
      errorCovPre := errorCovPre kf;
      errorCovPost := P |}, post).

(** [update_kalman(kf, measured_x, measured_y)]; an absent measurement is
    Python's [None]. *)
Definition update_kalman (kf : KalmanFilter) (measured_x measured_y : option Q)
  : KalmanFilter * (Q * Q) :=
  let '(kf, pred) := predict kf in
  let px := nth 0 pred 0%Q in
  let py := nth 1 pred 0%Q in
  match measured_x, measured_y with
  | Some mx, Some my =>
      let '(kf, corrected) := correct kf [mx; my] in
      (kf, (nth 0 corrected 0%Q, nth 1 corrected 0%Q))
  | _, _ => (kf, (px, py))
  end.

(** The globals [kalman] and [smoothed_center]. *)
Record SmootherState : Type := {
  kalman : KalmanFilter;
  smoothed_center : option (Q * Q) }.

End Smoother.

(** * HandMaskBuilder and FingertipExtractor: the flow of [detect_hand] *)

Module Detect.
Import Raster Fingers Calib Smoother.

Local Open Scope Z_scope.

(** One row [(s, e, f, d)] of [cv2.convexityDefects]: indices of the start,
    end and farthest contour points, and the fixed-point depth. *)
Record Defect : Type := {
  d_start : nat;
  d_end : nat;
  d_far : nat;
  d_depth : Z }.

(** The OpenCV routines [detect_hand] relies on, as the library decides
    them.  [edge_stage] stands for lines 462-496 (Canny, Sobel, closing,
    seed line, contour filling), [morph_open_close] for the opening and
    closing of lines 500-501, [face_stage] for the face mask of lines
    504-508, and [angle_lt_100 a b c] for the floating-point test
    [angle_between_points(a, b, c) < 100]. *)
Class Vision : Type := {
  cvt_HSV : Triple -> Triple;
  cvt_YCrCb : Triple -> Triple;
  edge_stage : raster Triple -> raster Z -> raster Z;
  morph_open_close : raster Z -> raster Z;
  face_stage : raster Triple -> raster Z;
  findContours : raster Z -> list Contour;
  drawContours_filled : raster Z -> Contour -> raster Z;
  convexHull : Contour -> list nat;
  convexityDefects : Contour -> list nat -> option (list Defect);
  moments : Contour -> Moments;
  angle_lt_100 : Point -> Point -> Point -> bool }.

(** [cv2.contourArea]: half the absolute value of the shoelace sum. *)
Fixpoint shoelace (c : Contour) (prev : Point) : Z :=
  match c with
  | [] => 0
  | p :: c' => (fst prev * snd p - snd prev * fst p) + shoelace c' p
  end.

Definition contourArea (c : Contour) : Q :=
  let a00 := shoelace c (last c (0, 0)) in
  (inject_Z (Z.abs a00) / 2)%Q.

Definition Qlt_bool (a b : Q) : bool := negb (Qle_bool b a).

(** [max(contours, key=cv2.contourArea)]: the first contour of greatest
    area; [None] for an empty list, which the code tests beforehand. *)
Definition max_by_area (cs : list Contour) : option Contour :=
  fold_left (fun best c =>
               match best with
               | None => Some c
               | Some b => if Qlt_bool (contourArea b) (contourArea c) then Some c else Some b
               end) cs None.

(** [cv2.bitwise_or], [cv2.bitwise_and] and [np.zeros_like] on masks of
    one shape. *)
Definition raster_zip (f : Z -> Z -> Z) (a b : raster Z) : raster Z :=
  map (fun rs => map (fun pq => f (fst pq) (snd pq)) (combine (fst rs) (snd rs)))
      (combine a b).

Definition bitwise_or : raster Z -> raster Z -> raster Z := raster_zip Z.lor.
Definition bitwise_and : raster Z -> raster Z -> raster Z := raster_zip Z.land.
Definition zeros_like (m : raster Z) : raster Z := pointwise (fun _ => 0) m.

(** [y < yF + 0.65 * hF], the wrist cutoff test. *)
Definition above_wrist (yF hF y : Z) : bool := 20 * y <? 20 * yF + 13 * hF.

(** The module-level flag, never reassigned. *)
Definition use_kalman : bool := true.

(** What [detect_hand] hands back, without the debug image. *)
Record DetectOut : Type := {
  out_color_mask : raster Z;
  out_edge_full_mask : raster Z;
  out_biggest_mask : raster Z;
  out_fingertips : list Point;
  out_max_contour : option Contour }.

Section DetectHand.

Context {cv : Vision}.

(** The start and end points a defect contributes to [candidate_points],
    each with its squared distance to the far point.  The three indices
    are the library's and lie inside the contour. *)
Definition defect_candidates (max_contour : Contour) (yF hF : Z) (dft : Defect)
  : list (Point * Z) :=
  let start := nth (d_start dft) max_contour (0, 0) in
  let end_ := nth (d_end dft) max_contour (0, 0) in
  let far := nth (d_far dft) max_contour (0, 0) in
  if d_depth dft >? 5000 then
    if angle_lt_100 start far end_ then
      if above_wrist yF hF (snd far) && above_wrist yF hF (snd start)
         && above_wrist yF hF (snd end_)
      then [(start, dist_sq start far); (end_, dist_sq end_ far)]
      else []
    else []
  else [].

(** [min(candidate_points, key=lambda x: x[0][1])] *)
Definition highest (cands : list (Point * Z)) : option (Point * Z) :=
  fold_left (fun best c =>
               match best with
               | None => Some c
               | Some b => if snd (fst c) <? snd (fst b) then Some c else Some b
               end) cands None.

(** The candidates no farther than 2.2 times the reference distance from
    the highest one, compared through squares. *)
Definition filter_candidates (cands : list (Point * Z)) : list Point :=
  match highest cands with
  | None => []
  | Some (highest_candidate, ref_distance) =>
      map fst (filter (fun c => 25 * dist_sq (fst c) highest_candidate <=? 121 * ref_distance)
                      cands)
  end.

(** Lines 573-626: the fingertips of the hand contour, in ROI
    coordinates. *)
Definition fingertips_of_contour (max_contour : Contour) (yF hF : Z) : list Point :=
  let center := get_palm_center (moments max_contour) max_contour in
  let hull := convexHull max_contour in
  if (3 <? length hull)%nat then
    match convexityDefects max_contour hull with
    | Some defects =>
        let candidate_points := flat_map (defect_candidates max_contour yF hF) defects in
        let fingertip_points :=
          match candidate_points with
          | [] => []
          | _ => merge_close_points (filter_candidates candidate_points) 20
          end in
        match fingertip_points with
        | [] =>
            match fallback_single_finger max_contour center 50 with
            | Some single_pt =>
                if above_wrist yF hF (snd single_pt) then [single_pt] else []
            | None => []
            end
        | _ => fingertip_points
        end
    | None => []
    end
  else [].

(** Lines 453-511: the final mask. *)
Definition final_mask_of (cur : SkinRanges) (frame_roi : raster Triple)
  : raster Z * raster Z * raster Z :=
  let color_mask := Segment.color_mask cvt_HSV cvt_YCrCb cur frame_roi in
  let edge_full_mask := edge_stage frame_roi color_mask in
  let temp_mask := bitwise_or color_mask edge_full_mask in
  let temp_mask := morph_open_close temp_mask in
  let face_mask := face_stage frame_roi in
  (color_mask, edge_full_mask, bitwise_and temp_mask face_mask).

(** The smoother update of lines 545-562 for a bounding box. *)
Definition smooth (sm : SmootherState) (xF yF wF hF offset_x offset_y : Z)
  : SmootherState :=
  let cxF := (inject_Z xF + inject_Z wF / 2)%Q in
  let cyF := (inject_Z yF + inject_Z hF / 2)%Q in
  let mx := (cxF + inject_Z offset_x)%Q in
  let my := (cyF + inject_Z offset_y)%Q in
  let sm :=
    match smoothed_center sm with
    | None =>
        if use_kalman
        then {| kalman := set_kalman_position (kalman sm) mx my;
                smoothed_center := Some (mx, my) |}
        else sm
    | Some _ => sm
    end in
  if use_kalman
  then let '(kf, new) := update_kalman (kalman sm) (Some mx) (Some my) in
       {| kalman := kf; smoothed_center := Some new |}
  else {| kalman := kalman sm; smoothed_center := Some (mx, my) |}.

Definition to_global (offset_x offset_y : Z) (pts : list Point) : list Point :=
  map (fun pt => (fst pt + offset_x, snd pt + offset_y)) pts.

(** The body of [if max_contour is not None and area_m > 1000:]
    (lines 529-639). *)
Definition hand_stage (sm : SmootherState) (biggest_mask : raster Z)
    (max_contour : Contour) (offset_x offset_y : Z)
  : option (raster Z * list Point * Contour * SmootherState) :=
  let '(xF, yF, wF, hF) := boundingRect max_contour in
  match Forearm.cut_forearm_automatically biggest_mask xF yF wF hF (1 # 2) 2 with
  | None => None
  | Some (biggest_mask, _) =>
      let cont_after := findContours biggest_mask in
      match max_by_area cont_after with
      | None => Some (biggest_mask, [], max_contour, sm)
      | Some max_contour =>
          let area2 := contourArea max_contour in
          if Qlt_bool 500 area2 then
            let '(xF, yF, wF, hF) := boundingRect max_contour in
            let sm := smooth sm xF yF wF hF offset_x offset_y in
            let final_fingertips := fingertips_of_contour max_contour yF hF in
            Some (biggest_mask, final_fingertips, max_contour, sm)
          else Some (biggest_mask, [], max_contour, sm)
      end
  end.

(** Lines 514-643, from the final mask on, with the size gate as a
    parameter. *)
Definition track_with_gate (gate : Q) (sm : SmootherState) (final_mask : raster Z)
    (offset_x offset_y : Z)
  : option (raster Z * list Point * option Contour * SmootherState) :=
  let cont_final := findContours final_mask in
  let biggest_mask := zeros_like final_mask in
  match max_by_area cont_final with
  | None => Some (biggest_mask, to_global offset_x offset_y [], None, sm)
  | Some max_contour =>
      let area_m := contourArea max_contour in
      let biggest_mask :=
        if Qlt_bool 500 area_m
        then drawContours_filled biggest_mask max_contour
        else biggest_mask in
      if Qlt_bool gate area_m then
        match hand_stage sm biggest_mask max_contour offset_x offset_y with
        | None => None
        | Some (biggest_mask, final_fingertips, max_contour, sm) =>
            Some (biggest_mask, to_global offset_x offset_y final_fingertips,
                  Some max_contour, sm)
        end
      else Some (biggest_mask, to_global offset_x offset_y [], Some max_contour, sm)
  end.

(** The code: fingertip detection proceeds when [area_m > 1000]. *)
Definition track_and_extract := track_with_gate 1000.


(** [detect_hand(frame_roi, offset_x, offset_y)] on the committed ranges
    and the smoother state; [None] stands for an exception. *)
Definition detect_hand (cur : SkinRanges) (sm : SmootherState)
    (frame_roi : raster Triple) (offset_x offset_y : Z)
  : option (DetectOut * SmootherState) :=
  let '(color_mask, edge_full_mask, final_mask) := final_mask_of cur frame_roi in
  match track_and_extract sm final_mask offset_x offset_y with
  | None => None
  | Some (biggest_mask, final_fingertips_global, max_contour, sm) =>
      Some ({| out_color_mask := color_mask;
               out_edge_full_mask := edge_full_mask;
               out_biggest_mask := biggest_mask;
               out_fingertips := final_fingertips_global;
               out_max_contour := max_contour |}, sm)
  end.

(** The contour a frame yields as its hand: the one on which the smoother
    is corrected and the fingertips are extracted. *)
Definition hand_of (final_mask : raster Z) : option Contour :=
  match max_by_area (findContours final_mask) with
  | None => None
  | Some c =>
      if Qlt_bool 1000 (contourArea c) then
        let biggest_mask :=
          if Qlt_bool 500 (contourArea c)
          then drawContours_filled (zeros_like final_mask) c
          else zeros_like final_mask in
        let '(xF, yF, wF, hF) := boundingRect c in
        match Forearm.cut_forearm_automatically biggest_mask xF yF wF hF (1 # 2) 2 with
        | None => None
        | Some (biggest_mask, _) =>
            match max_by_area (findContours biggest_mask) with
            | None => None
            | Some c2 => if Qlt_bool 500 (contourArea c2) then Some c2 else None
            end
        end
      else None
  end.

End DetectHand.

End Detect.

Module DetectFacts.
Import Raster Fingers Calib Smoother Detect.

Local Open Scope Z_scope.

(** ** The fallback scan *)

Lemma farthest_scan_spec center contour : forall md best md' best',
  0 <= md ->
  match best with Some b => md = dist_sq b center | None => md = 0 end ->
  fold_left (farthest_step center) contour (md, best) = (md', best') ->
  md <= md' /\
  (forall q, In q contour -> dist_sq q center <= md') /\
  match best' with
  | Some p => md' = dist_sq p center /\ (best = Some p \/ In p contour)
  | None => md' = 0 /\ best = None
  end.
Proof.
  induction contour as [|pt contour IH]; intros md best md' best' Hmd Hbest Hfold;
    cbn [fold_left] in Hfold.
  - injection Hfold as <- <-. split; [lia|]. split; [intros q []|].
    destruct best; auto.
  - assert (Hstep : farthest_step center (md, best) pt =
                    if dist_sq pt center >? md then (dist_sq pt center, Some pt) else (md, best))
      by reflexivity.
    rewrite Hstep in Hfold. clear Hstep.
    destruct (Z.gtb_spec (dist_sq pt center) md) as [Hgt|Hle].
    + apply IH in Hfold; [|lia|reflexivity].
      destruct Hfold as (H1 & H2 & H3). split; [lia|]. split.
      * intros q [<-|Hq]; [exact H1|now apply H2].
      * destruct best' as [p|].
        -- destruct H3 as [H3 [H4|H4]]; (split; [exact H3|]); right.
           ++ injection H4 as <-. now left.
           ++ now right.
        -- destruct H3 as [_ H3]. discriminate.
    + apply IH in Hfold; [|lia|exact Hbest].
      destruct Hfold as (H1 & H2 & H3). split; [exact H1|]. split.
      * intros q [<-|Hq]; [lia|now apply H2].
      * destruct best' as [p|].
        -- destruct H3 as [H3 [H4|H4]]; (split; [exact H3|]); [now left|right; now right].
        -- exact H3.
Qed.

(** [fallback_single_finger] returns a contour point at the greatest
    distance from the centre, and only when that distance exceeds the
    radius. *)
Lemma fallback_single_finger_spec contour center :
  match fallback_single_finger contour center 50 with
  | Some p =>
      In p contour /\ 2500 < dist_sq p center /\
      forall q, In q contour -> dist_sq q center <= dist_sq p center
  | None => forall q, In q contour -> dist_sq q center <= 2500
  end.
Proof.
  unfold fallback_single_finger, farthest_scan.
  destruct (fold_left (farthest_step center) contour (0, None)) as [md best] eqn:E.
  apply farthest_scan_spec in E; [|lia|reflexivity].
  destruct E as (_ & Hall & Hbest).
  destruct best as [p|].
  - destruct Hbest as [-> [Hp|Hp]]; [discriminate|].
    unfold hypot_gt. cbn [Z.ltb Z.compare orb].
    destruct (50 * 50 <? dist_sq p center) eqn:E.
    + apply Z.ltb_lt in E. repeat split; try assumption; lia.
    + apply Z.ltb_ge in E. intros q Hq. specialize (Hall q Hq). lia.
  - destruct Hbest as [-> _]. intros q Hq. specialize (Hall q Hq). lia.
Qed.

(** ** Candidates from defects always yield a fingertip *)

Lemma dist_sq_nonneg p q : 0 <= dist_sq p q.
Proof.
  unfold dist_sq.
  pose proof (Z.square_nonneg (fst p - fst q)). pose proof (Z.square_nonneg (snd p - snd q)).
  lia.
Qed.

Lemma dist_sq_self p : dist_sq p p = 0.
Proof. unfold dist_sq. lia. Qed.

Definition pick_higher (best : option (Point * Z)) (c : Point * Z) : option (Point * Z) :=
  match best with
  | None => Some c
  | Some b => if snd (fst c) <? snd (fst b) then Some c else Some b
  end.

Lemma fold_pick_higher cands : forall b,
  exists c, fold_left pick_higher cands (Some b) = Some c /\ (c = b \/ In c cands).
Proof.
  induction cands as [|a cands IH]; intros b; cbn [fold_left].
  - exists b. auto.
  - unfold pick_higher at 2.
    destruct (snd (fst a) <? snd (fst b)).
    + destruct (IH a) as (c & Hc & Hin). exists c. split; [exact Hc|].
      right. destruct Hin as [Heq|Hin]; [left; now symmetry|now right].
    + destruct (IH b) as (c & Hc & Hin). exists c. split; [exact Hc|].
      destruct Hin as [Heq|Hin]; [now left|right; now right].
Qed.

Lemma highest_in cands :
  cands <> [] -> exists c, highest cands = Some c /\ In c cands.
Proof.
  destruct cands as [|a cands]; [contradiction|]. intros _.
  unfold highest. cbn [fold_left]. fold pick_higher.
  destruct (fold_pick_higher cands a) as (c & Hc & Hin). exists c.
  split; [exact Hc|]. destruct Hin as [Heq|Hin]; [left; now symmetry|now right].
Qed.

Lemma filter_candidates_nonempty cands :
  cands <> [] -> Forall (fun c => 0 <= snd c) cands -> filter_candidates cands <> [].
Proof.
  intros Hne Hall. destruct (highest_in cands Hne) as ([hc rd] & Hh & Hin).
  unfold filter_candidates. rewrite Hh.
  assert (Hkeep : In (hc, rd) (filter (fun c => 25 * dist_sq (fst c) hc <=? 121 * rd) cands)).
  { apply filter_In. split; [exact Hin|]. cbn [fst].
    rewrite dist_sq_self. apply Z.leb_le.
    rewrite Forall_forall in Hall. specialize (Hall _ Hin). cbn [snd] in Hall. lia. }
  intros E. apply (in_map fst) in Hkeep. rewrite E in Hkeep. exact Hkeep.
Qed.



Section Claims.

Context {cv : Vision}.

Lemma defect_candidates_nonneg c yF hF dft :
  Forall (fun k => 0 <= snd k) (defect_candidates c yF hF dft).
Proof.
  unfold defect_candidates.
  destruct (d_depth dft >? 5000); [|constructor].
  destruct (angle_lt_100 _ _ _); [|constructor].
  destruct (_ && _); [|constructor].
  repeat constructor; apply dist_sq_nonneg.
Qed.

(** With a hull of more than three points and a defect list, the fallback
    is taken exactly when no defect contributes a candidate. *)
Lemma fingertips_with_defects c yF hF ds :
  (3 < length (convexHull c))%nat ->
  convexityDefects c (convexHull c) = Some ds ->
  let cands := flat_map (defect_candidates c yF hF) ds in
  (cands = [] ->
     fingertips_of_contour c yF hF =
     match fallback_single_finger c (get_palm_center (moments c) c) 50 with
     | Some p => if above_wrist yF hF (snd p) then [p] else []
     | None => []
     end) /\
  (cands <> [] ->
     fingertips_of_contour c yF hF = merge_close_points (filter_candidates cands) 20 /\
     fingertips_of_contour c yF hF <> []).
Proof.
  intros Hhull Hd cands. unfold fingertips_of_contour.
  apply Nat.ltb_lt in Hhull. rewrite Hhull, Hd. fold cands. split.
  - intros ->. reflexivity.
  - intros Hne.
    assert (Hm : merge_close_points (filter_candidates cands) 20 <> []).
    { intros E. apply FingersFacts.merge_close_points_nil in E.
      revert E. apply filter_candidates_nonempty; [exact Hne|].
      unfold cands. apply Forall_flat_map. apply Forall_forall.
      intros dft _. apply defect_candidates_nonneg. }
    destruct cands as [|k cands']; [contradiction|].
    destruct (merge_close_points (filter_candidates (k :: cands')) 20) eqn:E;
      [contradiction|]. split; [reflexivity|discriminate].
Qed.

Definition final_mask (cur : SkinRanges) (frame_roi : raster Triple) : raster Z :=
  snd (final_mask_of cur frame_roi).

Lemma detect_hand_unfold cur sm frame_roi ox oy :
  detect_hand cur sm frame_roi ox oy =
  match track_and_extract sm (final_mask cur frame_roi) ox oy with
  | None => None
  | Some (biggest_mask, tips, mc, sm') =>
      Some ({| out_color_mask := fst (fst (final_mask_of cur frame_roi));
               out_edge_full_mask := snd (fst (final_mask_of cur frame_roi));
               out_biggest_mask := biggest_mask;
               out_fingertips := tips;
               out_max_contour := mc |}, sm')
  end.
Proof.
  unfold detect_hand, final_mask.
  destruct (final_mask_of cur frame_roi) as [[cm em] fm]. reflexivity.
Qed.


(** On a frame without a hand, [track_and_extract] returns no fingertip
    and the smoother state it was given. *)
Lemma no_hand_untouched sm fm ox oy r :
  hand_of fm = None ->
  track_and_extract sm fm ox oy = Some r ->
  snd r = sm /\ snd (fst (fst r)) = [].
Proof.
  unfold hand_of, track_and_extract, track_with_gate.
  destruct (max_by_area (findContours fm)) as [c|]; [|intros _ [= <-]; split; reflexivity].
  destruct (Qlt_bool 1000 (contourArea c)); [|intros _ [= <-]; split; reflexivity].
  unfold hand_stage.
  destruct (boundingRect c) as [[[x y] w] h].
  destruct (Forearm.cut_forearm_automatically _ x y w h (1 # 2) 2) as [[mask' b]|];
    [|discriminate].
  destruct (max_by_area (findContours mask')) as [c2|]; [|intros _ [= <-]; split; reflexivity].
  destruct (Qlt_bool 500 (contourArea c2)); [discriminate|].
  intros _ [= <-]; split; reflexivity.
Qed.

(** C4, as amended.  A frame in which no hand is found leaves the filter
    and the exposed smoothed centre exactly as they were: the previous
    value is retained, the filter is not advanced.  Coasting exists only
    inside [update_kalman]: called without a measurement it advances the
    filter by its constant-velocity model and returns the predicted,
    uncorrected position (x + vx, y + vy); [detect_hand] never calls it
    that way. *)
Theorem no_hand_retains_center :
  (forall cur sm frame_roi ox oy out sm',
     hand_of (final_mask cur frame_roi) = None ->
     detect_hand cur sm frame_roi ox oy = Some (out, sm') ->
     sm' = sm /\ out_fingertips out = []) /\
  (forall kf,
     update_kalman kf None None =
     (fst (predict kf), (nth 0 (snd (predict kf)) 0%Q, nth 1 (snd (predict kf)) 0%Q)) /\
     statePost (fst (predict kf)) = snd (predict kf)) /\
  (forall kf x y vx vy,
     transitionMatrix kf = transitionMatrix init_kalman_filter ->
     statePost kf = [x; y; vx; vy] ->
     (fst (snd (update_kalman kf None None)) == x + vx)%Q /\
     (snd (snd (update_kalman kf None None)) == y + vy)%Q).
Proof.
  split; [|split].
  - intros cur sm frame_roi ox oy out sm' Hno. rewrite detect_hand_unfold.
    destruct (track_and_extract sm (final_mask cur frame_roi) ox oy)
      as [[[[mask tips] mc] sm'']|] eqn:E; [|discriminate].
    intros [= <- <-]. apply (no_hand_untouched _ _ _ _ _ Hno) in E. exact E.
  - intros kf. split; reflexivity.
  - intros kf x y vx vy HF Hpost.
    unfold update_kalman, predict. rewrite HF, Hpost.
    cbn [fst snd nth init_kalman_filter transitionMatrix mat_vec map dot combine fold_right].
    unfold dot. cbn [map combine fold_right fst snd].
    rewrite !Qred_correct. split; ring.
Qed.

End Claims.

(** ** A scene of upright rectangular and diagonal-sided convex blobs *)

Definition nonzero_points (m : raster Z) : list Point :=
  concat (imap (fun y row =>
            concat (imap (fun x v => if v =? 0 then [] else [(x, y)]) 0 row)) 0 m).

(** The external contour of a mask whose foreground is one filled upright
    rectangle: its four corners. *)
Definition box_findContours (m : raster Z) : list Contour :=
  match nonzero_points m with
  | [] => []
  | pts =>
      let '(x, y, w, h) := boundingRect pts in
      [[(x, y); (x, y + h - 1); (x + w - 1, y + h - 1); (x + w - 1, y)]]
  end.

(** Filling the contour of an upright rectangle. *)
Definition box_fill (m : raster Z) (c : Contour) : raster Z :=
  let '(x, y, w, h) := boundingRect c in
  imap (fun r row =>
          imap (fun k v =>
                  if (y <=? r) && (r <? y + h) && (x <=? k) && (k <? x + w)
                  then 255 else v) 0 row) 0 m.

(** The moments of a polygon by Green's formula. *)
Fixpoint green_sums (c : Contour) (prev : Point) : Z * Z * Z :=
  match c with
  | [] => (0, 0, 0)
  | p :: c' =>
      let dxy := fst prev * snd p - fst p * snd prev in
      let '(a00, a10, a01) := green_sums c' p in
      (a00 + dxy, a10 + dxy * (fst prev + fst p), a01 + dxy * (snd prev + snd p))
  end.

Definition polygon_moments (c : Contour) : Moments :=
  let '(a00, a10, a01) := green_sums c (last c (0, 0)) in
  let sgn := if a00 <? 0 then -1 else 1 in
  {| m00 := sgn * a00 # 2; m10 := sgn * a10 # 6; m01 := sgn * a01 # 6 |}.

(** The library's answers on the scenes used below: no edge response and
    no face, a foreground made of one upright rectangle, and contours
    that are convex with sides along the axes or the diagonals, on which
    [cv2.convexityDefects] reports nothing (Python [None]). *)
#[local] Instance convex_scene : Vision := {|
  cvt_HSV := sample_BGR2HSV;
  cvt_YCrCb := sample_BGR2YCrCb;
  edge_stage := fun _ color_mask => zeros_like color_mask;
  morph_open_close := fun m => m;
  face_stage := fun frame => pointwise (fun _ => 255) frame;
  findContours := box_findContours;
  drawContours_filled := box_fill;
  convexHull := fun c => seq 0 (length c);
  convexityDefects := fun _ _ => None;
  moments := polygon_moments;
  angle_lt_100 := fun _ _ _ => false |}.

(** A raster of [n] rows and columns holding [inside] on the square of
    side [k] whose top-left corner is (x0, y0), and [outside] elsewhere. *)
Definition square_on {A} (n k x0 y0 : Z) (inside outside : A) : raster A :=
  map (fun y => map (fun x =>
         if (y0 <=? y) && (y <? y0 + k) && (x0 <=? x) && (x <? x0 + k)
         then inside else outside) (range 0 n)) (range 0 n).

Definition fresh_smoother : SmootherState :=
  {| kalman := init_kalman_filter; smoothed_center := None |}.


(** C4, as stated, fails.  Two frames with a 40 x 40 hand blob, the second
    10 px to the right of the first, leave the filter with a non-zero
    velocity.  On a third frame without any blob the exposed centre is the
    one of the second frame, not the position the filter predicts. *)
Lemma coasting_counterexample :
  let frame1 := square_on 60 40 5 5 255 0 in
  let frame2 := square_on 60 40 15 5 255 0 in
  let frame3 := square_on 60 40 0 0 0 0 in
  exists m1 t1 c1 sm1 m2 t2 c2 sm2 m3 center,
    track_and_extract fresh_smoother frame1 0 0 = Some (m1, t1, c1, sm1) /\
    track_and_extract sm1 frame2 0 0 = Some (m2, t2, c2, sm2) /\
    hand_of frame3 = None /\
    track_and_extract sm2 frame3 0 0 = Some (m3, [], None, sm2) /\
    smoothed_center sm2 = Some center /\
    ~ (fst center == nth 0 (snd (predict (kalman sm2))) 0)%Q.
Proof.
  cbv zeta. do 10 eexists.
  split; [vm_compute; reflexivity|].
  split; [vm_compute; reflexivity|].
  split; [vm_compute; reflexivity|].
  split; [vm_compute; reflexivity|].
  split; [vm_compute; reflexivity|].
  vm_compute. discriminate.
Qed.

(** A hand-shaped convex contour: a 101 x 150 block topped by a 45 degree
    roof whose apex (50, 0) is the point farthest from the palm centre. *)
Definition pointing_contour : Contour :=
  [(50, 0); (0, 50); (0, 199); (100, 199); (100, 50)].

(** C9 at a failing input.  The contour has no convexity defect, so no
    defect-based candidate survives; its farthest point from the palm
    centre (50, 111) is the apex (50, 0), 111 px away and above the wrist
    cutoff y = 130; yet the extractor returns no fingertip, because the
    fallback sits inside the branch taken only when the library returns a
    defect list. *)
Theorem convex_contour_gets_no_fallback :
  boundingRect pointing_contour = (0, 0, 101, 200) /\
  (3 < length (convexHull pointing_contour))%nat /\
  convexityDefects pointing_contour (convexHull pointing_contour) = None /\
  get_palm_center (moments pointing_contour) pointing_contour = (50, 111) /\
  fallback_single_finger pointing_contour (50, 111) 50 = Some (50, 0) /\
  dist_sq (50, 0) (50, 111) = 111 * 111 /\
  above_wrist 0 200 (snd (50, 0)) = true /\
  fingertips_of_contour pointing_contour 0 200 = [].
Proof.
  repeat split; vm_compute; try reflexivity. lia.
Qed.

(** The ranges a manual calibration on the first skin tone commits. *)
Definition skin_ranges : SkinRanges :=
  {| lower_skin_hsv := (11, 30, 60);
     upper_skin_hsv := (11, 255, 255);
     lower_skin_ycrcb := (0, 133, 79);
     upper_skin_ycrcb := (255, 173, 127) |}.


Definition empty_frame : raster Triple :=
  square_on 20 0 0 0 (128, 128, 128) (128, 128, 128).


Lemma no_hand_retains_center_witness :
  (exists out sm',
     detect_hand skin_ranges fresh_smoother empty_frame 0 0 = Some (out, sm') /\
     sm' = fresh_smoother /\ out_fingertips out = []) /\
  (fst (snd (update_kalman (set_kalman_position init_kalman_filter 100 100) None None))
     == 100 + 0)%Q.
Proof.
  destruct (@no_hand_retains_center convex_scene) as (H1 & _ & H3).
  split.
  - do 2 eexists. split; [vm_compute; reflexivity|].
    eapply (H1 skin_ranges fresh_smoother empty_frame 0 0).
    + vm_compute. reflexivity.
    + vm_compute. reflexivity.
  - apply (H3 (set_kalman_position init_kalman_filter 100 100) 100%Q 100%Q 0%Q 0%Q);
      reflexivity.
Defined.

End DetectFacts.

(** * Image utilities: [get_bounding_box_of_mask], [crop_to_bounding_box],
      [create_user_drawing], [overlay_canvas_on_image] *)

Module ImageUtil.
Import Raster Calib.

Local Open Scope Z_scope.

(** [np.argwhere(mask != 0)]: the (row, column) pairs of the non-zero
    pixels, in row-major order. *)
Definition argwhere_nonzero (mask : raster Z) : list (Z * Z) :=
  concat (imap (fun y row =>
            concat (imap (fun x v => if v =? 0 then [] else [(y, x)]) 0 row)) 0 mask).

(** [.min()] and [.max()] of a non-empty column of integers. *)
Definition list_min (v : Z) (l : list Z) : Z := fold_left Z.min l v.
Definition list_max (v : Z) (l : list Z) : Z := fold_left Z.max l v.

(** [get_bounding_box_of_mask(mask)]: [(xmin, ymin, xmax, ymax)], or
    [None]. *)
Definition get_bounding_box_of_mask (mask : raster Z) : option (Z * Z * Z * Z) :=
  match argwhere_nonzero mask with
  | [] => None
  | c :: coords =>
      let y_vals := map fst coords in
      let x_vals := map snd coords in
      let ymin := list_min (fst c) y_vals in
      let ymax := list_max (fst c) y_vals in
      let xmin := list_min (snd c) x_vals in
      let xmax := list_max (snd c) x_vals in
      Some (xmin, ymin, xmax, ymax)
  end.

(** [crop_to_bounding_box(img, bbox)] *)
Definition crop_to_bounding_box {A} (img : raster A) (bbox : Z * Z * Z * Z) : raster A :=
  let '(xmin, ymin, xmax, ymax) := bbox in
  crop img ymin (ymax + 1) xmin (xmax + 1).

Definition white : Triple := (255, 255, 255).

(** One entry of [(canvas != [255, 255, 255]).any(axis=2)]. *)
Definition non_white (p : Triple) : bool :=
  negb (ch0 p =? 255) || negb (ch1 p =? 255) || negb (ch2 p =? 255).

(** [dst[mask] = src[mask]] for a boolean mask computed from [src], on
    arrays of one shape. *)
Definition assign_where (dst src : raster Triple) : raster Triple :=
  map (fun rs => map (fun pq => if non_white (snd pq) then snd pq else fst pq)
                     (combine (fst rs) (snd rs)))
      (combine dst src).

(** [create_user_drawing(canvas)] *)
Definition create_user_drawing (canvas : raster Triple) : raster Triple :=
  let h := Z.to_nat (height canvas) in
  let w := Z.to_nat (width canvas) in
  let user_drawing := repeat (repeat white w) h in
  assign_where user_drawing canvas.

(** numpy's check of a boolean index of shape [(hm, wm)] on an array whose
    first two axes are [(h, w)]: an axis of the index is compared with the
    axis of the array only when its length is not 0. *)
Definition bool_index_fits (hm wm h w : Z) : bool :=
  ((hm =? 0) || (hm =? h)) && ((wm =? 0) || (wm =? w)).

(** [overlay_canvas_on_image(canvas, background)]; [None] where the boolean
    index raises [IndexError].  A mask with an axis of length 0 selects
    nothing and the copy of the background is returned.  (An array
    without rows is the raster [[]], which carries no width: it stands for
    the shape (0, 0).) *)
Definition overlay_canvas_on_image (canvas background : raster Triple)
  : option (raster Triple) :=
  if bool_index_fits (height canvas) (width canvas) (height background) (width background)
  then if (height canvas =? 0) || (width canvas =? 0)
       then Some background
       else Some (assign_where background canvas)
  else None.

(** A raster of [h] rows of [w] pixels each. *)
Definition rect {A} (h w : Z) (m : raster A) : Prop :=
  height m = h /\ Forall (fun row => Z.of_nat (length row) = w) m.

End ImageUtil.

Module ImageUtilFacts.
Import Raster Calib ImageUtil.

Local Open Scope Z_scope.

Lemma in_concat_imap {A B} (f : Z -> A -> list B) (l : list A) e : forall i,
  In e (concat (imap f i l)) <->
  exists n a, nth_error l n = Some a /\ In e (f (i + Z.of_nat n) a).
Proof.
  induction l as [|a l IH]; intros i; cbn [imap concat].
  - split; [intros []|intros (n & a & H & _); destruct n; discriminate].
  - rewrite in_app_iff, IH. split.
    + intros [H|(n & b & Hn & Hin)].
      * exists 0%nat, a. rewrite Z.add_0_r. now split.
      * exists (S n), b. split; [exact Hn|].
        replace (i + Z.of_nat (S n)) with (i + 1 + Z.of_nat n) by lia. exact Hin.
    + intros ([|n] & b & Hn & Hin).
      * left. injection Hn as <-. now rewrite Z.add_0_r in Hin.
      * right. exists n, b. split; [exact Hn|].
        replace (i + 1 + Z.of_nat n) with (i + Z.of_nat (S n)) by lia. exact Hin.
Qed.

Lemma get_some_iff {A} (m : raster A) y x v :
  get m y x = Some v <->
  0 <= y /\ 0 <= x /\
  exists row, nth_error m (Z.to_nat y) = Some row /\ nth_error row (Z.to_nat x) = Some v.
Proof.
  unfold get. split.
  - destruct (0 <=? y) eqn:Hy; [|discriminate].
    destruct (0 <=? x) eqn:Hx; [|discriminate]. cbn [andb].
    apply Z.leb_le in Hy, Hx.
    destruct (nth_error m (Z.to_nat y)) as [row|]; [|discriminate].
    intros H. repeat split; try assumption. now exists row.
  - intros (Hy & Hx & row & Hr & Hv).
    apply Z.leb_le in Hy, Hx. now rewrite Hy, Hx, Hr.
Qed.

(** The listed coordinates are exactly those of the non-zero pixels. *)
Lemma in_argwhere mask y x :
  In (y, x) (argwhere_nonzero mask) <-> exists v, get mask y x = Some v /\ v <> 0.
Proof.
  unfold argwhere_nonzero. rewrite in_concat_imap. split.
  - intros (n & row & Hn & Hin). apply in_concat_imap in Hin as (k & v & Hk & Hin).
    destruct (v =? 0) eqn:E; [contradiction|]. apply Z.eqb_neq in E.
    destruct Hin as [[= <- <-]|[]]. exists v. split; [|exact E].
    apply get_some_iff. rewrite ?Z.add_0_l, ?Nat2Z.id.
    repeat split; try lia. now exists row.
  - intros (v & Hget & Hv). apply get_some_iff in Hget as (Hy & Hx & row & Hr & Hc).
    exists (Z.to_nat y), row. split; [exact Hr|].
    apply in_concat_imap. exists (Z.to_nat x), v. split; [exact Hc|].
    apply Z.eqb_neq in Hv. rewrite Hv, !Z.add_0_l, !Z2Nat.id by assumption. now left.
Qed.

Lemma list_min_spec l : forall v,
  (list_min v l = v \/ In (list_min v l) l) /\
  list_min v l <= v /\ forall e, In e l -> list_min v l <= e.
Proof.
  unfold list_min. induction l as [|a l IH]; intros v; cbn [fold_left].
  - split; [now left|]. split; [lia|intros e []].
  - destruct (IH (Z.min v a)) as (Hin & Hle & Hall). split; [|split].
    + destruct Hin as [Heq|Hin]; [|right; now right].
      rewrite Heq. destruct (Z.min_spec v a) as [[_ ->]|[_ ->]]; [now left|right; now left].
    + lia.
    + intros e [<-|He]; [lia|now apply Hall].
Qed.

Lemma list_max_spec l : forall v,
  (list_max v l = v \/ In (list_max v l) l) /\
  v <= list_max v l /\ forall e, In e l -> e <= list_max v l.
Proof.
  unfold list_max. induction l as [|a l IH]; intros v; cbn [fold_left].
  - split; [now left|]. split; [lia|intros e []].
  - destruct (IH (Z.max v a)) as (Hin & Hle & Hall). split; [|split].
    + destruct Hin as [Heq|Hin]; [|right; now right].
      rewrite Heq. destruct (Z.max_spec v a) as [[_ ->]|[_ ->]]; [right; now left|now left].
    + lia.
    + intros e [<-|He]; [lia|now apply Hall].
Qed.

(** A box that holds every non-zero pixel and touches one on each of its
    four sides. *)
Definition tight_box (mask : raster Z) (bbox : Z * Z * Z * Z) : Prop :=
  let '(xmin, ymin, xmax, ymax) := bbox in
  (forall y x v, get mask y x = Some v -> v <> 0 ->
     ymin <= y <= ymax /\ xmin <= x <= xmax) /\
  (exists x v, get mask ymin x = Some v /\ v <> 0) /\
  (exists x v, get mask ymax x = Some v /\ v <> 0) /\
  (exists y v, get mask y xmin = Some v /\ v <> 0) /\
  (exists y v, get mask y xmax = Some v /\ v <> 0).

Lemma bounding_box_is_tight mask bbox :
  get_bounding_box_of_mask mask = Some bbox -> tight_box mask bbox.
Proof.
  unfold get_bounding_box_of_mask.
  destruct (argwhere_nonzero mask) as [|[y0 x0] coords] eqn:E; [discriminate|].
  intros [= <-]. cbn [fst snd tight_box].
  assert (Hmem : forall y x, In (y, x) ((y0, x0) :: coords) <->
                             exists v, get mask y x = Some v /\ v <> 0)
    by (intros y x; rewrite <- E; apply in_argwhere).
  destruct (list_min_spec (map fst coords) y0) as (Hyi & Hy0 & Hya).
  destruct (list_max_spec (map fst coords) y0) as (HYi & HY0 & HYa).
  destruct (list_min_spec (map snd coords) x0) as (Hxi & Hx0 & Hxa).
  destruct (list_max_spec (map snd coords) x0) as (HXi & HX0 & HXa).
  split; [|repeat split].
  - intros y x v Hget Hv.
    destruct (proj2 (Hmem y x) (ex_intro _ v (conj Hget Hv))) as [[= <- <-]|Hin]; [lia|].
    pose proof (in_map fst _ _ Hin) as H1. pose proof (in_map snd _ _ Hin) as H2.
    cbn [fst snd] in H1, H2.
    specialize (Hya _ H1). specialize (HYa _ H1).
    specialize (Hxa _ H2). specialize (HXa _ H2). lia.
  - destruct Hyi as [->|Hin].
    + destruct (proj1 (Hmem y0 x0) (or_introl eq_refl)) as (v & H). now exists x0, v.
    + apply in_map_iff in Hin as ([y x] & Hy & Hin). cbn [fst] in Hy. rewrite <- Hy.
      destruct (proj1 (Hmem y x) (or_intror Hin)) as (v & H). now exists x, v.
  - destruct HYi as [->|Hin].
    + destruct (proj1 (Hmem y0 x0) (or_introl eq_refl)) as (v & H). now exists x0, v.
    + apply in_map_iff in Hin as ([y x] & Hy & Hin). cbn [fst] in Hy. rewrite <- Hy.
      destruct (proj1 (Hmem y x) (or_intror Hin)) as (v & H). now exists x, v.
  - destruct Hxi as [->|Hin].
    + destruct (proj1 (Hmem y0 x0) (or_introl eq_refl)) as (v & H). now exists y0, v.
    + apply in_map_iff in Hin as ([y x] & Hx & Hin). cbn [snd] in Hx. rewrite <- Hx.
      destruct (proj1 (Hmem y x) (or_intror Hin)) as (v & H). now exists y, v.
  - destruct HXi as [->|Hin].
    + destruct (proj1 (Hmem y0 x0) (or_introl eq_refl)) as (v & H). now exists y0, v.
    + apply in_map_iff in Hin as ([y x] & Hx & Hin). cbn [snd] in Hx. rewrite <- Hx.
      destruct (proj1 (Hmem y x) (or_intror Hin)) as (v & H). now exists y, v.
Qed.

Lemma bounding_box_none_zero mask :
  get_bounding_box_of_mask mask = None ->
  forall y x v, get mask y x = Some v -> v = 0.
Proof.
  unfold get_bounding_box_of_mask.
  destruct (argwhere_nonzero mask) as [|c coords] eqn:E; [|discriminate].
  intros _ y x v Hget. destruct (Z.eq_dec v 0) as [Hz|Hnz]; [exact Hz|].
  exfalso. assert (Hin : In (y, x) (argwhere_nonzero mask))
    by (apply in_argwhere; now exists v).
  rewrite E in Hin. exact Hin.
Qed.

(** X1.  [get_bounding_box_of_mask] returns [None] exactly on a mask without
    any non-zero pixel. *)
Theorem bounding_box_none_iff (mask : raster Z) :
  get_bounding_box_of_mask mask = None <->
  forall y x v, get mask y x = Some v -> v = 0.
Proof.
  split; [apply bounding_box_none_zero|].
  unfold get_bounding_box_of_mask.
  intros Hall. destruct (argwhere_nonzero mask) as [|[y x] coords] eqn:E; [reflexivity|].
  exfalso. assert (Hin : In (y, x) (argwhere_nonzero mask)) by (rewrite E; now left).
  apply in_argwhere in Hin as (v & Hget & Hv). exact (Hv (Hall _ _ _ Hget)).
Qed.

Lemma tight_is_bounding_box mask bbox :
  tight_box mask bbox -> get_bounding_box_of_mask mask = Some bbox.
Proof.
  intros Ht.
  destruct (get_bounding_box_of_mask mask) as [bbox'|] eqn:E.
  - apply bounding_box_is_tight in E.
    destruct bbox as [[[xmin ymin] xmax] ymax], bbox' as [[[xmin' ymin'] xmax'] ymax'].
    cbn [tight_box] in Ht, E.
    destruct Ht as (Hin & (x1 & v1 & H1 & N1) & (x2 & v2 & H2 & N2)
                    & (y3 & v3 & H3 & N3) & (y4 & v4 & H4 & N4)).
    destruct E as (Hin' & (x1' & v1' & H1' & N1') & (x2' & v2' & H2' & N2')
                   & (y3' & v3' & H3' & N3') & (y4' & v4' & H4' & N4')).
    pose proof (Hin _ _ _ H1' N1'). pose proof (Hin _ _ _ H2' N2').
    pose proof (Hin _ _ _ H3' N3'). pose proof (Hin _ _ _ H4' N4').
    pose proof (Hin' _ _ _ H1 N1). pose proof (Hin' _ _ _ H2 N2).
    pose proof (Hin' _ _ _ H3 N3). pose proof (Hin' _ _ _ H4 N4).
    repeat f_equal; lia.
  - exfalso. destruct bbox as [[[xmin ymin] xmax] ymax].
    destruct Ht as (_ & (x & v & Hget & Hv) & _).
    apply Hv. exact (bounding_box_none_zero mask E _ _ _ Hget).
Qed.

(** X2.  The box returned is the one, and the only one, that holds every
    non-zero pixel and touches one on each side. *)
Theorem bounding_box_iff_tight (mask : raster Z) (bbox : Z * Z * Z * Z) :
  get_bounding_box_of_mask mask = Some bbox <-> tight_box mask bbox.
Proof.
  split; [apply bounding_box_is_tight|apply tight_is_bounding_box].
Qed.

(** ** Cropping *)

Lemma slice_bound_id n i : 0 <= i <= n -> slice_bound n i = i.
Proof.
  intros H. unfold slice_bound.
  replace (i <? 0) with false by (symmetry; apply Z.ltb_ge; lia). lia.
Qed.

Lemma py_slice_nth_error {A} (l : list A) a b i :
  0 <= a <= b -> b <= Z.of_nat (length l) ->
  nth_error (py_slice l a b) i =
  if Z.of_nat i <? b - a then nth_error l (Z.to_nat a + i) else None.
Proof.
  intros Hab Hb. unfold py_slice.
  rewrite !slice_bound_id by lia.
  rewrite nth_error_firstn, nth_error_skipn.
  destruct (Z.ltb_spec (Z.of_nat i) (b - a)) as [H|H].
  - replace (i <? Z.to_nat (b - a))%nat with true by (symmetry; apply Nat.ltb_lt; lia).
    reflexivity.
  - replace (i <? Z.to_nat (b - a))%nat with false by (symmetry; apply Nat.ltb_ge; lia).
    reflexivity.
Qed.

Lemma py_slice_length {A} (l : list A) a b :
  0 <= a <= b -> b <= Z.of_nat (length l) ->
  Z.of_nat (length (py_slice l a b)) = b - a.
Proof.
  intros Hab Hb. unfold py_slice. rewrite !slice_bound_id by lia.
  rewrite length_firstn, length_skipn. lia.
Qed.

Lemma rect_rows {A} h w (m : raster A) row :
  rect h w m -> In row m -> Z.of_nat (length row) = w.
Proof. intros [_ H] Hin. rewrite Forall_forall in H. now apply H. Qed.

Lemma get_in_rect {A} h w (m : raster A) y x v :
  rect h w m -> get m y x = Some v -> 0 <= y < h /\ 0 <= x < w.
Proof.
  intros Hr Hget. apply get_some_iff in Hget as (Hy & Hx & row & Hrow & Hv).
  pose proof (rect_rows _ _ _ _ Hr (nth_error_In _ _ Hrow)) as Hw.
  destruct Hr as [Hh _]. unfold height in Hh.
  assert (Z.to_nat y < length m)%nat by (apply nth_error_Some; congruence).
  assert (Z.to_nat x < length row)%nat by (apply nth_error_Some; congruence).
  lia.
Qed.

Lemma rect_shape {A} h w (m : raster A) :
  rect h w m -> shape m = repeat (Z.to_nat w) (Z.to_nat h).
Proof.
  intros [Hh Hrows]. unfold height in Hh. subst h. rewrite Nat2Z.id.
  unfold shape. induction m as [|row m IH]; cbn [map length repeat]; [reflexivity|].
  inversion Hrows as [|? ? Hrow Hrest]; subst. f_equal.
  - lia.
  - now apply IH.
Qed.

Lemma shape_rect {A} h w (m : raster A) :
  0 <= h -> 0 <= w -> shape m = repeat (Z.to_nat w) (Z.to_nat h) -> rect h w m.
Proof.
  intros Hh Hw Hs. split.
  - unfold height. apply (f_equal (@length nat)) in Hs.
    unfold shape in Hs. rewrite length_map, repeat_length in Hs. lia.
  - apply Forall_forall. intros row Hin.
    assert (In (length row) (shape m)) as Hl by (unfold shape; now apply in_map).
    rewrite Hs in Hl. apply repeat_spec in Hl. lia.
Qed.

Lemma rect_width {A} h w (m : raster A) : rect h w m -> 1 <= h -> width m = w.
Proof.
  intros [Hh Hrows] H1. unfold height, width in *.
  destruct m as [|row m]; cbn [length] in Hh; [lia|].
  cbn [hd]. now inversion Hrows.
Qed.

Lemma rect_get {A} h w (m : raster A) y x :
  rect h w m -> 0 <= y < h -> 0 <= x < w -> exists v, get m y x = Some v.
Proof.
  intros Hr Hy Hx. pose proof Hr as [Hh _]. unfold height in Hh.
  destruct (nth_error m (Z.to_nat y)) as [row|] eqn:Erow.
  2:{ apply nth_error_None in Erow. lia. }
  pose proof (rect_rows _ _ _ _ Hr (nth_error_In _ _ Erow)) as Hw.
  destruct (nth_error row (Z.to_nat x)) as [v|] eqn:Ev.
  2:{ apply nth_error_None in Ev. lia. }
  exists v. apply get_some_iff. repeat split; try lia.
  now exists row.
Qed.


(** Inside a rectangular raster, a crop is the window it names. *)
Lemma get_crop {A} h w (m : raster A) y1 y2 x1 x2 i j :
  rect h w m -> 0 <= y1 <= y2 -> y2 <= h -> 0 <= x1 <= x2 -> x2 <= w ->
  get (crop m y1 y2 x1 x2) i j =
  if (0 <=? i) && (i <? y2 - y1) && ((0 <=? j) && (j <? x2 - x1))
  then get m (y1 + i) (x1 + j) else None.
Proof.
  intros Hr Hy Hy2 Hx Hx2. pose proof Hr as [Hh Hall]. unfold height in Hh.
  unfold get at 1.
  destruct (Z.leb_spec 0 i) as [Hi|Hi]; [|reflexivity].
  destruct (Z.leb_spec 0 j) as [Hj|Hj]; cbn [andb]; [|now rewrite andb_false_r].
  unfold crop. rewrite nth_error_map, py_slice_nth_error by lia.
  rewrite Z2Nat.id by lia.
  destruct (Z.ltb_spec i (y2 - y1)) as [Hi2|Hi2]; cbn [andb option_map]; [|reflexivity].
  unfold get.
  replace (0 <=? y1 + i) with true by (symmetry; apply Z.leb_le; lia).
  replace (0 <=? x1 + j) with true by (symmetry; apply Z.leb_le; lia). cbn [andb].
  replace (Z.to_nat (y1 + i)) with (Z.to_nat y1 + Z.to_nat i)%nat by lia.
  destruct (nth_error m (Z.to_nat y1 + Z.to_nat i)) as [row|] eqn:E; cbn [option_map].
  - pose proof (rect_rows _ _ _ _ Hr (nth_error_In _ _ E)) as Hw.
    rewrite py_slice_nth_error by lia. rewrite Z2Nat.id by lia.
    destruct (Z.ltb_spec j (x2 - x1)) as [Hj2|Hj2].
    + f_equal. lia.
    + reflexivity.
  - now destruct (j <? x2 - x1).
Qed.

Lemma crop_rect {A} h w (m : raster A) y1 y2 x1 x2 :
  rect h w m -> 0 <= y1 <= y2 -> y2 <= h -> 0 <= x1 <= x2 -> x2 <= w ->
  rect (y2 - y1) (x2 - x1) (crop m y1 y2 x1 x2).
Proof.
  intros Hr Hy Hy2 Hx Hx2. pose proof Hr as [Hh Hall]. unfold height in Hh.
  unfold rect, height, crop. split.
  - rewrite length_map. apply py_slice_length; lia.
  - apply Forall_map. apply Forall_forall. intros row Hin.
    apply py_slice_length; [lia|].
    assert (In row m).
    { apply In_nth_error in Hin as [n Hn]. rewrite py_slice_nth_error in Hn by lia.
      destruct (Z.of_nat n <? y2 - y1); [|discriminate].
      eapply nth_error_In. exact Hn. }
    rewrite (rect_rows _ _ _ _ Hr H). lia.
Qed.

Lemma tight_box_inside h w mask xmin ymin xmax ymax :
  rect h w mask -> tight_box mask (xmin, ymin, xmax, ymax) ->
  0 <= ymin <= ymax /\ ymax < h /\ 0 <= xmin <= xmax /\ xmax < w.
Proof.
  intros Hr (Hin & (x1 & v1 & H1 & N1) & (x2 & v2 & H2 & N2)
             & (y3 & v3 & H3 & N3) & (y4 & v4 & H4 & N4)).
  pose proof (get_in_rect _ _ _ _ _ _ Hr H1). pose proof (get_in_rect _ _ _ _ _ _ Hr H2).
  pose proof (get_in_rect _ _ _ _ _ _ Hr H3). pose proof (get_in_rect _ _ _ _ _ _ Hr H4).
  pose proof (Hin _ _ _ H1 N1). pose proof (Hin _ _ _ H3 N3). lia.
Qed.

(** X3.  Cropping a rectangular mask to its bounding box gives a raster of the
    size of the box that holds the window of the mask under the box, so
    no non-zero pixel is lost; and the bounding box of the crop is the
    whole crop: cropping again changes nothing. *)
Theorem crop_to_bounding_box_exact (h w : Z) (mask : raster Z)
    (xmin ymin xmax ymax : Z) :
  rect h w mask ->
  get_bounding_box_of_mask mask = Some (xmin, ymin, xmax, ymax) ->
  let cropped := crop_to_bounding_box mask (xmin, ymin, xmax, ymax) in
  rect (ymax - ymin + 1) (xmax - xmin + 1) cropped /\
  (forall i j, 0 <= i <= ymax - ymin -> 0 <= j <= xmax - xmin ->
     get cropped i j = get mask (ymin + i) (xmin + j)) /\
  get_bounding_box_of_mask cropped = Some (0, 0, xmax - xmin, ymax - ymin) /\
  crop_to_bounding_box cropped (0, 0, xmax - xmin, ymax - ymin) = cropped.
Proof.
  intros Hr Hbb cropped. apply bounding_box_is_tight in Hbb.
  pose proof (tight_box_inside _ _ _ _ _ _ _ Hr Hbb) as (Hy & Hy2 & Hx & Hx2).
  assert (Hrc : rect (ymax - ymin + 1) (xmax - xmin + 1) cropped).
  { unfold cropped, crop_to_bounding_box.
    replace (ymax - ymin + 1) with (ymax + 1 - ymin) by lia.
    replace (xmax - xmin + 1) with (xmax + 1 - xmin) by lia.
    apply (crop_rect h w); (assumption || lia). }
  assert (Hget : forall i j, get cropped i j =
            if (0 <=? i) && (i <? ymax + 1 - ymin) && ((0 <=? j) && (j <? xmax + 1 - xmin))
            then get mask (ymin + i) (xmin + j) else None).
  { intros i j. unfold cropped, crop_to_bounding_box.
    apply (get_crop h w); (assumption || lia). }
  assert (Hwin : forall i j, 0 <= i <= ymax - ymin -> 0 <= j <= xmax - xmin ->
            get cropped i j = get mask (ymin + i) (xmin + j)).
  { intros i j Hi Hj. rewrite Hget.
    replace (0 <=? i) with true by (symmetry; apply Z.leb_le; lia).
    replace (0 <=? j) with true by (symmetry; apply Z.leb_le; lia).
    replace (i <? ymax + 1 - ymin) with true by (symmetry; apply Z.ltb_lt; lia).
    replace (j <? xmax + 1 - xmin) with true by (symmetry; apply Z.ltb_lt; lia).
    reflexivity. }
  split; [exact Hrc|]. split; [exact Hwin|]. split.
  - apply tight_is_bounding_box.
    destruct Hbb as (Hin & (x1 & v1 & H1 & N1) & (x2 & v2 & H2 & N2)
                     & (y3 & v3 & H3 & N3) & (y4 & v4 & H4 & N4)).
    pose proof (Hin _ _ _ H1 N1) as B1. pose proof (Hin _ _ _ H2 N2) as B2.
    pose proof (Hin _ _ _ H3 N3) as B3. pose proof (Hin _ _ _ H4 N4) as B4.
    cbn [tight_box]. split; [|repeat split].
    + intros y x v Hg _. pose proof (get_in_rect _ _ _ _ _ _ Hrc Hg). lia.
    + exists (x1 - xmin), v1. split; [|exact N1]. rewrite Hwin by lia.
      rewrite <- H1. f_equal; lia.
    + exists (x2 - xmin), v2. split; [|exact N2]. rewrite Hwin by lia.
      rewrite <- H2. f_equal; lia.
    + exists (y3 - ymin), v3. split; [|exact N3]. rewrite Hwin by lia.
      rewrite <- H3. f_equal; lia.
    + exists (y4 - ymin), v4. split; [|exact N4]. rewrite Hwin by lia.
      rewrite <- H4. f_equal; lia.
  - destruct Hrc as [Hh Hrows]. unfold height in Hh.
    unfold crop_to_bounding_box, crop, py_slice.
    rewrite !slice_bound_id by lia.
    replace (Z.to_nat (ymax - ymin + 1 - 0)) with (length cropped) by lia.
    cbn [Z.to_nat skipn]. rewrite firstn_all.
    rewrite <- (map_id cropped) at 2. apply map_ext_in. intros row Hin.
    rewrite Forall_forall in Hrows. specialize (Hrows _ Hin).
    rewrite !slice_bound_id by lia.
    replace (Z.to_nat (xmax - xmin + 1 - 0)) with (length row) by lia.
    cbn [Z.to_nat skipn]. apply firstn_all.
Qed.

Definition sample_mask : raster Z :=
  [[0; 0; 0; 0]; [0; 0; 255; 0]; [0; 255; 0; 0]; [0; 0; 0; 0]].

Lemma crop_to_bounding_box_exact_witness :
  crop_to_bounding_box sample_mask (1, 1, 2, 2) = [[0; 255]; [255; 0]] /\
  get_bounding_box_of_mask [[0; 255]; [255; 0]] = Some (0, 0, 1, 1).
Proof.
  pose proof (crop_to_bounding_box_exact 4 4 sample_mask 1 1 2 2) as H.
  cbv zeta in H. destruct H as (_ & _ & H3 & _).
  - split; [reflexivity|]. repeat constructor.
  - reflexivity.
  - split; [reflexivity|exact H3].
Defined.

(** ** The user drawing and the canvas overlay *)

Definition pick (pq : Triple * Triple) : Triple :=
  if non_white (snd pq) then snd pq else fst pq.

Lemma non_white_false p : non_white p = false -> p = white.
Proof.
  destruct p as [[a b] c]. unfold non_white, white, ch0, ch1, ch2. cbn [fst snd].
  intros H. apply orb_false_elim in H as [H Hc]. apply orb_false_elim in H as [Ha Hb].
  apply negb_false_iff in Ha, Hb, Hc. apply Z.eqb_eq in Ha, Hb, Hc. now subst.
Qed.

Lemma white_row_assign row : forall w,
  length row = w -> map pick (combine (repeat white w) row) = row.
Proof.
  induction row as [|p row IH]; intros w Hw; subst w; cbn [length repeat combine map].
  - reflexivity.
  - rewrite IH by reflexivity. f_equal. unfold pick. cbn [fst snd].
    destruct (non_white p) eqn:E; [reflexivity|]. symmetry. now apply non_white_false.
Qed.

Lemma user_drawing_copy h w (canvas : raster Triple) :
  rect h w canvas -> create_user_drawing canvas = canvas.
Proof.
  intros [Hh Hrows]. unfold create_user_drawing, assign_where. fold pick.
  assert (Hw : forall row, In row canvas -> length row = Z.to_nat (width canvas)).
  { intros row Hin. unfold width. destruct canvas as [|r0 canvas]; [contradiction|].
    cbn [hd]. rewrite Forall_forall in Hrows.
    pose proof (Hrows r0 (or_introl eq_refl)). pose proof (Hrows row Hin). lia. }
  unfold height. rewrite Nat2Z.id. clear Hh Hrows.
  generalize dependent (Z.to_nat (width canvas)). intros wn Hw.
  induction canvas as [|row canvas IH]; cbn [length repeat combine map]; [reflexivity|].
  cbn [fst snd]. rewrite white_row_assign by (apply Hw; now left).
  f_equal. apply IH. intros r Hr. apply Hw. now right.
Qed.

(** X4.  [create_user_drawing] returns a copy of the canvas itself: a pixel
    that is not copied is white, as is the pixel it would replace. *)
Theorem create_user_drawing_is_copy (h w : Z) (canvas : raster Triple) :
  rect h w canvas -> create_user_drawing canvas = canvas.
Proof. exact (user_drawing_copy h w canvas). Qed.

Lemma create_user_drawing_is_copy_witness :
  create_user_drawing [[(255, 255, 255); (0, 0, 0)]; [(0, 0, 255); (255, 255, 255)]]
  = [[(255, 255, 255); (0, 0, 0)]; [(0, 0, 255); (255, 255, 255)]].
Proof.
  apply (create_user_drawing_is_copy 2 2). split; [reflexivity|]. repeat constructor.
Defined.

Lemma nth_error_map_combine {A B C} (f : A * B -> C) (a : list A) : forall (b : list B) n,
  nth_error (map f (combine a b)) n =
  match nth_error a n, nth_error b n with
  | Some x, Some y => Some (f (x, y))
  | _, _ => None
  end.
Proof.
  induction a as [|x a IH]; intros b n.
  - destruct n; reflexivity.
  - destruct b as [|y b]; cbn [combine map].
    + destruct n; cbn [nth_error]; [reflexivity|]. now destruct (nth_error a n).
    + destruct n; cbn [nth_error]; [reflexivity|apply IH].
Qed.

Lemma get_assign_where dst src y x :
  get (assign_where dst src) y x =
  match get dst y x, get src y x with
  | Some d, Some c => Some (if non_white c then c else d)
  | _, _ => None
  end.
Proof.
  unfold get, assign_where.
  destruct ((0 <=? y) && (0 <=? x)); [|reflexivity].
  rewrite nth_error_map_combine.
  destruct (nth_error dst (Z.to_nat y)) as [rd|]; [|reflexivity].
  destruct (nth_error src (Z.to_nat y)) as [rs|].
  - cbn [fst snd]. rewrite nth_error_map_combine. reflexivity.
  - now destruct (nth_error rd (Z.to_nat x)).
Qed.

Lemma same_shape_iff {A B} (a : raster A) (b : raster B) :
  same_shape a b = true <-> shape a = shape b.
Proof. unfold same_shape. destruct list_eq_dec; split; congruence. Qed.

Lemma shape_assign_where dst : forall src,
  shape dst = shape src -> shape (assign_where dst src) = shape dst.
Proof.
  unfold shape, assign_where.
  induction dst as [|rd dst IH]; intros [|rs src] H; cbn [combine map] in *;
    try discriminate; [reflexivity|].
  injection H as Hl Ht. cbn [fst snd]. rewrite IH by exact Ht. f_equal.
  rewrite length_map, length_combine. lia.
Qed.

Lemma same_shape_get {A B} (a : raster A) : forall (b : raster B) y x,
  shape a = shape b -> get a y x = None <-> get b y x = None.
Proof.
  intros b y x Hs. unfold get. destruct ((0 <=? y) && (0 <=? x)); [|tauto].
  assert (Hrow : nth_error (shape a) (Z.to_nat y) = nth_error (shape b) (Z.to_nat y))
    by now rewrite Hs.
  unfold shape in Hrow. rewrite !nth_error_map in Hrow.
  destruct (nth_error a (Z.to_nat y)) as [ra|], (nth_error b (Z.to_nat y)) as [rb|];
    cbn [option_map] in Hrow; try discriminate; [|tauto].
  injection Hrow as Hl. rewrite !nth_error_None. lia.
Qed.

Lemma assign_where_again canvas : forall background,
  shape canvas = shape background ->
  assign_where (assign_where background canvas) canvas = assign_where background canvas.
Proof.
  unfold assign_where. fold pick.
  induction canvas as [|rc canvas IH]; intros [|rb background] Hs; try discriminate;
    cbn [combine map]; [reflexivity|].
  injection Hs as Hl Ht. cbn [fst snd]. f_equal; [|now apply IH].
  clear IH Ht. revert rb Hl.
  induction rc as [|c rc IHr]; intros [|b rb] Hl; try discriminate;
    cbn [combine map]; [reflexivity|].
  injection Hl as Hl. f_equal; [|now apply IHr].
  unfold pick. cbn [fst snd]. now destruct (non_white c).
Qed.

(** X5.  [overlay_canvas_on_image] on a canvas of [hc] rows ([hc >= 1]) of
    [wc] pixels and a background of [hb] rows of [wb] pixels.  It raises
    when the heights differ, and when the widths differ unless the canvas
    has width 0; a canvas of the background's height and of width 0 gives
    the background back.  On two images of one size the result has that
    size; each of its pixels is the canvas pixel where the canvas is not
    white and the background pixel where it is; and overlaying the same
    canvas once more changes nothing. *)
Theorem overlay_canvas_spec (hc wc hb wb : Z) (canvas background : raster Triple) :
  rect hc wc canvas -> rect hb wb background -> 1 <= hc ->
  (hc <> hb \/ (wc <> 0 /\ wc <> wb) ->
     overlay_canvas_on_image canvas background = None) /\
  (hc = hb -> wc = 0 ->
     overlay_canvas_on_image canvas background = Some background) /\
  (hc = hb -> wc = wb -> 1 <= wc ->
     exists out,
       overlay_canvas_on_image canvas background = Some out /\
       rect hb wb out /\
       (forall y x,
          get out y x =
          match get canvas y x with
          | Some c => if non_white c then Some c else get background y x
          | None => None
          end) /\
       overlay_canvas_on_image canvas out = Some out).
Proof.
  intros Hc Hb Hhc. unfold overlay_canvas_on_image, bool_index_fits.
  rewrite (proj1 Hc), (rect_width hc wc canvas Hc Hhc), (proj1 Hb).
  replace (hc =? 0) with false by (symmetry; apply Z.eqb_neq; lia). cbn [orb].
  split; [|split].
  - intros [Hh|[Hw0 Hw]].
    + replace (hc =? hb) with false by (symmetry; now apply Z.eqb_neq). reflexivity.
    + destruct (Z.eqb_spec hc hb) as [Hh|Hh]; [|reflexivity]. cbn [andb].
      rewrite (rect_width hb wb background Hb ltac:(lia)).
      replace (wc =? 0) with false by (symmetry; now apply Z.eqb_neq).
      replace (wc =? wb) with false by (symmetry; now apply Z.eqb_neq). reflexivity.
  - intros Hh Hw. rewrite Hh, Hw, Z.eqb_refl. reflexivity.
  - intros Hh Hw Hwc. subst hb wb.
    rewrite (rect_width hc wc background Hb Hhc), !Z.eqb_refl.
    replace (wc =? 0) with false by (symmetry; apply Z.eqb_neq; lia). cbn [orb andb].
    assert (Hs : shape canvas = shape background)
      by (rewrite (rect_shape _ _ _ Hc), (rect_shape _ _ _ Hb); reflexivity).
    assert (Hout : shape (assign_where background canvas) = shape background)
      by (apply shape_assign_where; now symmetry).
    assert (Hrect : rect hc wc (assign_where background canvas)).
    { apply shape_rect; [lia|lia|]. rewrite Hout. exact (rect_shape _ _ _ Hb). }
    eexists. split; [reflexivity|]. split; [exact Hrect|]. split.
    + intros y x. rewrite get_assign_where.
      pose proof (same_shape_get canvas background y x Hs) as Hn.
      destruct (get background y x) as [d|], (get canvas y x) as [c|]; try reflexivity.
      * now destruct (non_white c).
      * discriminate (proj2 Hn eq_refl).
    + rewrite (proj1 Hrect), (rect_width hc wc _ Hrect Hhc), !Z.eqb_refl.
      cbn [orb andb]. f_equal. apply assign_where_again. exact Hs.
Qed.

Lemma overlay_canvas_spec_witness :
  overlay_canvas_on_image [[(0, 0, 0); white]] [[(1, 2, 3)]] = None /\
  overlay_canvas_on_image [[]] [[(1, 2, 3)]] = Some [[(1, 2, 3)]] /\
  overlay_canvas_on_image [[(0, 0, 0); white]] [[(1, 2, 3); (4, 5, 6)]]
  = Some [[(0, 0, 0); (4, 5, 6)]].
Proof.
  split; [|split].
  - apply (overlay_canvas_spec 1 2 1 1 [[(0, 0, 0); white]] [[(1, 2, 3)]]).
    + split; [reflexivity|]. repeat constructor.
    + split; [reflexivity|]. repeat constructor.
    + lia.
    + right. lia.
  - apply (overlay_canvas_spec 1 0 1 1 [[]] [[(1, 2, 3)]]).
    + split; [reflexivity|]. repeat constructor.
    + split; [reflexivity|]. repeat constructor.
    + lia.
    + reflexivity.
    + reflexivity.
  - destruct (overlay_canvas_spec 1 2 1 2 [[(0, 0, 0); white]] [[(1, 2, 3); (4, 5, 6)]])
      as (_ & _ & H).
    + split; [reflexivity|]. repeat constructor.
    + split; [reflexivity|]. repeat constructor.
    + lia.
    + destruct H as (out & Hout & _); [reflexivity|reflexivity|lia|].
      rewrite Hout. vm_compute in Hout. symmetry. exact Hout.
Defined.

End ImageUtilFacts.

(** * Hidden dev mode: [dev_mouse_callback], [get_dev_fingertips_action] *)

Module DevMode.

Local Open Scope Z_scope.

(** The globals [dev_fingers_count], [dev_mouse_down] and
    [dev_last_mouse_pos]. *)
Record DevState : Type := {
  dev_fingers_count : Z;
  dev_mouse_down : bool;
  dev_last_mouse_pos : option (Z * Z) }.

Definition initial : DevState :=
  {| dev_fingers_count := 0; dev_mouse_down := false; dev_last_mouse_pos := None |}.

(** OpenCV's mouse event codes. *)
Definition EVENT_MOUSEMOVE : Z := 0.
Definition EVENT_LBUTTONDOWN : Z := 1.
Definition EVENT_LBUTTONUP : Z := 4.

(** [dev_mouse_callback(event, x, y, flags, param)] *)
Definition dev_mouse_callback (st : DevState) (event x y : Z) : DevState :=
  if event =? EVENT_LBUTTONDOWN then
    {| dev_fingers_count := dev_fingers_count st;
       dev_mouse_down := true;
       dev_last_mouse_pos := Some (x, y) |}
  else if event =? EVENT_LBUTTONUP then
    {| dev_fingers_count := dev_fingers_count st;
       dev_mouse_down := false;
       dev_last_mouse_pos := None |}
  else if (event =? EVENT_MOUSEMOVE) && dev_mouse_down st then
    {| dev_fingers_count := dev_fingers_count st;
       dev_mouse_down := dev_mouse_down st;
       dev_last_mouse_pos := Some (x, y) |}
  else st.

(** [get_dev_fingertips_action(canvas, frame_w, frame_h)]; the three
    arguments are not read. *)
Definition get_dev_fingertips_action (st : DevState) : Z * option (Z * Z) :=
  let eraser_point :=
    if dev_mouse_down st then
      match dev_last_mouse_pos st with
      | Some (mx, my) =>
          if (dev_fingers_count st =? 2) || (dev_fingers_count st =? 3)
          then Some (mx, my) else None
      | None => None
      end
    else None in
  (dev_fingers_count st, eraser_point).

(** The state after a sequence of mouse events [(event, x, y)]. *)
Definition run (st : DevState) (events : list (Z * Z * Z)) : DevState :=
  fold_left (fun st e => dev_mouse_callback st (fst (fst e)) (snd (fst e)) (snd e))
            events st.

End DevMode.

Module DevModeFacts.
Import DevMode.

Local Open Scope Z_scope.

Definition consistent (st : DevState) : Prop :=
  dev_mouse_down st = true <-> dev_last_mouse_pos st <> None.

Lemma callback_consistent st event x y :
  consistent st -> consistent (dev_mouse_callback st event x y).
Proof.
  unfold consistent, dev_mouse_callback. intros H.
  destruct (event =? EVENT_LBUTTONDOWN); [cbn; split; [discriminate|reflexivity]|].
  destruct (event =? EVENT_LBUTTONUP); [cbn; split; [discriminate|congruence]|].
  destruct (event =? EVENT_MOUSEMOVE); cbn [andb]; [|exact H].
  case_eq (dev_mouse_down st); intros E; [|exact H].
  cbn. rewrite ?E. split; [discriminate|reflexivity].
Qed.

Lemma callback_keeps_count st event x y :
  dev_fingers_count (dev_mouse_callback st event x y) = dev_fingers_count st.
Proof.
  unfold dev_mouse_callback.
  destruct (event =? EVENT_LBUTTONDOWN); [reflexivity|].
  destruct (event =? EVENT_LBUTTONUP); [reflexivity|].
  destruct ((event =? EVENT_MOUSEMOVE) && dev_mouse_down st); reflexivity.
Qed.

(** X6.  After any sequence of mouse events from the initial state, a position
    is stored exactly while the left button is held; and since no event
    changes the dev finger count from its initial 0,
    [get_dev_fingertips_action] always answers (0, None): the dev-mode
    eraser point is never produced. *)
Theorem dev_mode_never_erases (events : list (Z * Z * Z)) :
  let st := run initial events in
  (dev_mouse_down st = true <-> dev_last_mouse_pos st <> None) /\
  dev_fingers_count st = 0 /\
  get_dev_fingertips_action st = (0, None).
Proof.
  cbv zeta.
  assert (H : forall st, consistent st -> dev_fingers_count st = 0 ->
            consistent (run st events) /\ dev_fingers_count (run st events) = 0).
  { unfold run. induction events as [|e events IH]; intros st Hc Hn; cbn [fold_left].
    - now split.
    - apply IH; [now apply callback_consistent|now rewrite callback_keeps_count]. }
  destruct (H initial) as [Hc Hn]; [split; [discriminate|intros E; now contradiction E]|reflexivity|].
  split; [exact Hc|]. split; [exact Hn|].
  unfold get_dev_fingertips_action. rewrite Hn. cbn [Z.eqb orb].
  destruct (dev_mouse_down (run initial events)); [|reflexivity].
  now destruct (dev_last_mouse_pos (run initial events)) as [[mx my]|].
Qed.

End DevModeFacts.

(** * Region of interest: the clamping and tracking steps of [run_stage] *)

Module Roi.
Import Raster.

Local Open Scope Z_scope.

(** The globals [roi_x], [roi_y], [roi_w], [roi_h], once set. *)
Record roi : Type := { roi_x : Z; roi_y : Z; roi_w : Z; roi_h : Z }.

(** The ROI [run_stage] starts from when none is set (lines 843-846). *)
Definition default_roi (screen_w screen_h : Z) : roi :=
  {| roi_x := screen_w / 2 - 25; roi_y := screen_h / 2 - 25; roi_w := 50; roi_h := 50 |}.

(** Lines 871-876: keeping the ROI within the screen. *)
Definition clamp_roi (screen_w screen_h : Z) (r : roi) : roi :=
  let roi_x := Z.max 0 (roi_x r) in
  let roi_y := Z.max 0 (roi_y r) in
  let roi_w := if roi_x + roi_w r >? screen_w then screen_w - roi_x else roi_w r in
  let roi_h := if roi_y + roi_h r >? screen_h then screen_h - roi_y else roi_h r in
  {| roi_x := roi_x; roi_y := roi_y; roi_w := roi_w; roi_h := roi_h |}.

(** Line 879: [original_frame[roi_y:roi_y + roi_h, roi_x:roi_x + roi_w]]. *)
Definition roi_frame {A} (frame : raster A) (r : roi) : raster A :=
  crop frame (roi_y r) (roi_y r + roi_h r) (roi_x r) (roi_x r + roi_w r).

(** [int(v * 1.5)] for an integer [v]. *)
Definition scale_1_5 (v : Z) : Z := Z.quot (3 * v) 2.

(** Lines 904-918: re-centring the ROI on the bounding rectangle
    [(xC, yC, wC, hC)] of the contour found in the current ROI. *)
Definition track_roi (screen_w screen_h : Z) (r : roi) (xC yC wC hC : Z) : roi :=
  let new_w := scale_1_5 wC in
  let new_h := scale_1_5 hC in
  let cx_box := roi_x r + xC + wC / 2 in
  let cy_box := roi_y r + yC + hC / 2 in
  let roi_x := Z.max 0 (cx_box - new_w / 2) in
  let roi_y := Z.max 0 (cy_box - new_h / 2) in
  let roi_x := if roi_x + new_w >? screen_w then screen_w - new_w else roi_x in
  let roi_y := if roi_y + new_h >? screen_h then screen_h - new_h else roi_y in
  {| roi_x := roi_x; roi_y := roi_y; roi_w := new_w; roi_h := new_h |}.

(** A non-empty rectangle inside the screen. *)
Definition inside_screen (screen_w screen_h : Z) (r : roi) : Prop :=
  0 <= roi_x r /\ 1 <= roi_w r /\ roi_x r + roi_w r <= screen_w /\
  0 <= roi_y r /\ 1 <= roi_h r /\ roi_y r + roi_h r <= screen_h.

End Roi.

Module RoiFacts.
Import Raster Roi ImageUtil.

Local Open Scope Z_scope.

Lemma scale_1_5_pos v : 1 <= v -> 1 <= scale_1_5 v.
Proof.
  intros H. unfold scale_1_5. apply Z.quot_le_lower_bound; lia.
Qed.

(** X7.  The ROI handed to [detect_hand] is a non-empty rectangle inside the
    screen, both for the default ROI and after every tracking update on a
    bounding rectangle of at least one pixel; the frame region cut out
    for it then has exactly [roi_h] rows of [roi_w] pixels. *)
Theorem clamped_roi_inside_screen (screen_w screen_h : Z) :
  1 <= screen_w -> 1 <= screen_h ->
  inside_screen screen_w screen_h (clamp_roi screen_w screen_h (default_roi screen_w screen_h)) /\
  (forall r xC yC wC hC, 1 <= wC -> 1 <= hC ->
     inside_screen screen_w screen_h
       (clamp_roi screen_w screen_h (track_roi screen_w screen_h r xC yC wC hC))) /\
  (forall A (frame : raster A) r,
     rect screen_h screen_w frame -> inside_screen screen_w screen_h r ->
     clamp_roi screen_w screen_h r = r /\
     rect (roi_h r) (roi_w r) (roi_frame frame r)).
Proof.
  intros Hw Hh. split; [|split].
  - unfold inside_screen, clamp_roi, default_roi. cbn [roi_x roi_y roi_w roi_h].
    destruct (Z.gtb_spec (Z.max 0 (screen_w / 2 - 25) + 50) screen_w);
    destruct (Z.gtb_spec (Z.max 0 (screen_h / 2 - 25) + 50) screen_h);
    pose proof (Z.div_mod screen_w 2 ltac:(lia));
    pose proof (Z.mod_pos_bound screen_w 2 ltac:(lia));
    pose proof (Z.div_mod screen_h 2 ltac:(lia));
    pose proof (Z.mod_pos_bound screen_h 2 ltac:(lia)); lia.
  - intros r xC yC wC hC HwC HhC.
    pose proof (scale_1_5_pos wC HwC) as Hnw. pose proof (scale_1_5_pos hC HhC) as Hnh.
    unfold inside_screen, clamp_roi, track_roi. cbn [roi_x roi_y roi_w roi_h].
    set (nw := scale_1_5 wC) in *. set (nh := scale_1_5 hC) in *.
    set (px := Z.max 0 (Roi.roi_x r + xC + wC / 2 - nw / 2)).
    set (py := Z.max 0 (Roi.roi_y r + yC + hC / 2 - nh / 2)).
    assert (0 <= px) by (unfold px; lia). assert (0 <= py) by (unfold py; lia).
    destruct (Z.gtb_spec (px + nw) screen_w); destruct (Z.gtb_spec (py + nh) screen_h);
      repeat match goal with
             | |- context [?a >? ?b] => destruct (Z.gtb_spec a b)
             end; lia.
  - intros A frame r Hrect (Hx & Hrw & Hxw & Hy & Hrh & Hyh). split.
    + unfold clamp_roi. destruct r as [x y w h]. cbn [roi_x roi_y roi_w roi_h] in *.
      rewrite !Z.max_r by lia.
      destruct (Z.gtb_spec (x + w) screen_w); [lia|].
      destruct (Z.gtb_spec (y + h) screen_h); [lia|].
      reflexivity.
    + unfold roi_frame.
      replace (roi_h r) with (roi_y r + roi_h r - roi_y r) at 1 by lia.
      replace (roi_w r) with (roi_x r + roi_w r - roi_x r) at 1 by lia.
      apply (ImageUtilFacts.crop_rect screen_h screen_w); (assumption || lia).
Qed.

Lemma clamped_roi_inside_screen_witness :
  inside_screen 640 480 (clamp_roi 640 480 (track_roi 640 480 (default_roi 640 480) 10 10 400 300)).
Proof.
  apply (clamped_roi_inside_screen 640 480); lia.
Defined.

End RoiFacts.

(** * Gestures: what [run_stage] does with the fingertips of a frame *)

Module Gesture.
Import Fingers.

Local Open Scope Z_scope.

(** What a frame writes on the canvas: [cv2.line] in the drawing colour,
    [cv2.circle] of radius 15 in the erasing colour, [canvas[:] = 255]. *)
Inductive op : Type :=
| Line (p q : Point)
| EraseAt (c : Point)
| ClearAll.

(** [(best_dist, best_pair)]; [None] stands for [(inf, None)]. *)
Definition best : Type := option (Z * (Point * Point)).

(** The body of the inner loop over [j]. *)
Definition pair_step (p : Point) (b : best) (q : Point) : best :=
  let dx := fst p - fst q in
  let dy := snd p - snd q in
  let dist_sq := dx * dx + dy * dy in
  match b with
  | Some (best_dist, _) => if dist_sq <? best_dist then Some (dist_sq, (p, q)) else b
  | None => Some (dist_sq, (p, q))
  end.

(** [for i in range(len(pts)): for j in range(i + 1, len(pts)): ...] *)
Fixpoint closest_scan (pts : list Point) (b : best) : best :=
  match pts with
  | [] => b
  | p :: rest => closest_scan rest (fold_left (pair_step p) rest b)
  end.

Definition closest_pair (pts : list Point) : option (Point * Point) :=
  option_map snd (closest_scan pts None).

(** One frame of the gesture logic (lines 936-974), from the pen position
    [last_finger_point] and the fingertips of the frame to the canvas
    operations of the frame and the new pen position.  [None] is the
    exception unpacking [best_pair] would raise if no pair had been found. *)
Definition gesture_step (last_finger_point : option Point) (final_fingertips : list Point)
  : option (list op * option Point) :=
  let fingers_count := Z.of_nat (length final_fingertips) in
  if fingers_count =? 1 then
    match nth_error final_fingertips 0 with
    | Some current_point =>
        Some (match last_finger_point with
              | Some l => [Line l current_point]
              | None => []
              end, Some current_point)
    | None => Some ([], None)
    end
  else if (fingers_count =? 2) || (fingers_count =? 3) then
    if 2 <=? fingers_count then
      let pair :=
        if fingers_count =? 2
        then match nth_error final_fingertips 0, nth_error final_fingertips 1 with
             | Some a, Some b => Some (a, b)
             | _, _ => None
             end
        else closest_pair final_fingertips in
      match pair with
      | Some ((x1, y1), (x2, y2)) =>
          let mx := (x1 + x2) / 2 in
          let my := (y1 + y2) / 2 in
          Some ([EraseAt (mx, my)], None)
      | None => None
      end
    else Some ([], None)
  else if fingers_count =? 5 then Some ([ClearAll], None)
  else Some ([], last_finger_point).

(** The frames of a stage in order: every canvas operation so far, and the
    pen position. *)
Fixpoint run_frames (last_finger_point : option Point) (frames : list (list Point))
  : option (list op * option Point) :=
  match frames with
  | [] => Some ([], last_finger_point)
  | tips :: frames' =>
      match gesture_step last_finger_point tips with
      | Some (ops, last') =>
          match run_frames last' frames' with
          | Some (ops', last'') => Some (ops ++ ops', last'')
          | None => None
          end
      | None => None
      end
  end.

(** The fingertip counts the gesture logic has no branch for. *)
Definition idle (tips : list Point) : Prop :=
  length tips = 0%nat \/ length tips = 4%nat \/ (6 <= length tips)%nat.

(** The fingertip counts that erase or clear. *)
Definition lifting (tips : list Point) : Prop :=
  length tips = 2%nat \/ length tips = 3%nat \/ length tips = 5%nat.

End Gesture.

Module GestureFacts.
Import Fingers Gesture.

Local Open Scope Z_scope.

(** Every pair [(pts[i], pts[j])] with [i < j], in the order the loops
    visit them. *)
Fixpoint all_pairs (pts : list Point) : list (Point * Point) :=
  match pts with
  | [] => []
  | p :: rest => map (pair p) rest ++ all_pairs rest
  end.

Definition pair_step' (b : best) (pq : Point * Point) : best :=
  pair_step (fst pq) b (snd pq).

Lemma fold_pair_step p rest b :
  fold_left (pair_step p) rest b = fold_left pair_step' (map (pair p) rest) b.
Proof.
  revert b. induction rest as [|q rest IH]; intros b; simpl; [reflexivity|].
  apply IH.
Qed.

Lemma closest_scan_all_pairs pts : forall b,
  closest_scan pts b = fold_left pair_step' (all_pairs pts) b.
Proof.
  induction pts as [|p rest IH]; intros b; simpl; [reflexivity|].
  rewrite fold_left_app, IH, fold_pair_step. reflexivity.
Qed.

(** The state of the scan is a genuine pair with its distance, no farther
    than any pair seen. *)
Definition pair_inv (seen : list (Point * Point)) (b : best) : Prop :=
  match b with
  | None => seen = []
  | Some (d, pq) =>
      In pq seen /\ d = dist_sq (fst pq) (snd pq) /\
      forall pq', In pq' seen -> d <= dist_sq (fst pq') (snd pq')
  end.

Lemma pair_inv_step seen b pq :
  pair_inv seen b -> pair_inv (seen ++ [pq]) (pair_step' b pq).
Proof.
  intros H. unfold pair_step', pair_step.
  fold (dist_sq (fst pq) (snd pq)).
  destruct b as [[d pq0]|].
  - destruct H as (Hin & Hd & Hmin).
    destruct (Z.ltb_spec (dist_sq (fst pq) (snd pq)) d) as [Hlt|Hge].
    + cbn. repeat split.
      * apply in_or_app. right. destruct pq. now left.
      * intros pq' Hin'. apply in_app_or in Hin'. destruct Hin' as [Hin'|[<-|[]]].
        -- specialize (Hmin _ Hin'). lia.
        -- lia.
    + cbn. repeat split.
      * apply in_or_app. now left.
      * exact Hd.
      * intros pq' Hin'. apply in_app_or in Hin'. destruct Hin' as [Hin'|[<-|[]]].
        -- now apply Hmin.
        -- exact Hge.
  - cbn in H. subst seen. cbn. repeat split.
    + destruct pq. now left.
    + intros pq' [<-|[]]. lia.
Qed.

Lemma pair_inv_fold l : forall seen b,
  pair_inv seen b -> pair_inv (seen ++ l) (fold_left pair_step' l b).
Proof.
  induction l as [|pq l IH]; intros seen b H; simpl.
  - now rewrite app_nil_r.
  - replace (seen ++ pq :: l) with ((seen ++ [pq]) ++ l)
      by (rewrite <- app_assoc; reflexivity).
    apply IH, pair_inv_step, H.
Qed.

Lemma in_all_pairs pts : forall i j p q,
  (i < j)%nat -> nth_error pts i = Some p -> nth_error pts j = Some q ->
  In (p, q) (all_pairs pts).
Proof.
  induction pts as [|a rest IH]; intros i j p q Hij Hi Hj.
  - destruct i; discriminate.
  - simpl. apply in_or_app. destruct i as [|i].
    + left. injection Hi as <-. destruct j as [|j]; [lia|].
      apply in_map. eapply nth_error_In. exact Hj.
    + right. destruct j as [|j]; [lia|].
      apply (IH i j); [lia|exact Hi|exact Hj].
Qed.

Lemma all_pairs_in pts : forall p q,
  In (p, q) (all_pairs pts) ->
  exists i j, (i < j)%nat /\ nth_error pts i = Some p /\ nth_error pts j = Some q.
Proof.
  induction pts as [|a rest IH]; intros p q H; simpl in H; [destruct H|].
  apply in_app_or in H. destruct H as [H|H].
  - apply in_map_iff in H. destruct H as (q' & Heq & Hin).
    injection Heq as <- <-.
    apply In_nth_error in Hin. destruct Hin as [j Hj].
    exists 0%nat, (S j). repeat split; [lia|exact Hj].
  - destruct (IH _ _ H) as (i & j & Hij & Hi & Hj).
    exists (S i), (S j). repeat split; [lia|exact Hi|exact Hj].
Qed.

Lemma closest_pair_spec pts :
  match closest_pair pts with
  | Some pq => In pq (all_pairs pts) /\
               forall pq', In pq' (all_pairs pts) ->
                           dist_sq (fst pq) (snd pq) <= dist_sq (fst pq') (snd pq')
  | None => all_pairs pts = []
  end.
Proof.
  unfold closest_pair. rewrite closest_scan_all_pairs.
  pose proof (pair_inv_fold (all_pairs pts) [] None eq_refl) as H.
  cbn [app] in H.
  destruct (fold_left pair_step' (all_pairs pts) None) as [[d pq]|]; cbn in *.
  - destruct H as (Hin & -> & Hmin). split; assumption.
  - exact H.
Qed.

Lemma closest_pair_some pts :
  (2 <= length pts)%nat -> exists p q, closest_pair pts = Some (p, q).
Proof.
  intros Hlen. pose proof (closest_pair_spec pts) as H.
  destruct (closest_pair pts) as [[p q]|]; [now exists p, q|].
  exfalso. destruct pts as [|a [|b rest]]; simpl in Hlen; try lia.
  discriminate H.
Qed.

(** X8.  The nested loops over the fingertips find a closest pair: for a list of
    at least two points the result is a pair [(pts[i], pts[j])] with
    [i < j], and no other such pair is strictly closer. *)
Theorem closest_pair_is_closest (pts : list Point) :
  (2 <= length pts)%nat ->
  exists i j p q,
    closest_pair pts = Some (p, q) /\
    (i < j)%nat /\ nth_error pts i = Some p /\ nth_error pts j = Some q /\
    forall i' j' p' q',
      (i' < j')%nat -> nth_error pts i' = Some p' -> nth_error pts j' = Some q' ->
      dist_sq p q <= dist_sq p' q'.
Proof.
  intros Hlen. pose proof (closest_pair_spec pts) as H.
  destruct (closest_pair pts) as [[p q]|].
  - destruct H as (Hin & Hmin).
    destruct (all_pairs_in _ _ _ Hin) as (i & j & Hij & Hi & Hj).
    exists i, j, p, q. repeat split; try assumption.
    intros i' j' p' q' Hij' Hi' Hj'.
    apply (Hmin (p', q')). eapply in_all_pairs; eassumption.
  - exfalso. destruct pts as [|a [|b rest]]; simpl in Hlen; try lia.
    discriminate H.
Qed.

Lemma closest_pair_is_closest_witness :
  exists i j p q,
    closest_pair [(0, 0); (10, 0); (12, 1)] = Some (p, q) /\
    (i < j)%nat /\ nth_error [(0, 0); (10, 0); (12, 1)] i = Some p /\
    nth_error [(0, 0); (10, 0); (12, 1)] j = Some q /\
    forall i' j' p' q',
      (i' < j')%nat -> nth_error [(0, 0); (10, 0); (12, 1)] i' = Some p' ->
      nth_error [(0, 0); (10, 0); (12, 1)] j' = Some q' ->
      dist_sq p q <= dist_sq p' q'.
Proof.
  apply (closest_pair_is_closest [(0, 0); (10, 0); (12, 1)]). simpl. lia.
Defined.

Lemma idle_step last tips :
  idle tips -> gesture_step last tips = Some ([], last).
Proof.
  intros H. unfold gesture_step, idle in *.
  destruct (Z.eqb_spec (Z.of_nat (length tips)) 1); [lia|].
  destruct (Z.eqb_spec (Z.of_nat (length tips)) 2); [lia|].
  destruct (Z.eqb_spec (Z.of_nat (length tips)) 3); [lia|].
  destruct (Z.eqb_spec (Z.of_nat (length tips)) 5); [lia|].
  reflexivity.
Qed.

Lemma idle_frames last gap :
  Forall idle gap -> run_frames last gap = Some ([], last).
Proof.
  induction 1 as [|tips gap Ht _ IH]; simpl; [reflexivity|].
  rewrite (idle_step _ _ Ht), IH. reflexivity.
Qed.

Lemma lifting_step last tips :
  lifting tips ->
  exists o, (o = ClearAll \/ exists c, o = EraseAt c) /\
            gesture_step last tips = Some ([o], None).
Proof.
  intros [H|[H|H]].
  - destruct tips as [|[x1 y1] [|[x2 y2] [|? ?]]]; try discriminate H.
    eexists. split; [right; eexists; reflexivity|]. reflexivity.
  - destruct (closest_pair_some tips) as (p & q & Hpq); [lia|].
    destruct tips as [|a [|b [|c [|? ?]]]]; try discriminate H.
    unfold gesture_step. cbn [length Z.of_nat Pos.of_succ_nat Pos.succ Z.eqb Pos.eqb orb Z.leb Z.compare Pos.compare Pos.compare_cont].
    rewrite Hpq. destruct p as [x1 y1], q as [x2 y2].
    eexists. split; [right; eexists; reflexivity|]. reflexivity.
  - destruct tips as [|a [|b [|c [|d [|e [|? ?]]]]]]; try discriminate H.
    exists ClearAll. split; [now left|reflexivity].
Qed.

Lemma frame_cases (tips : list Point) :
  (exists p, tips = [p]) \/ lifting tips \/ idle tips.
Proof.
  unfold lifting, idle.
  destruct tips as [|a [|b [|c [|d [|e [|f rest]]]]]]; cbn [length];
    try (left; eexists; reflexivity); right; try (left; lia); right; lia.
Qed.

Lemma gesture_step_cases last tips :
  exists ops last',
    gesture_step last tips = Some (ops, last') /\
    (forall a b, In (Line a b) ops -> tips = [b] /\ last = Some a) /\
    (forall a, last' = Some a -> tips = [a] \/ last = Some a).
Proof.
  destruct (frame_cases tips) as [[p ->]|[Hl|Hi]].
  - exists (match last with Some l => [Line l p] | None => [] end), (Some p).
    split; [reflexivity|]. split.
    + intros a b Hin. destruct last as [l|]; [|destruct Hin].
      destruct Hin as [Heq|[]]. injection Heq as <- <-. now split.
    + intros a Ha. injection Ha as <-. now left.
  - destruct (lifting_step last tips Hl) as (o & Ho & Hstep).
    exists [o], None. split; [exact Hstep|]. split.
    + intros a b [Heq|[]]. subst o. destruct Ho as [Ho|[c Ho]]; discriminate Ho.
    + discriminate.
  - exists [], last. split; [now apply idle_step|]. split.
    + intros a b [].
    + intros a Ha. now right.
Qed.

(** X9.  The gesture logic never fails, and it draws only between fingertips it
    has seen: over any sequence of frames from any pen position, the
    frames are all processed (the closest pair of three fingertips is
    always found), and every line on the canvas ends at the fingertip of a
    single-finger frame and starts at the fingertip of a single-finger
    frame or at the initial pen position. *)
Theorem gestures_never_fail (frames : list (list Point)) (last : option Point) :
  exists ops last',
    run_frames last frames = Some (ops, last') /\
    forall a b, In (Line a b) ops ->
      In [b] frames /\ (In [a] frames \/ last = Some a).
Proof.
  revert last. induction frames as [|tips frames IH]; intros last.
  - exists [], last. split; [reflexivity|]. intros a b [].
  - destruct (gesture_step_cases last tips) as (ops & last1 & Hstep & Hops & Hlast).
    destruct (IH last1) as (ops' & last2 & Hrun & Hops').
    exists (ops ++ ops'), last2. split.
    + cbn [run_frames]. now rewrite Hstep, Hrun.
    + intros a b Hin. apply in_app_or in Hin. destruct Hin as [Hin|Hin].
      * destruct (Hops a b Hin) as [Ht Hl]. subst tips last.
        split; [now left|now right].
      * destruct (Hops' a b Hin) as [Hb Ha]. split; [now right|].
        destruct Ha as [Ha|Ha]; [left; now right|].
        destruct (Hlast a Ha) as [Ht | Hl]; [subst tips; left; now left|now right].
Qed.

(** X10.  The pen outlives frames without a gesture.  After a frame with one
    fingertip [p], any number of frames with zero, four or more than five
    fingertips leave the pen down: the next single fingertip [q] is joined
    to [p] by a line, and nothing else is drawn.  A frame with two, three
    or five fingertips in between lifts the pen: it erases or clears, and
    the next single fingertip draws no line. *)
Theorem pen_survives_idle_frames (last : option Point) (p q : Point)
    (gap : list (list Point)) :
  Forall idle gap ->
  let before := match last with Some l => [Line l p] | None => [] end in
  run_frames last ([p] :: gap ++ [[q]]) = Some (before ++ [Line p q], Some q) /\
  forall lift, lifting lift ->
    exists o, (o = ClearAll \/ exists c, o = EraseAt c) /\
      run_frames last ([p] :: lift :: gap ++ [[q]]) = Some (before ++ [o], Some q).
Proof.
  intros Hgap before.
  assert (Hrun : forall st, run_frames st (gap ++ [[q]]) =
                            Some (match st with Some l => [Line l q] | None => [] end, Some q)).
  { intros st. clear before. induction Hgap as [|tips gap Ht _ IH]; simpl.
    - destruct st; reflexivity.
    - rewrite (idle_step _ _ Ht), IH. reflexivity. }
  split.
  - cbn [run_frames]. change (gesture_step last [p]) with (Some (before, Some p)).
    cbv beta iota.
    rewrite Hrun. reflexivity.
  - intros lift Hl. destruct (lifting_step (Some p) lift Hl) as (o & Ho & Hstep).
    exists o. split; [exact Ho|].
    cbn [run_frames]. change (gesture_step last [p]) with (Some (before, Some p)).
    cbv beta iota.
    rewrite Hstep, Hrun. cbv beta iota. cbn [app]. reflexivity.
Qed.

Lemma pen_survives_idle_frames_witness :
  run_frames None ([(5, 5)] :: [[]; [(1, 1); (2, 2); (3, 3); (4, 4)]] ++ [[(90, 70)]]) =
  Some ([] ++ [Line (5, 5) (90, 70)], Some (90, 70)).
Proof.
  apply (pen_survives_idle_frames None (5, 5) (90, 70) [[]; [(1, 1); (2, 2); (3, 3); (4, 4)]]).
  repeat constructor; unfold idle; simpl; lia.
Defined.

End GestureFacts.

(** * The end of a stage: matching the reference to the drawing and scoring *)

Module StageScore.
Import Raster Scorer Calib ImageUtil.

Local Open Scope Z_scope.

(** [np.zeros((h, w), dtype=np.uint8)] *)
Definition zeros (h w : Z) : raster Z := repeat (repeat 0 (Z.to_nat w)) (Z.to_nat h).

(** [dst[y1:y2, x1:x2] = src]; [None] when [src] has not the shape of the
    slice (numpy raises, or broadcasts a dimension of length 1). *)
Definition assign_block (dst : raster Z) (y1 y2 x1 x2 : Z) (src : raster Z)
  : option (raster Z) :=
  let ya := slice_bound (height dst) y1 in
  let yb := slice_bound (height dst) y2 in
  let xa := slice_bound (width dst) x1 in
  let xb := slice_bound (width dst) x2 in
  if list_eq_dec Nat.eq_dec (shape src)
       (repeat (Z.to_nat (xb - xa)) (Z.to_nat (yb - ya)))
  then Some (imap (fun y row =>
               imap (fun x v =>
                 if (ya <=? y) && (y <? yb) && ((xa <=? x) && (x <? xb))
                 then match get src (y - ya) (x - xa) with
                      | Some s => s
                      | None => v
                      end
                 else v) 0 row) 0 dst)
  else None.

(** Where the reference lands in the padded array. *)
Definition pad_offset (n_user n_ref : Z) : Z :=
  if n_ref <? n_user then (n_user - n_ref) / 2 else 0.

(** Lines 1023-1033: the reference made as large as the user drawing. *)
Definition match_reference (h_user w_user : Z) (ref_cropped : raster Z)
  : option (raster Z) :=
  let h_ref := height ref_cropped in
  let w_ref := width ref_cropped in
  if negb (h_user =? h_ref) || negb (w_user =? w_ref) then
    let pad_ref := zeros h_user w_user in
    let top := pad_offset h_user h_ref in
    let left_ := pad_offset w_user w_ref in
    let copy_h := Z.min h_ref h_user in
    let copy_w := Z.min w_ref w_user in
    assign_block pad_ref top (top + copy_h) left_ (left_ + copy_w)
                 (crop ref_cropped 0 copy_h 0 copy_w)
  else Some ref_cropped.

Section Stage.

Variable cvtColor_BGR2GRAY : Z * Z * Z -> Z.

(** Lines 1019-1036: the score of a stage from the final canvas and the
    cropped reference. *)
Definition stage_score (canvas : raster Triple) (ref_cropped : raster Z)
  : option score_result :=
  let user_drawing := create_user_drawing canvas in
  let h_user := height user_drawing in
  let w_user := width user_drawing in
  match match_reference h_user w_user ref_cropped with
  | Some ref_matched =>
      correlation_score_default cvtColor_BGR2GRAY (Color user_drawing) (Gray ref_matched)
  | None => None
  end.

End Stage.

End StageScore.

Module StageScoreFacts.
Import Raster Scorer Calib ImageUtil ImageUtilFacts StageScore.

Local Open Scope Z_scope.

Lemma shape_zeros h w : shape (zeros h w) = repeat (Z.to_nat w) (Z.to_nat h).
Proof.
  unfold zeros, shape. induction (Z.to_nat h) as [|n IH]; cbn [repeat map]; [reflexivity|].
  now rewrite repeat_length, IH.
Qed.

Lemma get_zeros h w y x v : get (zeros h w) y x = Some v -> v = 0.
Proof.
  intros H. apply ImageUtilFacts.get_some_iff in H as (_ & _ & row & Hrow & Hv).
  apply nth_error_In in Hrow, Hv. unfold zeros in Hrow.
  apply repeat_spec in Hrow. subst row. now apply repeat_spec in Hv.
Qed.

Lemma get_assign_block dst y1 y2 x1 x2 src out y x :
  assign_block dst y1 y2 x1 x2 src = Some out ->
  shape out = shape dst /\
  get out y x =
  match get dst y x with
  | Some v =>
      if (slice_bound (height dst) y1 <=? y) && (y <? slice_bound (height dst) y2) &&
         ((slice_bound (width dst) x1 <=? x) && (x <? slice_bound (width dst) x2))
      then match get src (y - slice_bound (height dst) y1) (x - slice_bound (width dst) x1) with
           | Some s => Some s
           | None => Some v
           end
      else Some v
  | None => None
  end.
Proof.
  unfold assign_block. destruct list_eq_dec as [_|]; [|discriminate].
  intros H. injection H as <-. split.
  - apply (ScorerFacts.shape_imap_rows (fun y x v =>
      if (slice_bound (height dst) y1 <=? y) && (y <? slice_bound (height dst) y2) &&
         ((slice_bound (width dst) x1 <=? x) && (x <? slice_bound (width dst) x2))
      then match get src (y - slice_bound (height dst) y1) (x - slice_bound (width dst) x1) with
           | Some s => s
           | None => v
           end
      else v)).
  - unfold get at 1 3.
    destruct (Z.leb_spec 0 y) as [Hy|Hy]; [|reflexivity].
    destruct (Z.leb_spec 0 x) as [Hx|Hx]; cbn [andb]; [|reflexivity].
    rewrite imap_nth_error, Z.add_0_l, Z2Nat.id by assumption.
    destruct (nth_error dst (Z.to_nat y)) as [row|]; cbn [option_map]; [|reflexivity].
    rewrite imap_nth_error, Z.add_0_l, Z2Nat.id by assumption.
    destruct (nth_error row (Z.to_nat x)) as [v|]; cbn [option_map]; [|reflexivity].
    destruct (_ && _); [|reflexivity].
    now destruct (get src _ _).
Qed.

Lemma pad_offset_fits n_user n_ref :
  0 <= n_ref -> 0 <= n_user ->
  0 <= pad_offset n_user n_ref /\
  pad_offset n_user n_ref + Z.min n_ref n_user <= n_user.
Proof.
  intros Hr Hu. unfold pad_offset.
  destruct (Z.ltb_spec n_ref n_user).
  - pose proof (Z.div_mod (n_user - n_ref) 2 ltac:(lia)).
    pose proof (Z.mod_pos_bound (n_user - n_ref) 2 ltac:(lia)). lia.
  - lia.
Qed.

Lemma all_pixels {A} (P : A -> Prop) (m : raster A) :
  (forall y x v, get m y x = Some v -> P v) -> Forall (Forall P) m.
Proof.
  intros H. apply Forall_forall. intros row Hrow. apply Forall_forall. intros v Hv.
  apply In_nth_error in Hrow as [y Hy]. apply In_nth_error in Hv as [x Hx].
  apply (H (Z.of_nat y) (Z.of_nat x)). apply ImageUtilFacts.get_some_iff.
  repeat split; try lia. exists row. now rewrite !Nat2Z.id.
Qed.

Lemma get_of_all {A} (P : A -> Prop) (m : raster A) y x v :
  Forall (Forall P) m -> get m y x = Some v -> P v.
Proof.
  intros H Hget. apply ImageUtilFacts.get_some_iff in Hget as (_ & _ & row & Hrow & Hv).
  rewrite Forall_forall in H. specialize (H row (nth_error_In _ _ Hrow)).
  rewrite Forall_forall in H. exact (H v (nth_error_In _ _ Hv)).
Qed.

Lemma count_row_none f r1 : forall r2,
  Forall (fun u => forall r, f u r = false) r1 -> count_row f r1 r2 = 0.
Proof.
  induction r1 as [|u r1 IH]; intros r2 H; [reflexivity|].
  destruct r2 as [|r r2]; [reflexivity|]. inversion H as [|? ? Hu Hrest]; subst.
  cbn [count_row]. now rewrite Hu, IH.
Qed.

Lemma count2_none f a : forall b,
  Forall (Forall (fun u => forall r, f u r = false)) a -> count2 f a b = 0.
Proof.
  induction a as [|r1 a IH]; intros b H; [reflexivity|].
  destruct b as [|r2 b]; [reflexivity|]. inversion H as [|? ? Hr Hrest]; subst.
  cbn [count2]. now rewrite count_row_none, IH.
Qed.

Lemma dilate_bounded (bound : Z) m k n :
  0 <= bound ->
  (forall y x v, get m y x = Some v -> v <= bound) ->
  forall y x v, get (dilate m k n) y x = Some v -> v <= bound.
Proof.
  intros Hb Hm. unfold dilate. cbv zeta.
  induction n as [|n IH]; [exact Hm|].
  intros y x v. rewrite Nat.iter_succ, ScorerFacts.get_dilate1.
  destruct (get _ y x); cbn [option_map]; [|discriminate].
  intros E. injection E as <-. unfold dilate_px.
  apply (ScorerFacts.fold_dil_le _ y x bound); [exact Hb|exact IH].
Qed.

Lemma match_reference_spec h_user w_user h_ref w_ref (ref_cropped : raster Z) :
  1 <= h_user -> 1 <= w_user -> 1 <= h_ref -> 1 <= w_ref ->
  rect h_ref w_ref ref_cropped ->
  let top := pad_offset h_user h_ref in
  let left_ := pad_offset w_user w_ref in
  exists ref_matched,
    match_reference h_user w_user ref_cropped = Some ref_matched /\
    rect h_user w_user ref_matched /\
    (forall y x, 0 <= y < h_user -> 0 <= x < w_user ->
       get ref_matched y x =
       if (top <=? y) && (y <? top + Z.min h_ref h_user) &&
          ((left_ <=? x) && (x <? left_ + Z.min w_ref w_user))
       then get ref_cropped (y - top) (x - left_)
       else Some 0).
Proof.
  intros Hhu Hwu Hhr Hwr Href top left_.
  pose proof (pad_offset_fits h_user h_ref ltac:(lia) ltac:(lia)) as [Htop Htop'].
  pose proof (pad_offset_fits w_user w_ref ltac:(lia) ltac:(lia)) as [Hleft Hleft'].
  fold top in Htop, Htop'. fold left_ in Hleft, Hleft'.
  unfold match_reference.
  rewrite (proj1 Href), (rect_width _ _ _ Href Hhr).
  fold top. fold left_.
  destruct (negb (h_user =? h_ref) || negb (w_user =? w_ref)) eqn:Ediff.
  - pose proof (crop_rect_min := ImageUtilFacts.crop_rect h_ref w_ref ref_cropped
      0 (Z.min h_ref h_user) 0 (Z.min w_ref w_user) Href
      ltac:(lia) ltac:(lia) ltac:(lia) ltac:(lia)).
    rewrite !Z.sub_0_r in crop_rect_min.
    assert (Hz : rect h_user w_user (zeros h_user w_user))
      by (apply shape_rect; [lia|lia|apply shape_zeros]).
    assert (Hya : slice_bound (height (zeros h_user w_user)) top = top).
    { rewrite (proj1 Hz). apply ImageUtilFacts.slice_bound_id. lia. }
    assert (Hyb : slice_bound (height (zeros h_user w_user)) (top + Z.min h_ref h_user)
                  = top + Z.min h_ref h_user).
    { rewrite (proj1 Hz). apply ImageUtilFacts.slice_bound_id. lia. }
    assert (Hxa : slice_bound (width (zeros h_user w_user)) left_ = left_).
    { rewrite (rect_width _ _ _ Hz Hhu). apply ImageUtilFacts.slice_bound_id. lia. }
    assert (Hxb : slice_bound (width (zeros h_user w_user)) (left_ + Z.min w_ref w_user)
                  = left_ + Z.min w_ref w_user).
    { rewrite (rect_width _ _ _ Hz Hhu). apply ImageUtilFacts.slice_bound_id. lia. }
    destruct (assign_block (zeros h_user w_user) top (top + Z.min h_ref h_user)
                left_ (left_ + Z.min w_ref w_user)
                (crop ref_cropped 0 (Z.min h_ref h_user) 0 (Z.min w_ref w_user)))
      as [out|] eqn:Eassign.
    + exists out. split; [reflexivity|].
      split.
      * apply shape_rect; [lia|lia|].
        rewrite (proj1 (get_assign_block _ _ _ _ _ _ _ 0 0 Eassign)).
        apply shape_zeros.
      * intros y x Hy Hx.
        rewrite (proj2 (get_assign_block _ _ _ _ _ _ _ y x Eassign)).
        rewrite Hya, Hyb, Hxa, Hxb.
        destruct (rect_get _ _ _ y x Hz Hy Hx) as [v Hv]. rewrite Hv.
        apply get_zeros in Hv. subst v.
        destruct ((top <=? y) && (y <? top + Z.min h_ref h_user) &&
                  ((left_ <=? x) && (x <? left_ + Z.min w_ref w_user))) eqn:Ein;
          [|reflexivity].
        apply andb_prop in Ein as [Ey Ex].
        apply andb_prop in Ey as [Ey1 Ey2]. apply andb_prop in Ex as [Ex1 Ex2].
        apply Z.leb_le in Ey1, Ex1. apply Z.ltb_lt in Ey2, Ex2.
        rewrite (ImageUtilFacts.get_crop h_ref w_ref) by (assumption || lia).
        rewrite !Z.sub_0_r, !Z.add_0_l.
        replace ((0 <=? y - top) && (y - top <? Z.min h_ref h_user) &&
                 ((0 <=? x - left_) && (x - left_ <? Z.min w_ref w_user))) with true.
        2:{ symmetry. rewrite !andb_true_iff, !Z.leb_le, !Z.ltb_lt. lia. }
        destruct (rect_get _ _ _ (y - top) (x - left_) Href ltac:(lia) ltac:(lia))
          as [s Hs].
        now rewrite Hs.
    + exfalso. unfold assign_block in Eassign.
      rewrite Hya, Hyb, Hxa, Hxb in Eassign.
      replace (top + Z.min h_ref h_user - top) with (Z.min h_ref h_user) in Eassign by lia.
      replace (left_ + Z.min w_ref w_user - left_) with (Z.min w_ref w_user) in Eassign by lia.
      rewrite (rect_shape _ _ _ crop_rect_min) in Eassign.
      destruct list_eq_dec as [|n] in Eassign; [discriminate|now apply n].
  - apply orb_false_elim in Ediff as [Eh Ew].
    apply negb_false_iff in Eh, Ew. apply Z.eqb_eq in Eh, Ew. subst h_ref w_ref.
    exists ref_cropped. split; [reflexivity|]. split; [exact Href|].
    intros y x Hy Hx.
    assert (top = 0) as -> by (unfold top, pad_offset; now rewrite Z.ltb_irrefl).
    assert (left_ = 0) as -> by (unfold left_, pad_offset; now rewrite Z.ltb_irrefl).
    rewrite !Z.sub_0_r, !Z.add_0_l, !Z.min_id.
    replace ((0 <=? y) && (y <? h_user) && ((0 <=? x) && (x <? w_user))) with true.
    2:{ symmetry. rewrite !andb_true_iff, !Z.leb_le, !Z.ltb_lt. lia. }
    reflexivity.
Qed.

Lemma stage_score_unfold cvt h_user w_user (canvas : raster Triple) ref_cropped :
  rect h_user w_user canvas -> 1 <= h_user ->
  stage_score cvt canvas ref_cropped =
  match match_reference h_user w_user ref_cropped with
  | Some ref_matched => correlation_score_default cvt (Color canvas) (Gray ref_matched)
  | None => None
  end.
Proof.
  intros Hcanvas Hhu. unfold stage_score.
  rewrite (ImageUtilFacts.user_drawing_copy _ _ _ Hcanvas).
  now rewrite (proj1 Hcanvas), (rect_width _ _ _ Hcanvas Hhu).
Qed.

Lemma same_shape_rect {A B} h w (a : raster A) (b : raster B) :
  rect h w a -> rect h w b -> same_shape a b = true.
Proof.
  intros Ha Hb. apply ImageUtilFacts.same_shape_iff.
  transitivity (repeat (Z.to_nat w) (Z.to_nat h)).
  - exact (rect_shape _ _ _ Ha).
  - symmetry. exact (rect_shape _ _ _ Hb).
Qed.

Section Stage.

Variable cvtColor_BGR2GRAY : Z * Z * Z -> Z.

Lemma stage_score_range h_user w_user h_ref w_ref
    (canvas : raster Triple) (ref_cropped : raster Z) :
  1 <= h_user -> 1 <= w_user -> 1 <= h_ref -> 1 <= w_ref ->
  rect h_user w_user canvas -> rect h_ref w_ref ref_cropped ->
  exists res,
    stage_score cvtColor_BGR2GRAY canvas ref_cropped = Some res /\
    (0 <= final_score res <= 100)%Q.
Proof.
  intros Hhu Hwu Hhr Hwr Hcanvas Href.
  destruct (match_reference_spec h_user w_user h_ref w_ref ref_cropped
              Hhu Hwu Hhr Hwr Href) as (ref_matched & Hm & Hrect & _).
  rewrite (stage_score_unfold _ h_user w_user) by assumption. rewrite Hm.
  unfold correlation_score_default.
  rewrite ScorerFacts.correlation_score_same_shape.
  2:{ cbn [to_gray]. apply (same_shape_rect h_user w_user).
      - apply shape_rect; [lia|lia|]. rewrite shape_pointwise.
        exact (rect_shape _ _ _ Hcanvas).
      - exact Hrect. }
  2:{ destruct (rect_get h_user w_user canvas 0 0 Hcanvas ltac:(lia) ltac:(lia)) as [p Hp].
      exists 0, 0, (cvtColor_BGR2GRAY p). cbn [to_gray].
      rewrite get_pointwise. unfold Triple in Hp. now rewrite Hp. }
  cbv zeta.
  eexists. split; [reflexivity|]. cbn [final_score].
  apply ScorerFacts.score_cap_range; [|discriminate].
  apply ScorerFacts.accuracy_of_nonneg; apply ScorerFacts.count2_nonneg.
Qed.

(** X11.  The reference is always brought to the size of the drawing, so the
    stage is always scored.  For a canvas of [h_user] by [w_user] pixels
    and a reference of any size, the matched reference has the canvas's
    size; it holds the top-left [min] by [min] part of the reference,
    centred when the reference is the smaller one, on a background of
    zeros; and the scorer returns a score between 0 and 100. *)
Theorem stage_is_always_scored (h_user w_user h_ref w_ref : Z)
    (canvas : raster Triple) (ref_cropped : raster Z) :
  1 <= h_user -> 1 <= w_user -> 1 <= h_ref -> 1 <= w_ref ->
  rect h_user w_user canvas -> rect h_ref w_ref ref_cropped ->
  let top := pad_offset h_user h_ref in
  let left_ := pad_offset w_user w_ref in
  exists ref_matched res,
    match_reference h_user w_user ref_cropped = Some ref_matched /\
    rect h_user w_user ref_matched /\
    (forall y x, 0 <= y < h_user -> 0 <= x < w_user ->
       get ref_matched y x =
       if (top <=? y) && (y <? top + Z.min h_ref h_user) &&
          ((left_ <=? x) && (x <? left_ + Z.min w_ref w_user))
       then get ref_cropped (y - top) (x - left_)
       else Some 0) /\
    stage_score cvtColor_BGR2GRAY canvas ref_cropped = Some res /\
    (0 <= final_score res <= 100)%Q.
Proof.
  intros Hhu Hwu Hhr Hwr Hcanvas Href top left_.
  destruct (match_reference_spec h_user w_user h_ref w_ref ref_cropped
              Hhu Hwu Hhr Hwr Href) as (ref_matched & Hm & Hrect & Hpix).
  destruct (stage_score_range h_user w_user h_ref w_ref canvas ref_cropped
              Hhu Hwu Hhr Hwr Hcanvas Href) as (res & Hres & Hrange).
  exists ref_matched, res.
  split; [exact Hm|]. split; [exact Hrect|]. split; [exact Hpix|].
  split; [exact Hres|exact Hrange].
Qed.

(** X12.  A drawing without ink scores nothing.  When every pixel of the canvas
    converts to a grey level above 127 (an untouched canvas is white),
    the stage score is 0 whatever the reference. *)
Theorem light_canvas_scores_zero (h_user w_user h_ref w_ref : Z)
    (canvas : raster Triple) (ref_cropped : raster Z) :
  1 <= h_user -> 1 <= w_user -> 1 <= h_ref -> 1 <= w_ref ->
  rect h_user w_user canvas -> rect h_ref w_ref ref_cropped ->
  Forall (Forall (fun p => 127 < cvtColor_BGR2GRAY p)) canvas ->
  exists res,
    stage_score cvtColor_BGR2GRAY canvas ref_cropped = Some res /\
    count2 both_255 (user_dil res) (ref_dil res) = 0 /\
    (final_score res == 0)%Q.
Proof.
  intros Hhu Hwu Hhr Hwr Hcanvas Href Hlight.
  destruct (match_reference_spec h_user w_user h_ref w_ref ref_cropped
              Hhu Hwu Hhr Hwr Href) as (ref_matched & Hm & Hrect & _).
  rewrite (stage_score_unfold _ h_user w_user) by assumption. rewrite Hm.
  unfold correlation_score_default.
  rewrite ScorerFacts.correlation_score_same_shape.
  2:{ cbn [to_gray]. apply (same_shape_rect h_user w_user).
      - apply shape_rect; [lia|lia|]. rewrite shape_pointwise.
        exact (rect_shape _ _ _ Hcanvas).
      - exact Hrect. }
  2:{ destruct (rect_get h_user w_user canvas 0 0 Hcanvas ltac:(lia) ltac:(lia)) as [p Hp].
      exists 0, 0, (cvtColor_BGR2GRAY p). cbn [to_gray].
      rewrite get_pointwise. unfold Triple in Hp. now rewrite Hp. }
  cbv zeta.
  eexists. split; [reflexivity|]. cbn [user_dil ref_dil final_score].
  assert (Hzero : forall ref_dil,
            count2 both_255
              (dilate (threshold_binary_inv 127 255 (to_gray cvtColor_BGR2GRAY (Color canvas)))
                      (getStructuringElement_ellipse 10) 6) ref_dil = 0).
  { intros ref_dil. apply count2_none. apply all_pixels. intros y x v Hv r.
    apply (dilate_bounded 0) in Hv; [|lia|].
    - unfold both_255. destruct (Z.eqb_spec v 255); [lia|reflexivity].
    - intros y' x' v'. rewrite ScorerFacts.get_threshold_binary_inv.
      cbn [to_gray]. rewrite get_pointwise.
      destruct (get _ y' x') as [p|] eqn:Ep; cbn [option_map]; [|discriminate].
      intros E. injection E as <-.
      pose proof (get_of_all _ canvas _ _ _ Hlight Ep) as Hp. cbn beta in Hp.
      destruct (Z.gtb_spec (cvtColor_BGR2GRAY p) 127); lia. }
  split; [apply Hzero|].
  rewrite Hzero. unfold accuracy_of.
  destruct (_ =? 0); reflexivity.
Qed.

End Stage.

Lemma stage_is_always_scored_witness :
  exists ref_matched res,
    match_reference 3 4 [[255; 255]] = Some ref_matched /\
    rect 3 4 ref_matched /\
    (forall y x, 0 <= y < 3 -> 0 <= x < 4 ->
       get ref_matched y x =
       if (pad_offset 3 1 <=? y) && (y <? pad_offset 3 1 + Z.min 1 3) &&
          ((pad_offset 4 2 <=? x) && (x <? pad_offset 4 2 + Z.min 2 4))
       then get [[255; 255]] (y - pad_offset 3 1) (x - pad_offset 4 2)
       else Some 0) /\
    stage_score bgr2gray_fixed (repeat (repeat white 4) 3) [[255; 255]] = Some res /\
    (0 <= final_score res <= 100)%Q.
Proof.
  apply (stage_is_always_scored bgr2gray_fixed 3 4 1 2); try lia.
  - split; [reflexivity|]. repeat constructor.
  - split; [reflexivity|]. repeat constructor.
Defined.

Lemma light_canvas_scores_zero_witness :
  exists res,
    stage_score bgr2gray_fixed (repeat (repeat white 4) 3) [[255; 255]] = Some res /\
    count2 both_255 (user_dil res) (ref_dil res) = 0 /\
    (final_score res == 0)%Q.
Proof.
  apply (light_canvas_scores_zero bgr2gray_fixed 3 4 1 2); try lia.
  - split; [reflexivity|]. repeat constructor.
  - split; [reflexivity|]. repeat constructor.
  - repeat constructor.
Defined.

End StageScoreFacts.

(** * Where the calibrators sample, and when they fail *)

Module SampleFacts.
Import Raster Fingers Calib ImageUtil ImageUtilFacts StageScoreFacts.

Local Open Scope Z_scope.

Lemma slice_bound_range n i : 0 <= n -> 0 <= slice_bound n i <= n.
Proof. intros Hn. unfold slice_bound. destruct (Z.ltb_spec i 0); lia. Qed.

Lemma py_slice_normalize {A} (l : list A) a b :
  py_slice l a b =
  py_slice l (slice_bound (Z.of_nat (length l)) a) (slice_bound (Z.of_nat (length l)) b).
Proof.
  unfold py_slice.
  rewrite !(slice_bound_id _ (slice_bound _ _)) by (apply slice_bound_range; lia).
  reflexivity.
Qed.

Lemma py_slice_in {A} (l : list A) a b e : In e (py_slice l a b) -> In e l.
Proof.
  unfold py_slice. intros H.
  set (k := Z.to_nat (slice_bound (Z.of_nat (length l)) a)) in *.
  set (n := Z.to_nat _) in H.
  rewrite <- (firstn_skipn k l). apply in_or_app. right.
  rewrite <- (firstn_skipn n (skipn k l)). apply in_or_app. now left.
Qed.

Lemma crop_normalize {A} h w (m : raster A) y1 y2 x1 x2 :
  rect h w m ->
  crop m y1 y2 x1 x2 =
  crop m (slice_bound h y1) (slice_bound h y2) (slice_bound w x1) (slice_bound w x2).
Proof.
  intros Hr. pose proof Hr as [Hh _]. unfold height in Hh. unfold crop.
  rewrite (py_slice_normalize m y1 y2), Hh.
  apply map_ext_in. intros row Hin. apply py_slice_in in Hin.
  rewrite (py_slice_normalize row x1 x2), (rect_rows _ _ _ _ Hr Hin). reflexivity.
Qed.

Lemma py_slice_empty {A} (l : list A) a b :
  slice_bound (Z.of_nat (length l)) b <= slice_bound (Z.of_nat (length l)) a ->
  py_slice l a b = [].
Proof.
  intros H. unfold py_slice.
  replace (Z.to_nat _) with 0%nat by lia. reflexivity.
Qed.

Lemma rect_pixels_nonempty {A} h w (m : raster A) :
  rect h w m -> 1 <= h -> 1 <= w -> pixels m <> [].
Proof.
  intros [Hh Hrows] H1 H2. unfold height in Hh.
  destruct m as [|row m]; cbn [length] in Hh; [lia|].
  inversion Hrows as [|? ? Hrow _]; subst.
  destruct row as [|p row]; cbn [length] in H2; [lia|]. discriminate.
Qed.

Lemma empty_columns_no_pixels {A} (m : raster A) y1 y2 x1 x2 h w :
  rect h w m -> slice_bound w x2 <= slice_bound w x1 ->
  pixels (crop m y1 y2 x1 x2) = [].
Proof.
  intros Hr Hx. unfold pixels, crop.
  assert (H : forall rows, (forall row, In row rows -> In row m) ->
                           concat (map (fun row => py_slice row x1 x2) rows) = []).
  { induction rows as [|row rows IH]; intros Hin; [reflexivity|].
    cbn [map concat]. rewrite py_slice_empty.
    - apply IH. intros r Hr'. apply Hin. now right.
    - rewrite (rect_rows _ _ _ _ Hr (Hin row (or_introl eq_refl))). exact Hx. }
  apply H. intros row. apply py_slice_in.
Qed.

Section Calibrators.

Variable BGR2HSV : Triple -> Triple.
Variable BGR2YCrCb : Triple -> Triple.
Variable numpy : promotion.

(** X13.  The manual calibration never fails on a frame with at least one pixel,
    and this is the patch it samples: rows [y0 .. y1 - 1] and columns
    [x0 .. x1 - 1] of the frame.  On a frame of at least 25 rows these are
    the 25 rows from [h / 2 - 12]; on a frame of fewer than 24 rows the
    negative start index counts from the end, so the patch is the bottom
    of the frame, from row [h + h / 2 - 12] if that is positive.
    Likewise for the columns. *)
Theorem calibration_patch (h w : Z) (frame : raster Triple) :
  rect h w frame -> 1 <= h -> 1 <= w ->
  let y0 := slice_bound h (h / 2 - 12) in
  let x0 := slice_bound w (w / 2 - 12) in
  let y1 := Z.min (h / 2 + 13) h in
  let x1 := Z.min (w / 2 + 13) w in
  calibrate_skin_color BGR2HSV BGR2YCrCb frame =
    Some (ranges_of_stats (sample_stats BGR2HSV BGR2YCrCb (center_region frame))) /\
  rect (y1 - y0) (x1 - x0) (center_region frame) /\
  (forall i j, 0 <= i < y1 - y0 -> 0 <= j < x1 - x0 ->
     get (center_region frame) i j = get frame (y0 + i) (x0 + j)) /\
  1 <= y1 - y0 <= 25 /\ 1 <= x1 - x0 <= 25 /\
  (25 <= h -> y0 = h / 2 - 12 /\ y1 = y0 + 25) /\
  (25 <= w -> x0 = w / 2 - 12 /\ x1 = x0 + 25) /\
  (h < 24 -> y0 = Z.max 0 (h + h / 2 - 12) /\ y1 = h) /\
  (w < 24 -> x0 = Z.max 0 (w + w / 2 - 12) /\ x1 = w).
Proof.
  intros Hr Hh Hw y0 x0 y1 x1.
  pose proof (Z.div_mod h 2 ltac:(lia)). pose proof (Z.mod_pos_bound h 2 ltac:(lia)).
  pose proof (Z.div_mod w 2 ltac:(lia)). pose proof (Z.mod_pos_bound w 2 ltac:(lia)).
  assert (Hy1 : slice_bound h (h / 2 + 13) = y1).
  { unfold slice_bound, y1. destruct (Z.ltb_spec (h / 2 + 13) 0); lia. }
  assert (Hx1 : slice_bound w (w / 2 + 13) = x1).
  { unfold slice_bound, x1. destruct (Z.ltb_spec (w / 2 + 13) 0); lia. }
  assert (Hy : 0 <= y0 /\ 1 <= y1 - y0 <= 25 /\ y1 <= h /\
               (25 <= h -> y0 = h / 2 - 12 /\ y1 = y0 + 25) /\
               (h < 24 -> y0 = Z.max 0 (h + h / 2 - 12) /\ y1 = h)).
  { unfold y0, y1, slice_bound. destruct (Z.ltb_spec (h / 2 - 12) 0); lia. }
  assert (Hx : 0 <= x0 /\ 1 <= x1 - x0 <= 25 /\ x1 <= w /\
               (25 <= w -> x0 = w / 2 - 12 /\ x1 = x0 + 25) /\
               (w < 24 -> x0 = Z.max 0 (w + w / 2 - 12) /\ x1 = w)).
  { unfold x0, x1, slice_bound. destruct (Z.ltb_spec (w / 2 - 12) 0); lia. }
  destruct Hy as (Hy0 & Hyd & Hyh & Hy25 & Hy24).
  destruct Hx as (Hx0 & Hxd & Hxw & Hx25 & Hx24).
  assert (Hregion : center_region frame = crop frame y0 y1 x0 x1).
  { unfold center_region. rewrite (proj1 Hr), (rect_width h w frame Hr Hh).
    rewrite (crop_normalize h w) by exact Hr. now rewrite Hy1, Hx1. }
  assert (Hrect : rect (y1 - y0) (x1 - x0) (center_region frame)).
  { rewrite Hregion. apply (crop_rect h w); (assumption || lia). }
  split; [|split; [exact Hrect|split; [|repeat split; (assumption || lia)]]].
  - unfold calibrate_skin_color.
    pose proof (rect_pixels_nonempty _ _ _ Hrect ltac:(lia) ltac:(lia)) as Hne.
    destruct (pixels (center_region frame)); [contradiction|reflexivity].
  - intros i j Hi Hj. rewrite Hregion, (get_crop h w) by (assumption || lia).
    replace ((0 <=? i) && (i <? y1 - y0) && ((0 <=? j) && (j <? x1 - x0))) with true.
    2:{ symmetry. rewrite !andb_true_iff, !Z.leb_le, !Z.ltb_lt. lia. }
    reflexivity.
Qed.

Lemma auto_calibrate_inside h w (frame : raster Triple) cur cx cy box_size :
  rect h w frame -> 2 <= h -> 2 <= w -> 2 <= box_size ->
  0 <= cx <= w - 1 -> 0 <= cy <= h - 1 ->
  let x1 := Z.max (cx - box_size / 2) 0 in
  let y1 := Z.max (cy - box_size / 2) 0 in
  let x2 := Z.min (cx + box_size / 2) (w - 1) in
  let y2 := Z.min (cy + box_size / 2) (h - 1) in
  0 <= x1 < x2 /\ x2 <= w - 1 /\ 0 <= y1 < y2 /\ y2 <= h - 1 /\
  rect (y2 - y1) (x2 - x1) (crop frame y1 y2 x1 x2) /\
  exists new,
    auto_calibrate_skin_color BGR2HSV BGR2YCrCb numpy cur frame cx cy box_size
      = Some (new, (x1, y1, x2, y2)) /\
    (new = cur \/
     new = ranges_of_stats (sample_stats BGR2HSV BGR2YCrCb (crop frame y1 y2 x1 x2))).
Proof.
  intros Hr Hh Hw Hb Hcx Hcy x1 y1 x2 y2.
  pose proof (Z.div_mod box_size 2 ltac:(lia)).
  pose proof (Z.mod_pos_bound box_size 2 ltac:(lia)).
  unfold auto_calibrate_skin_color, auto_box.
  rewrite (proj1 Hr), (rect_width h w frame Hr ltac:(lia)).
  fold x1 y1 x2 y2.
  assert (Hrect : rect (y2 - y1) (x2 - x1) (crop frame y1 y2 x1 x2))
    by (apply (crop_rect h w); (assumption || lia)).
  repeat split; try lia; try exact (proj1 Hrect); try exact (proj2 Hrect).
  pose proof (rect_pixels_nonempty _ _ _ Hrect ltac:(lia) ltac:(lia)) as Hne.
  destruct (pixels (crop frame y1 y2 x1 x2)); [contradiction|].
  destruct (drift_exceeded numpy cur _); eexists; (split; [reflexivity|]);
    [now left|now right].
Qed.

Lemma auto_calibrate_outside h w (frame : raster Triple) cur cx cy box_size :
  rect h w frame -> 2 <= h -> 2 <= w -> 2 <= box_size ->
  w - 1 <= cx - box_size / 2 ->
  auto_calibrate_skin_color BGR2HSV BGR2YCrCb numpy cur frame cx cy box_size = None.
Proof.
  intros Hr Hh Hw Hb Hfar.
  pose proof (Z.div_mod box_size 2 ltac:(lia)).
  pose proof (Z.mod_pos_bound box_size 2 ltac:(lia)).
  unfold auto_calibrate_skin_color, auto_box.
  rewrite (proj1 Hr), (rect_width h w frame Hr ltac:(lia)).
  set (x1 := Z.max (cx - box_size / 2) 0). set (y1 := Z.max (cy - box_size / 2) 0).
  set (x2 := Z.min (cx + box_size / 2) (w - 1)). set (y2 := Z.min (cy + box_size / 2) (h - 1)).
  rewrite (empty_columns_no_pixels frame y1 y2 x1 x2 h w Hr); [reflexivity|].
  unfold slice_bound.
  destruct (Z.ltb_spec x2 0); destruct (Z.ltb_spec x1 0); lia.
Qed.

(** X14.  The automatic calibration samples the box
    [max (c - s / 2) 0 .. min (c + s / 2) (n - 1) - 1] on each axis, so it
    never reads the last row or column.  Around a centre inside a frame of
    at least 2 by 2 pixels the box is not empty and the call returns it,
    leaving the committed ranges alone or replacing them by the ranges of
    the sample.  Around a centre at least [s / 2] pixels beyond the last
    column the box is empty and the call fails. *)
Theorem auto_calibration_box (h w : Z) (frame : raster Triple) (cur : SkinRanges)
    (cx cy box_size : Z) :
  rect h w frame -> 2 <= h -> 2 <= w -> 2 <= box_size ->
  let '(x1, y1, x2, y2) := auto_box frame cx cy box_size in
  (0 <= cx <= w - 1 -> 0 <= cy <= h - 1 ->
     0 <= x1 < x2 /\ x2 <= w - 1 /\ 0 <= y1 < y2 /\ y2 <= h - 1 /\
     rect (y2 - y1) (x2 - x1) (crop frame y1 y2 x1 x2) /\
     exists new,
       auto_calibrate_skin_color BGR2HSV BGR2YCrCb numpy cur frame cx cy box_size
         = Some (new, (x1, y1, x2, y2)) /\
       (new = cur \/
        new = ranges_of_stats (sample_stats BGR2HSV BGR2YCrCb (crop frame y1 y2 x1 x2)))) /\
  (w - 1 <= cx - box_size / 2 ->
     auto_calibrate_skin_color BGR2HSV BGR2YCrCb numpy cur frame cx cy box_size = None).
Proof.
  intros Hr Hh Hw Hb. unfold auto_box.
  rewrite (proj1 Hr), (rect_width h w frame Hr ltac:(lia)).
  split.
  - intros Hcx Hcy. now apply auto_calibrate_inside.
  - intros Hfar. now apply (auto_calibrate_outside h w).
Qed.

End Calibrators.

Lemma calibration_patch_witness :
  rect 25 25 (center_region (uniform_frame 60 80 (120, 150, 200))) /\
  slice_bound 60 (60 / 2 - 12) = 18.
Proof.
  pose proof (calibration_patch sample_BGR2HSV sample_BGR2YCrCb 60 80
                (uniform_frame 60 80 (120, 150, 200))) as H.
  cbv zeta in H.
  destruct H as (_ & Hrect & _).
  - split; [reflexivity|]. unfold uniform_frame.
    apply Forall_forall. intros row Hin. apply repeat_spec in Hin. subst row.
    now rewrite repeat_length.
  - lia.
  - lia.
  - split; [exact Hrect|reflexivity].
Defined.

Lemma auto_calibration_box_witness :
  auto_calibrate_skin_color sample_BGR2HSV sample_BGR2YCrCb ValueBased
    (ranges_of_stats {| peak_hue := 11; std_dev_hsv := 0; cr_mean := 155;
                        cb_mean := 104; std_dev_crcb := 25 |})
    (uniform_frame 60 80 (120, 150, 200)) 104 30 50 = None.
Proof.
  pose proof (auto_calibration_box sample_BGR2HSV sample_BGR2YCrCb ValueBased 60 80
                (uniform_frame 60 80 (120, 150, 200))
                (ranges_of_stats {| peak_hue := 11; std_dev_hsv := 0; cr_mean := 155;
                                    cb_mean := 104; std_dev_crcb := 25 |})
                104 30 50) as H.
  cbv beta iota zeta delta [auto_box] in H.
  apply H; try lia; [|vm_compute; discriminate].
  split; [reflexivity|]. unfold uniform_frame.
  apply Forall_forall. intros row Hin. apply repeat_spec in Hin. subst row.
  now rewrite repeat_length.
Defined.

End SampleFacts.

(** * Tracking and recalibration in the frame loop of [run_stage] *)

Module StageLoop.
Import Raster Fingers Calib Roi.

Local Open Scope Z_scope.

(** The module-level interval of the automatic calibration. *)
Definition auto_calib_interval : Z := 70.

Section Loop.

Variable BGR2HSV : Triple -> Triple.
Variable BGR2YCrCb : Triple -> Triple.
Variable numpy : promotion.

(** Lines 904-925: the ROI update and the periodic recalibration, from the
    clamped ROI [r] of the frame, the committed ranges, the frame, the
    frame counter and the contour [detect_hand] returned ([biggest_mask]
    is never [None]).  [None] stands for an exception. *)
Definition track_and_calibrate (screen_w screen_h : Z) (r : roi) (cur : SkinRanges)
    (original_frame : raster Triple) (local_frame_count : Z)
    (max_contour : option Contour) : option (roi * SkinRanges) :=
  let r' :=
    match max_contour with
    | Some c =>
        let '(xC, yC, wC, hC) := boundingRect c in
        track_roi screen_w screen_h r xC yC wC hC
    | None => r
    end in
  match max_contour with
  | Some c =>
      if local_frame_count mod auto_calib_interval =? 0 then
        let '(xF, yF, wF, hF) := boundingRect c in
        match auto_calibrate_skin_color BGR2HSV BGR2YCrCb numpy cur original_frame
                (roi_x r' + xF + wF / 2) (roi_y r' + yF + hF / 2) 50 with
        | Some (cur', _) => Some (r', cur')
        | None => None
        end
      else Some (r', cur)
  | None => Some (r', cur)
  end.

End Loop.

End StageLoop.

Module StageLoopFacts.
Import Raster Fingers Calib ImageUtil Roi StageLoop.

Local Open Scope Z_scope.

Section Loop.

Variable BGR2HSV : Triple -> Triple.
Variable BGR2YCrCb : Triple -> Triple.
Variable numpy : promotion.

(** X15.  Every 70th frame with a contour, the automatic calibration is centred
    on the contour's offset in the ROI of the frame added to the origin of
    the ROI as already updated for the next frame.  When that centre lies
    inside the screen the frame goes on with the new ROI and with ranges
    that are the old ones or those of the 50-pixel box around that centre;
    when it lies 25 pixels or more beyond the last column, the frame
    fails. *)
Theorem recalibration_uses_updated_roi (screen_w screen_h : Z) (r : roi)
    (cur : SkinRanges) (frame : raster Triple) (local_frame_count : Z) (c : Contour) :
  rect screen_h screen_w frame -> 2 <= screen_h -> 2 <= screen_w ->
  local_frame_count mod 70 = 0 ->
  let '(xC, yC, wC, hC) := boundingRect c in
  let r' := track_roi screen_w screen_h r xC yC wC hC in
  let cx := roi_x r' + xC + wC / 2 in
  let cy := roi_y r' + yC + hC / 2 in
  (0 <= cx <= screen_w - 1 -> 0 <= cy <= screen_h - 1 ->
     exists new,
       track_and_calibrate BGR2HSV BGR2YCrCb numpy screen_w screen_h r cur frame
         local_frame_count (Some c) = Some (r', new) /\
       (new = cur \/
        new = ranges_of_stats (sample_stats BGR2HSV BGR2YCrCb
                (crop frame (Z.max (cy - 25) 0) (Z.min (cy + 25) (screen_h - 1))
                            (Z.max (cx - 25) 0) (Z.min (cx + 25) (screen_w - 1)))))) /\
  (screen_w + 24 <= cx ->
     track_and_calibrate BGR2HSV BGR2YCrCb numpy screen_w screen_h r cur frame
       local_frame_count (Some c) = None).
Proof.
  intros Hr Hh Hw Hcount.
  destruct (boundingRect c) as [[[xC yC] wC] hC] eqn:Ebox.
  intros r' cx cy. unfold track_and_calibrate, auto_calib_interval.
  rewrite Ebox, Hcount. cbn [Z.eqb]. fold r'. fold cx. fold cy.
  split.
  - intros Hcx Hcy.
    destruct (SampleFacts.auto_calibrate_inside BGR2HSV BGR2YCrCb numpy
                screen_h screen_w frame cur cx cy 50 Hr Hh Hw ltac:(lia) Hcx Hcy)
      as (_ & _ & _ & _ & _ & new & Hnew & Hcases).
    rewrite Hnew. exists new. split; [reflexivity|]. exact Hcases.
  - intros Hfar.
    rewrite (SampleFacts.auto_calibrate_outside BGR2HSV BGR2YCrCb numpy
               screen_h screen_w frame cur cx cy 50 Hr Hh Hw ltac:(lia)); [reflexivity|].
    change (50 / 2) with 25. lia.
Qed.

End Loop.

(** A contour of 100 by 100 pixels, 200 pixels into a ROI that starts at
    column 300 of a 640-pixel screen: the hand spans columns 500 to 599,
    the calibration is centred on column 725. *)
Lemma recalibration_uses_updated_roi_witness :
  track_and_calibrate sample_BGR2HSV sample_BGR2YCrCb ValueBased 640 480
    {| roi_x := 300; roi_y := 0; roi_w := 340; roi_h := 480 |}
    (ranges_of_stats {| peak_hue := 11; std_dev_hsv := 0; cr_mean := 155;
                        cb_mean := 104; std_dev_crcb := 25 |})
    (uniform_frame 480 640 (120, 150, 200)) 70
    (Some [(200, 100); (299, 100); (299, 199); (200, 199)]) = None.
Proof.
  pose proof (recalibration_uses_updated_roi sample_BGR2HSV sample_BGR2YCrCb ValueBased
                640 480 {| roi_x := 300; roi_y := 0; roi_w := 340; roi_h := 480 |}
                (ranges_of_stats {| peak_hue := 11; std_dev_hsv := 0; cr_mean := 155;
                                    cb_mean := 104; std_dev_crcb := 25 |})
                (uniform_frame 480 640 (120, 150, 200)) 70
                [(200, 100); (299, 100); (299, 199); (200, 199)]) as H.
  change (boundingRect [(200, 100); (299, 100); (299, 199); (200, 199)])
    with (200, 100, 100, 100) in H.
  cbv beta iota zeta in H.
  apply H; try lia; try reflexivity; [|vm_compute; discriminate].
  split; [reflexivity|]. unfold uniform_frame.
  apply Forall_forall. intros row Hin. apply repeat_spec in Hin. subst row.
  now rewrite repeat_length.
Defined.

End StageLoopFacts.

(** * The forearm cut on any box and any parameters *)

Module ForearmErases.
Import Raster Forearm.

Local Open Scope Z_scope.

Lemma shape_rows_cond {A} (p : Z -> bool) (g : Z -> A -> A) (m : raster A) : forall i,
  shape (imap (fun r row => if p r then imap g 0 row else row) i m) = shape m.
Proof.
  unfold shape. induction m as [|row m IH]; intros i; cbn [imap map]; [reflexivity|].
  rewrite IH. f_equal. destruct (p i); [apply imap_length|reflexivity].
Qed.

Lemma shape_assign_zero mask r0 r1 c0 c1 :
  shape (assign_zero mask r0 r1 c0 c1) = shape mask.
Proof.
  unfold assign_zero.
  apply (shape_rows_cond
           (fun r => (slice_bound (height mask) r0 <=? r) && (r <? slice_bound (height mask) r1))
           (fun c v => if (slice_bound (width mask) c0 <=? c) && (c <? slice_bound (width mask) c1)
                       then 0 else v)).
Qed.

(** X16.  Whatever the box, the ratio and the run length, the forearm cut only
    erases: when the call returns, the mask keeps its shape and every
    pixel is the old one or 0; a returned False means the mask is the one
    passed in, and True is returned only for a box of at least 10 rows. *)
Theorem cut_forearm_only_erases (mask mask' : raster Z) (x y w h : Z)
    (min_ratio : Q) (consecutive_rows : Z) (cut : bool) :
  cut_forearm_automatically mask x y w h min_ratio consecutive_rows = Some (mask', cut) ->
  shape mask' = shape mask /\
  (forall r c v, get mask' r c = Some v -> v = 0 \/ get mask r c = Some v) /\
  (cut = false -> mask' = mask) /\
  (cut = true -> 10 <= h).
Proof.
  unfold cut_forearm_automatically.
  assert (Hsame : forall m b, Some (mask, false) = Some (m, b) ->
            shape m = shape mask /\
            (forall r c v, get m r c = Some v -> v = 0 \/ get mask r c = Some v) /\
            (b = false -> m = mask) /\ (b = true -> 10 <= h)).
  { intros m b E. injection E as <- <-. repeat split; try discriminate. now right. }
  destruct (Z.ltb_spec h 10) as [Hh|Hh]; [apply Hsame|].
  destruct (all_some _) as [[|w0 rest]|]; [apply Hsame| |discriminate].
  destruct (find_cut min_ratio consecutive_rows w0 rest 1 0) as [i|]; [|apply Hsame].
  intros E. injection E as <- <-. split; [apply shape_assign_zero|].
  split; [|split; [discriminate|intros _; exact Hh]].
  intros r c v. rewrite ForearmFacts.get_assign_zero.
  destruct (ForearmFacts.in_slice _ _ _ _ _ _ _); [|now right].
  destruct (get mask r c); cbn [option_map]; [|discriminate].
  intros E. injection E as <-. now left.
Qed.

Lemma cut_forearm_only_erases_witness :
  cut_forearm_automatically ForearmFacts.tapering_mask 0 0 8 10 (1 # 2) 2
    = Some (assign_zero ForearmFacts.tapering_mask 7 10 0 8, true) /\
  shape (assign_zero ForearmFacts.tapering_mask 7 10 0 8) = shape ForearmFacts.tapering_mask.
Proof.
  assert (E : cut_forearm_automatically ForearmFacts.tapering_mask 0 0 8 10 (1 # 2) 2
              = Some (assign_zero ForearmFacts.tapering_mask 7 10 0 8, true))
    by (vm_compute; reflexivity).
  split; [exact E|].
  apply (cut_forearm_only_erases ForearmFacts.tapering_mask
           (assign_zero ForearmFacts.tapering_mask 7 10 0 8) 0 0 8 10 (1 # 2) 2 true E).
Defined.

End ForearmErases.

(** * Clustering of fingertip candidates, for any input *)

Module MergeFacts.
Import Fingers.

Local Open Scope Z_scope.

(** A point inside the upright rectangle [xlo..xhi] by [ylo..yhi]. *)
Definition in_box (xlo xhi ylo yhi : Z) (p : Point) : Prop :=
  xlo <= fst p <= xhi /\ ylo <= snd p <= yhi.

(** [q], met later in the input than [p], is not closer to it than the
    threshold. *)
Definition far (t : Z) (p q : Point) : Prop := hypot_lt (dist_sq q p) t = false.

(** A property of points that the integer midpoint of two points with the
    property has, is kept by the clustering. *)
Definition midpoint_closed (P : Point -> Prop) : Prop :=
  forall p q, P p -> P q -> P ((fst p + fst q) / 2, (snd p + snd q) / 2).

Lemma merge_into_keeps (P : Point -> Prop) pt t merged merged' :
  midpoint_closed P -> P pt -> Forall P merged ->
  merge_into pt t merged = Some merged' -> Forall P merged'.
Proof.
  intros Hmid Hpt. revert merged'.
  induction merged as [|mp rest IH]; intros merged' Hall H; simpl in H; [discriminate|].
  inversion Hall as [|? ? Hmp Hrest]; subst.
  destruct (hypot_lt (dist_sq pt mp) t).
  - injection H as <-. constructor; [|exact Hrest]. now apply Hmid.
  - destruct (merge_into pt t rest) as [r|]; simpl in H; [|discriminate].
    injection H as <-. constructor; [exact Hmp|]. now apply IH.
Qed.

Lemma merge_step_keeps (P : Point -> Prop) t merged pt :
  midpoint_closed P -> P pt -> Forall P merged -> Forall P (merge_step t merged pt).
Proof.
  intros Hmid Hpt Hall. unfold merge_step. destruct merged as [|mp rest].
  - now constructor.
  - destruct (merge_into pt t (mp :: rest)) as [m'|] eqn:E.
    + eapply merge_into_keeps; eassumption.
    + apply Forall_app. split; [exact Hall|now constructor].
Qed.

Lemma merge_close_points_keeps (P : Point -> Prop) points t :
  midpoint_closed P -> Forall P points -> Forall P (merge_close_points points t).
Proof.
  intros Hmid. unfold merge_close_points.
  assert (H : forall merged, Forall P merged -> Forall P points ->
                             Forall P (fold_left (merge_step t) points merged)).
  { induction points as [|pt points IH]; intros merged Hm Hp; simpl; [exact Hm|].
    inversion Hp as [|? ? Hpt Hrest]; subst.
    apply IH; [|exact Hrest]. now apply merge_step_keeps. }
  now apply H.
Qed.

Lemma in_box_midpoint_closed xlo xhi ylo yhi : midpoint_closed (in_box xlo xhi ylo yhi).
Proof.
  intros p q [Hx Hy] [Hx' Hy']. unfold in_box. cbn [fst snd].
  pose proof (Z.div_mod (fst p + fst q) 2 ltac:(lia)).
  pose proof (Z.mod_pos_bound (fst p + fst q) 2 ltac:(lia)).
  pose proof (Z.div_mod (snd p + snd q) 2 ltac:(lia)).
  pose proof (Z.mod_pos_bound (snd p + snd q) 2 ltac:(lia)).
  lia.
Qed.

Lemma merge_step_length t merged pt :
  (length (merge_step t merged pt) <= S (length merged))%nat.
Proof.
  unfold merge_step. destruct merged as [|mp rest]; [simpl; lia|].
  destruct (merge_into pt t (mp :: rest)) as [m'|] eqn:E.
  - apply FingersFacts.merge_into_length in E. lia.
  - rewrite length_app. simpl. lia.
Qed.

Lemma merge_into_far pt t merged :
  Forall (fun mp => far t mp pt) merged -> merge_into pt t merged = None.
Proof.
  induction 1 as [|mp rest Hmp _ IH]; simpl; [reflexivity|].
  unfold far in Hmp. now rewrite Hmp, IH.
Qed.

Lemma merge_step_far t merged pt :
  Forall (fun mp => far t mp pt) merged -> merge_step t merged pt = merged ++ [pt].
Proof.
  intros H. unfold merge_step. destruct merged as [|mp rest]; [reflexivity|].
  now rewrite merge_into_far.
Qed.

Lemma fold_merge_far t points : forall merged,
  ForallOrdPairs (far t) (merged ++ points) ->
  fold_left (merge_step t) points merged = merged ++ points.
Proof.
  induction points as [|pt points IH]; intros merged H; simpl.
  - now rewrite app_nil_r.
  - rewrite merge_step_far.
    + rewrite IH; rewrite <- app_assoc; [reflexivity|exact H].
    + apply Forall_forall. intros mp Hin.
      clear IH. induction merged as [|m merged IHm]; [destruct Hin|].
      cbn [app] in H. inversion H as [|? ? Hm Hrest]; subst.
      destruct Hin as [<-|Hin].
      * rewrite Forall_forall in Hm. apply Hm. apply in_or_app. right. now left.
      * now apply IHm.
Qed.

Lemma fold_merge_length t points : forall merged,
  (length (fold_left (merge_step t) points merged) <= length merged + length points)%nat.
Proof.
  induction points as [|pt points IH]; intros merged; simpl; [lia|].
  etransitivity; [apply IH|]. pose proof (merge_step_length t merged pt). lia.
Qed.

Lemma merge_close_points_length points t :
  (length (merge_close_points points t) <= length points)%nat.
Proof. apply (fold_merge_length t points []). Qed.

(** X17.  Clustering, for any list of points and any threshold: the output is no
    longer than the input; its points stay inside every upright rectangle
    that holds the input points; and when no point is closer than the
    threshold to a point met before it, the output is the input. *)
Theorem merge_close_points_contracts (points : list Point) (distance_threshold : Z) :
  (length (merge_close_points points distance_threshold) <= length points)%nat /\
  (forall xlo xhi ylo yhi,
     Forall (in_box xlo xhi ylo yhi) points ->
     Forall (in_box xlo xhi ylo yhi) (merge_close_points points distance_threshold)) /\
  (ForallOrdPairs (far distance_threshold) points ->
     merge_close_points points distance_threshold = points).
Proof.
  unfold merge_close_points. split; [|split].
  - apply (fold_merge_length distance_threshold points []).
  - intros xlo xhi ylo yhi H. fold (merge_close_points points distance_threshold).
    apply merge_close_points_keeps; [apply in_box_midpoint_closed|exact H].
  - intros H. now apply (fold_merge_far distance_threshold points []).
Qed.

Lemma merge_close_points_contracts_witness :
  merge_close_points [(0, 0); (30, 0); (0, 40)] 20 = [(0, 0); (30, 0); (0, 40)] /\
  Forall (in_box 0 10 0 10) (merge_close_points [(0, 0); (10, 0); (4, 10)] 20).
Proof.
  split.
  - apply (merge_close_points_contracts [(0, 0); (30, 0); (0, 40)] 20).
    repeat constructor.
  - apply (merge_close_points_contracts [(0, 0); (10, 0); (4, 10)] 20).
    repeat constructor; cbn; lia.
Defined.

End MergeFacts.

(** * The single-finger fallback, for any radius *)

Module FallbackFacts.
Import Fingers.

Local Open Scope Z_scope.

(** The state of the scan after the points [seen]: the greatest squared
    distance so far, reached first at [best_point]. *)
Definition scan_inv (center : Point) (seen : list Point) (st : Z * option Point) : Prop :=
  (forall q, In q seen -> dist_sq q center <= fst st) /\
  match snd st with
  | Some p =>
      0 < fst st /\
      exists i, nth_error seen i = Some p /\ fst st = dist_sq p center /\
                forall j q, (j < i)%nat -> nth_error seen j = Some q ->
                            dist_sq q center < dist_sq p center
  | None => fst st = 0
  end.

Lemma scan_inv_step center seen st pt :
  scan_inv center seen st -> scan_inv center (seen ++ [pt]) (farthest_step center st pt).
Proof.
  destruct st as [md best]. intros [Hall Hbest]. cbn [fst snd] in *.
  unfold farthest_step. cbn [fst].
  destruct (Z.gtb_spec (dist_sq pt center) md) as [Hgt|Hle]; split; cbn [fst snd].
  - intros q Hq. apply in_app_or in Hq. destruct Hq as [Hq|[<-|[]]]; [|lia].
    specialize (Hall q Hq). lia.
  - split.
    + destruct best as [p|]; [destruct Hbest|]; lia.
    + exists (length seen). split; [|split; [reflexivity|]].
      * rewrite nth_error_app2, Nat.sub_diag by lia. reflexivity.
      * intros j q Hj Hq. rewrite nth_error_app1 in Hq by exact Hj.
        apply nth_error_In in Hq. specialize (Hall q Hq). lia.
  - intros q Hq. apply in_app_or in Hq. destruct Hq as [Hq|[<-|[]]]; [|lia].
    now apply Hall.
  - destruct best as [p|]; [|exact Hbest].
    destruct Hbest as (Hpos & i & Hi & Hmd & Hfirst). split; [exact Hpos|].
    exists i. split; [|split; [exact Hmd|]].
    + rewrite nth_error_app1; [exact Hi|]. apply nth_error_Some. congruence.
    + intros j q Hj Hq. apply (Hfirst j q Hj).
      rewrite nth_error_app1 in Hq; [exact Hq|].
      assert (i < length seen)%nat by (apply nth_error_Some; congruence). lia.
Qed.

Lemma scan_inv_fold center contour : forall seen st,
  scan_inv center seen st ->
  scan_inv center (seen ++ contour) (fold_left (farthest_step center) contour st).
Proof.
  induction contour as [|pt contour IH]; intros seen st H; cbn [fold_left].
  - now rewrite app_nil_r.
  - replace (seen ++ pt :: contour) with ((seen ++ [pt]) ++ contour)
      by (rewrite <- app_assoc; reflexivity).
    apply IH, scan_inv_step, H.
Qed.

(** X18.  The fallback fingertip is the first contour point at the greatest
    distance from the centre, returned only when that distance exceeds the
    radius; otherwise, no contour point is farther from the centre than
    the radius and nothing is returned. *)
Theorem fallback_is_first_farthest (contour : Contour) (center : Point) (min_radius : Z) :
  0 <= min_radius ->
  match fallback_single_finger contour center min_radius with
  | Some p =>
      min_radius * min_radius < dist_sq p center /\
      (forall q, In q contour -> dist_sq q center <= dist_sq p center) /\
      exists i, nth_error contour i = Some p /\
                forall j q, (j < i)%nat -> nth_error contour j = Some q ->
                            dist_sq q center < dist_sq p center
  | None => forall q, In q contour -> dist_sq q center <= min_radius * min_radius
  end.
Proof.
  intros Hr. unfold fallback_single_finger, farthest_scan.
  assert (H0 : scan_inv center [] (0, None)) by (split; [intros q []|reflexivity]).
  pose proof (scan_inv_fold center contour [] (0, None) H0) as H.
  cbn [app] in H.
  destruct (fold_left (farthest_step center) contour (0, None)) as [md best].
  destruct H as [Hall Hbest]. cbn [fst snd] in *.
  destruct best as [p|].
  - destruct Hbest as (Hpos & i & Hi & Hmd & Hfirst).
    unfold hypot_gt.
    destruct (Z.ltb_spec min_radius 0) as [Hneg|_]; [lia|]. cbn [orb].
    destruct (Z.ltb_spec (min_radius * min_radius) md) as [Hlt|Hge].
    + split; [lia|]. split.
      * intros q Hq. specialize (Hall q Hq). lia.
      * now exists i.
    + intros q Hq. specialize (Hall q Hq). lia.
  - subst md. intros q Hq. specialize (Hall q Hq). nia.
Qed.

Lemma fallback_is_first_farthest_witness :
  fallback_single_finger [(0, 0); (60, 0); (0, 60); (10, 10)] (0, 0) 50 = Some (60, 0) /\
  50 * 50 < dist_sq (60, 0) (0, 0).
Proof.
  pose proof (fallback_is_first_farthest [(0, 0); (60, 0); (0, 60); (10, 10)] (0, 0) 50) as H.
  change (fallback_single_finger [(0, 0); (60, 0); (0, 60); (10, 10)] (0, 0) 50)
    with (Some (60, 0)) in H.
  split; [reflexivity|]. apply H. lia.
Defined.

End FallbackFacts.

(** * The smoother on a hand that does not move *)

Module SmootherFacts.
Import Smoother Detect.

Local Open Scope Q_scope.

(** The model matrices are the ones [init_kalman_filter] sets; nothing in
    the program changes them afterwards. *)
Definition configured (kf : KalmanFilter) : Prop :=
  transitionMatrix kf = transitionMatrix init_kalman_filter /\
  measurementMatrix kf = measurementMatrix init_kalman_filter /\
  processNoiseCov kf = processNoiseCov init_kalman_filter /\
  measurementNoiseCov kf = measurementNoiseCov init_kalman_filter.

(** The gain [correct] computes. *)
Definition gain_of (kf : KalmanFilter) : mat :=
  let H := measurementMatrix kf in
  let temp2 := mat_mul H (errorCovPre kf) in
  let temp3 := mat_zip Qplus (mat_mul temp2 (transpose H)) (measurementNoiseCov kf) in
  transpose (mat_mul (inv2 temp3) temp2).

Lemma gain_rows kf : configured kf -> length (gain_of (fst (predict kf))) = 4%nat.
Proof.
  intros (HF & HH & HQ & HR). unfold gain_of, predict.
  cbn [fst measurementMatrix errorCovPre measurementNoiseCov].
  rewrite HF, HH, HQ, HR. reflexivity.
Qed.

Lemma dot_zero_r v : Forall (fun q => q == 0) v -> forall u, dot u v == 0.
Proof.
  intros H u. unfold dot. rewrite Qred_correct. revert u.
  induction H as [|q v Hq _ IH]; intros u.
  - destruct u; reflexivity.
  - destruct u as [|p u]; [reflexivity|].
    cbn [combine map fold_right fst snd]. rewrite IH, Hq. ring.
Qed.

Lemma Qred_zero q : q == 0 -> Qred q = 0.
Proof. intros H. exact (Qred_complete q 0 H). Qed.

(** One update at rest: the state is at [(x, y)] without velocity and the
    measurement is [(x, y)]. *)
Lemma update_at_rest kf x y mx my :
  configured kf -> statePost kf = [x; y; 0; 0] -> mx == x -> my == y ->
  snd (update_kalman kf (Some mx) (Some my)) = (Qred x, Qred y) /\
  statePost (fst (update_kalman kf (Some mx) (Some my))) = [Qred x; Qred y; 0; 0] /\
  configured (fst (update_kalman kf (Some mx) (Some my))).
Proof.
  intros Hc Hpost Hmx Hmy.
  pose proof (gain_rows kf Hc) as Hrows.
  assert (Hupd : update_kalman kf (Some mx) (Some my) =
            (fst (correct (fst (predict kf)) [mx; my]),
             (nth 0 (snd (correct (fst (predict kf)) [mx; my])) 0,
              nth 1 (snd (correct (fst (predict kf)) [mx; my])) 0))) by reflexivity.
  assert (Hstate : snd (correct (fst (predict kf)) [mx; my]) = [Qred x; Qred y; 0; 0]).
  { change (snd (correct (fst (predict kf)) [mx; my]))
      with (vec_zip Qplus (statePre (fst (predict kf)))
              (mat_vec (gain_of (fst (predict kf)))
                 (vec_zip Qminus [mx; my]
                    (mat_vec (measurementMatrix (fst (predict kf)))
                             (statePre (fst (predict kf))))))).
    destruct (gain_of (fst (predict kf))) as [|g0 [|g1 [|g2 [|g3 [|g4 gain]]]]];
      try discriminate Hrows.
    destruct Hc as (HF & HH & _ & _).
    unfold predict. cbn [fst statePre measurementMatrix]. rewrite HF, HH, Hpost.
    cbn [init_kalman_filter transitionMatrix measurementMatrix mat_vec map].
    set (p0 := dot [1; 0; 1; 0] [x; y; 0; 0]).
    set (p1 := dot [0; 1; 0; 1] [x; y; 0; 0]).
    set (p2 := dot [0; 0; 1; 0] [x; y; 0; 0]).
    set (p3 := dot [0; 0; 0; 1] [x; y; 0; 0]).
    assert (Hp0 : p0 == x)
      by (unfold p0, dot; cbn [combine map fold_right fst snd]; rewrite Qred_correct; ring).
    assert (Hp1 : p1 == y)
      by (unfold p1, dot; cbn [combine map fold_right fst snd]; rewrite Qred_correct; ring).
    assert (Hp2 : p2 == 0)
      by (unfold p2, dot; cbn [combine map fold_right fst snd]; rewrite Qred_correct; ring).
    assert (Hp3 : p3 == 0)
      by (unfold p3, dot; cbn [combine map fold_right fst snd]; rewrite Qred_correct; ring).
    set (t5 := vec_zip Qminus [mx; my]
                 [dot [1; 0; 0; 0] [p0; p1; p2; p3]; dot [0; 1; 0; 0] [p0; p1; p2; p3]]).
    assert (Ht5 : Forall (fun q => q == 0) t5).
    { unfold t5, vec_zip. cbn [combine map fst snd].
      repeat constructor; rewrite Qred_correct; unfold dot;
        cbn [combine map fold_right fst snd]; rewrite Qred_correct;
        rewrite ?Hp0, ?Hp1, ?Hp2, ?Hp3, ?Hmx, ?Hmy; ring. }
    unfold vec_zip at 1. cbn [combine map fst snd].
    pose proof (dot_zero_r t5 Ht5) as Hz.
    f_equal; [|f_equal; [|f_equal; [|f_equal]]].
    - apply Qred_complete. rewrite Hz, Hp0. ring.
    - apply Qred_complete. rewrite Hz, Hp1. ring.
    - apply Qred_zero. rewrite Hz, Hp2. ring.
    - apply Qred_zero. rewrite Hz, Hp3. ring. }
  rewrite Hupd. cbn [fst snd]. rewrite Hstate. cbn [nth].
  split; [reflexivity|]. split.
  - exact Hstate.
  - exact Hc.
Qed.

(** The smoother state after [n] frames in which [detect_hand] finds the
    same bounding box at the same ROI origin. *)
Definition still_frames (n : nat) (sm : SmootherState) (xF yF wF hF offset_x offset_y : Z)
  : SmootherState :=
  Nat.iter n (fun sm => smooth sm xF yF wF hF offset_x offset_y) sm.

(** X19.  A hand that does not move is reported where it is measured.  From a
    configured filter and no smoothed centre yet (the state [main] sets
    up), after any number of frames with the same bounding box the
    smoothed centre is the centre of that box in screen coordinates, with
    no lag and no drift, and the filter holds that position with zero
    velocity. *)
Theorem still_hand_center_is_exact (n : nat) (sm : SmootherState)
    (xF yF wF hF offset_x offset_y : Z) :
  configured (kalman sm) -> smoothed_center sm = None -> (1 <= n)%nat ->
  let mx := inject_Z xF + inject_Z wF / 2 + inject_Z offset_x in
  let my := inject_Z yF + inject_Z hF / 2 + inject_Z offset_y in
  let sm' := still_frames n sm xF yF wF hF offset_x offset_y in
  smoothed_center sm' = Some (Qred mx, Qred my) /\
  statePost (kalman sm') = [Qred mx; Qred my; 0; 0] /\
  configured (kalman sm').
Proof.
  intros Hc Hnone Hn mx my. unfold still_frames.
  destruct n as [|n]; [lia|]. clear Hn.
  induction n as [|n IH].
  - cbn [Nat.iter nat_rect]. unfold smooth. fold mx. fold my. rewrite Hnone.
    cbn [use_kalman kalman smoothed_center].
    destruct (update_at_rest (set_kalman_position (kalman sm) mx my) mx my mx my)
      as (Hxy & Hst & Hc'); [exact Hc|reflexivity|reflexivity|reflexivity|].
    destruct (update_kalman (set_kalman_position (kalman sm) mx my) (Some mx) (Some my))
      as [kf new]. cbn [fst snd kalman smoothed_center] in *.
    subst new. repeat split; try assumption; apply Hc'.
  - rewrite Nat.iter_succ.
    set (prev := Nat.iter (S n) _ sm) in *.
    destruct IH as (Hcen & Hst & Hc').
    unfold smooth. fold mx. fold my. rewrite Hcen. cbn [use_kalman].
    destruct (update_at_rest (kalman prev) (Qred mx) (Qred my) mx my)
      as (Hxy & Hst' & Hc''); [exact Hc'|exact Hst| | |].
    + symmetry. apply Qred_correct.
    + symmetry. apply Qred_correct.
    + rewrite !(Qred_complete _ _ (Qred_correct _)) in Hxy, Hst'.
      destruct (update_kalman (kalman prev) (Some mx) (Some my)) as [kf new].
      cbn [fst snd kalman smoothed_center] in *.
      subst new. repeat split; try assumption; apply Hc''.
Qed.

Lemma still_hand_center_is_exact_witness :
  smoothed_center
    (still_frames 3 {| kalman := init_kalman_filter; smoothed_center := None |}
                  10 20 31 40 100 200) = Some (251 # 2, 240 # 1).
Proof.
  apply (still_hand_center_is_exact 3 {| kalman := init_kalman_filter; smoothed_center := None |}
           10 20 31 40 100 200).
  - repeat split.
  - reflexivity.
  - lia.
Defined.

End SmootherFacts.

(** * Showing the reference shape on a frame *)

Module Overlay.
Import Raster Calib ImageUtil.

Local Open Scope Z_scope.

(** The length of the slice [a:b] of an axis of length [n]. *)
Definition slice_len (n a b : Z) : Z :=
  Z.max 0 (slice_bound n b - slice_bound n a).

(** The frame with the window [ya..yb-1] by [xa..xb-1] painted white where
    [edges_sub], laid on the window from its top-left corner, is 255. *)
Definition paint (dst_frame : raster Triple) (ya yb xa xb : Z) (edges_sub : raster Z)
  : raster Triple :=
  imap (fun y row =>
    imap (fun x v =>
      if (ya <=? y) && (y <? yb) && ((xa <=? x) && (x <? xb))
      then match get edges_sub (y - ya) (x - xa) with
           | Some e => if e =? 255 then white else v
           | None => v
           end
      else v) 0 row) 0 dst_frame.

(** [region[mask] = (255, 255, 255)] with [mask = (edges_sub == 255)],
    where [region] is the view [dst_frame[y1:y2, x1:x2]] and
    [edges_sub = edges_img[0:sub_h, 0:sub_w]]: the frame after the
    assignment, or [None] where the boolean index raises [IndexError].
    The shapes of the region and of the mask are those of the two slices;
    a mask with an axis of length 0 selects nothing. *)
Definition paint_where_255 (dst_frame : raster Triple) (y1 y2 x1 x2 : Z)
    (edges_img : raster Z) (sub_h sub_w : Z) : option (raster Triple) :=
  let H := height dst_frame in
  let W := width dst_frame in
  let mask_h := slice_len (height edges_img) 0 sub_h in
  let mask_w := slice_len (width edges_img) 0 sub_w in
  if bool_index_fits mask_h mask_w (slice_len H y1 y2) (slice_len W x1 x2) then
    if (mask_h =? 0) || (mask_w =? 0) then Some dst_frame
    else Some (paint dst_frame (slice_bound H y1) (slice_bound H y2)
                     (slice_bound W x1) (slice_bound W x2)
                     (crop edges_img 0 sub_h 0 sub_w))
  else None.

(** [transparent_overlay_edges(dst_frame, edges_img, center_x, center_y)] *)
Definition transparent_overlay_edges (dst_frame : raster Triple) (edges_img : raster Z)
    (center_x center_y : Z) : option (raster Triple) :=
  let rh := height edges_img in
  let rw := width edges_img in
  let x1 := center_x - rw / 2 in
  let y1 := center_y - rh / 2 in
  let x2 := x1 + rw in
  let y2 := y1 + rh in
  let H := height dst_frame in
  let W := width dst_frame in
  let x1 := if x1 <? 0 then 0 else x1 in
  let y1 := if y1 <? 0 then 0 else y1 in
  let x2 := if x2 >? W then W else x2 in
  let y2 := if y2 >? H then H else y2 in
  let sub_h := y2 - y1 in
  let sub_w := x2 - x1 in
  paint_where_255 dst_frame y1 y2 x1 x2 edges_img sub_h sub_w.

(** [overlay_transparent_edges_top_left(dst_frame, edges_img)] *)
Definition overlay_transparent_edges_top_left (dst_frame : raster Triple)
    (edges_img : raster Z) : option (raster Triple) :=
  let h := height edges_img in
  let w := width edges_img in
  let H := height dst_frame in
  let W := width dst_frame in
  let h := if h >? H then H else h in
  let w := if w >? W then W else w in
  paint_where_255 dst_frame 0 h 0 w edges_img h w.

End Overlay.

Module OverlayFacts.
Import Raster Calib ImageUtil ImageUtilFacts StageScoreFacts Overlay.

Local Open Scope Z_scope.

Lemma get_paint dst ya yb xa xb edges_sub y x :
  shape (paint dst ya yb xa xb edges_sub) = shape dst /\
  get (paint dst ya yb xa xb edges_sub) y x =
  match get dst y x with
  | Some v =>
      if (ya <=? y) && (y <? yb) && ((xa <=? x) && (x <? xb))
      then match get edges_sub (y - ya) (x - xa) with
           | Some e => Some (if e =? 255 then white else v)
           | None => Some v
           end
      else Some v
  | None => None
  end.
Proof.
  unfold paint. split.
  - apply (ScorerFacts.shape_imap_rows (fun y x v =>
      if (ya <=? y) && (y <? yb) && ((xa <=? x) && (x <? xb))
      then match get edges_sub (y - ya) (x - xa) with
           | Some e => if e =? 255 then white else v
           | None => v
           end
      else v)).
  - unfold get at 1 3.
    destruct (Z.leb_spec 0 y) as [Hy|Hy]; [|reflexivity].
    destruct (Z.leb_spec 0 x) as [Hx|Hx]; cbn [andb]; [|reflexivity].
    rewrite imap_nth_error, Z.add_0_l, Z2Nat.id by assumption.
    destruct (nth_error dst (Z.to_nat y)) as [row|]; cbn [option_map]; [|reflexivity].
    rewrite imap_nth_error, Z.add_0_l, Z2Nat.id by assumption.
    destruct (nth_error row (Z.to_nat x)) as [v|]; cbn [option_map]; [|reflexivity].
    destruct (_ && _); [|reflexivity].
    now destruct (get edges_sub _ _).
Qed.

Lemma slice_len_id n a b : 0 <= a <= b -> b <= n -> slice_len n a b = b - a.
Proof.
  intros Ha Hb. unfold slice_len. rewrite !slice_bound_id by lia. lia.
Qed.

(** The window of the frame and the part of the shape painted into it. *)
Lemma paint_window H W rh rw (dst : raster Triple) (edges : raster Z) ya yb xa xb :
  rect H W dst -> rect rh rw edges -> 1 <= H -> 1 <= rh ->
  0 <= ya <= yb -> yb <= H -> yb - ya <= rh ->
  0 <= xa <= xb -> xb <= W -> xb - xa <= rw ->
  exists out,
    paint_where_255 dst ya yb xa xb edges (yb - ya) (xb - xa) = Some out /\
    shape out = shape dst /\
    forall y x v, get dst y x = Some v ->
      get out y x =
      if (ya <=? y) && (y <? yb) && ((xa <=? x) && (x <? xb))
      then match get edges (y - ya) (x - xa) with
           | Some e => Some (if e =? 255 then white else v)
           | None => Some v
           end
      else Some v.
Proof.
  intros Hdst Hedges HH Hrh Hy HyH Hyr Hx HxW Hxr.
  unfold paint_where_255.
  rewrite (proj1 Hdst), (rect_width H W dst Hdst HH).
  rewrite (proj1 Hedges), (rect_width rh rw edges Hedges Hrh).
  rewrite !slice_len_id by lia. rewrite !Z.sub_0_r.
  unfold bool_index_fits. rewrite !Z.eqb_refl, !orb_true_r. cbn [andb].
  rewrite !slice_bound_id by lia.
  destruct ((yb - ya =? 0) || (xb - xa =? 0)) eqn:Eempty.
  - exists dst. split; [reflexivity|]. split; [reflexivity|].
    intros y x v Hv. rewrite Hv.
    destruct ((ya <=? y) && (y <? yb) && ((xa <=? x) && (x <? xb))) eqn:Ein; [|reflexivity].
    exfalso. apply andb_prop in Ein as [Ey Ex].
    apply andb_prop in Ey as [Ey1 Ey2]. apply andb_prop in Ex as [Ex1 Ex2].
    apply Z.leb_le in Ey1, Ex1. apply Z.ltb_lt in Ey2, Ex2.
    apply orb_prop in Eempty as [E|E]; apply Z.eqb_eq in E; lia.
  - eexists. split; [reflexivity|].
    split; [exact (proj1 (get_paint _ _ _ _ _ _ 0 0))|].
    intros y x v Hv.
    rewrite (proj2 (get_paint _ _ _ _ _ _ y x)), Hv.
    destruct ((ya <=? y) && (y <? yb) && ((xa <=? x) && (x <? xb))) eqn:Ein; [|reflexivity].
    apply andb_prop in Ein as [Ey Ex].
    apply andb_prop in Ey as [Ey1 Ey2]. apply andb_prop in Ex as [Ex1 Ex2].
    apply Z.leb_le in Ey1, Ex1. apply Z.ltb_lt in Ey2, Ex2.
    rewrite (get_crop rh rw) by (assumption || lia).
    rewrite !Z.sub_0_r, !Z.add_0_l.
    replace ((0 <=? y - ya) && (y - ya <? yb - ya) &&
             ((0 <=? x - xa) && (x - xa <? xb - xa))) with true.
    2:{ symmetry. rewrite !andb_true_iff, !Z.leb_le, !Z.ltb_lt. lia. }
    reflexivity.
Qed.

(** X20.  The reference shape is painted where it overlaps the frame, and it is
    shifted, not clipped, at the top and left edges.  For a shape whose
    box around the given centre touches or overlaps the frame, the call
    succeeds; outside the clipped window [ya..yb-1] by [xa..xb-1] the
    frame is unchanged; inside it a pixel turns white exactly where the
    shape is 255, the shape being read from its own top-left corner at the
    top-left corner of the clipped window. *)
Theorem transparent_overlay_edges_window (H W rh rw : Z)
    (dst_frame : raster Triple) (edges_img : raster Z) (center_x center_y : Z) :
  rect H W dst_frame -> rect rh rw edges_img ->
  1 <= H -> 1 <= W -> 1 <= rh -> 1 <= rw ->
  - rw <= center_x - rw / 2 <= W -> - rh <= center_y - rh / 2 <= H ->
  let xa := Z.max 0 (center_x - rw / 2) in
  let ya := Z.max 0 (center_y - rh / 2) in
  let xb := Z.min W (center_x - rw / 2 + rw) in
  let yb := Z.min H (center_y - rh / 2 + rh) in
  exists out,
    transparent_overlay_edges dst_frame edges_img center_x center_y = Some out /\
    shape out = shape dst_frame /\
    forall y x v, get dst_frame y x = Some v ->
      get out y x =
      if (ya <=? y) && (y <? yb) && ((xa <=? x) && (x <? xb))
      then match get edges_img (y - ya) (x - xa) with
           | Some e => Some (if e =? 255 then white else v)
           | None => Some v
           end
      else Some v.
Proof.
  intros Hdst Hedges HH HW Hrh Hrw Hcx Hcy xa ya xb yb.
  unfold transparent_overlay_edges.
  rewrite (proj1 Hdst), (rect_width H W _ Hdst HH).
  rewrite (proj1 Hedges), (rect_width rh rw _ Hedges Hrh).
  replace (if center_x - rw / 2 <? 0 then 0 else center_x - rw / 2) with xa
    by (unfold xa; destruct (Z.ltb_spec (center_x - rw / 2) 0); lia).
  replace (if center_y - rh / 2 <? 0 then 0 else center_y - rh / 2) with ya
    by (unfold ya; destruct (Z.ltb_spec (center_y - rh / 2) 0); lia).
  replace (if center_x - rw / 2 + rw >? W then W else center_x - rw / 2 + rw) with xb
    by (unfold xb; destruct (Z.gtb_spec (center_x - rw / 2 + rw) W); lia).
  replace (if center_y - rh / 2 + rh >? H then H else center_y - rh / 2 + rh) with yb
    by (unfold yb; destruct (Z.gtb_spec (center_y - rh / 2 + rh) H); lia).
  apply (paint_window H W rh rw); (assumption || (unfold xa, ya, xb, yb; lia)).
Qed.

Lemma transparent_overlay_edges_window_witness :
  exists out,
    transparent_overlay_edges (repeat (repeat (0, 0, 0) 4) 3)
      [[255; 0; 0; 0; 0; 0]; [0; 0; 0; 0; 0; 255]] (4 / 2) (3 / 2) = Some out /\
    get out 0 0 = Some white /\ get out 1 0 = Some (0, 0, 0).
Proof.
  destruct (transparent_overlay_edges_window 3 4 2 6 (repeat (repeat (0, 0, 0) 4) 3)
              [[255; 0; 0; 0; 0; 0]; [0; 0; 0; 0; 0; 255]] (4 / 2) (3 / 2))
    as (out & Hout & _ & Hpix); try (vm_compute; split; discriminate); try lia.
  - split; [reflexivity|]. repeat constructor.
  - split; [reflexivity|]. repeat constructor.
  - exists out. split; [exact Hout|]. split.
    + now rewrite (Hpix 0 0 (0, 0, 0) eq_refl).
    + now rewrite (Hpix 1 0 (0, 0, 0) eq_refl).
Defined.

(** X21.  The top-left overlay never fails on a frame and a shape of at least one
    pixel: it leaves the frame unchanged outside the first [min rh H] rows
    and [min rw W] columns, and inside them it turns white exactly the
    pixels where the shape is 255. *)
Theorem overlay_top_left_window (H W rh rw : Z)
    (dst_frame : raster Triple) (edges_img : raster Z) :
  rect H W dst_frame -> rect rh rw edges_img ->
  1 <= H -> 1 <= W -> 1 <= rh -> 1 <= rw ->
  exists out,
    overlay_transparent_edges_top_left dst_frame edges_img = Some out /\
    shape out = shape dst_frame /\
    forall y x v, get dst_frame y x = Some v ->
      get out y x =
      if (y <? Z.min rh H) && (x <? Z.min rw W)
      then match get edges_img y x with
           | Some e => Some (if e =? 255 then white else v)
           | None => Some v
           end
      else Some v.
Proof.
  intros Hdst Hedges HH HW Hrh Hrw.
  unfold overlay_transparent_edges_top_left.
  rewrite (proj1 Hdst), (rect_width H W _ Hdst HH).
  rewrite (proj1 Hedges), (rect_width rh rw _ Hedges Hrh).
  replace (if rh >? H then H else rh) with (Z.min rh H)
    by (destruct (Z.gtb_spec rh H); lia).
  replace (if rw >? W then W else rw) with (Z.min rw W)
    by (destruct (Z.gtb_spec rw W); lia).
  destruct (paint_window H W rh rw dst_frame edges_img 0 (Z.min rh H) 0 (Z.min rw W))
    as (out & Hout & Hshape & Hpix); try (assumption || lia).
  rewrite !Z.sub_0_r in Hout.
  exists out. split; [exact Hout|]. split; [exact Hshape|].
  intros y x v Hv. rewrite (Hpix y x v Hv), !Z.sub_0_r.
  destruct (get_in_rect H W dst_frame y x v Hdst Hv) as [Hy Hx].
  replace (0 <=? y) with true by (symmetry; apply Z.leb_le; lia).
  replace (0 <=? x) with true by (symmetry; apply Z.leb_le; lia).
  reflexivity.
Qed.

Lemma overlay_top_left_window_witness :
  exists out,
    overlay_transparent_edges_top_left (repeat (repeat (0, 0, 0) 2) 2)
      [[255; 0; 255]] = Some out /\
    get out 0 0 = Some white /\ get out 0 1 = Some (0, 0, 0) /\ get out 1 0 = Some (0, 0, 0).
Proof.
  destruct (overlay_top_left_window 2 2 1 3 (repeat (repeat (0, 0, 0) 2) 2) [[255; 0; 255]])
    as (out & Hout & _ & Hpix); try lia.
  - split; [reflexivity|]. repeat constructor.
  - split; [reflexivity|]. repeat constructor.
  - exists out. split; [exact Hout|]. repeat split.
    + now rewrite (Hpix 0 0 (0, 0, 0) eq_refl).
    + now rewrite (Hpix 0 1 (0, 0, 0) eq_refl).
    + now rewrite (Hpix 1 0 (0, 0, 0) eq_refl).
Defined.

End OverlayFacts.

(** * Where fingertips can be reported *)

Module FingertipFacts.
Import Raster Fingers Calib Smoother Detect MergeFacts.

Local Open Scope Z_scope.

(** A point above the wrist line [yF + 0.65 * hF]. *)
Definition above (yF hF : Z) (p : Point) : Prop := above_wrist yF hF (snd p) = true.

Lemma above_midpoint_closed yF hF : midpoint_closed (above yF hF).
Proof.
  intros p q Hp Hq. unfold above, above_wrist in *. cbn [snd].
  apply Z.ltb_lt in Hp, Hq. apply Z.ltb_lt.
  pose proof (Z.div_mod (snd p + snd q) 2 ltac:(lia)).
  pose proof (Z.mod_pos_bound (snd p + snd q) 2 ltac:(lia)).
  lia.
Qed.

Lemma filter_candidates_subset cands p :
  In p (filter_candidates cands) -> In p (map fst cands).
Proof.
  unfold filter_candidates. destruct (highest cands) as [[hc rd]|]; [|intros []].
  intros H. apply in_map_iff in H as (c & <- & Hc).
  apply filter_In in Hc as [Hc _]. now apply in_map.
Qed.

Lemma filter_candidates_length cands :
  (length (filter_candidates cands) <= length cands)%nat.
Proof.
  unfold filter_candidates. destruct (highest cands) as [[hc rd]|]; [|simpl; lia].
  rewrite length_map. apply filter_length_le.
Qed.

Section Tips.

Context {cv : Vision}.

Lemma defect_candidates_above c yF hF d :
  Forall (fun cd => above yF hF (fst cd)) (defect_candidates c yF hF d) /\
  (length (defect_candidates c yF hF d) <= 2)%nat.
Proof.
  unfold defect_candidates.
  destruct (d_depth d >? 5000); [|split; [constructor|simpl; lia]].
  destruct (angle_lt_100 _ _ _); [|split; [constructor|simpl; lia]].
  destruct (above_wrist yF hF (snd (nth (d_far d) c (0, 0)))); cbn [andb];
    [|split; [constructor|simpl; lia]].
  destruct (above_wrist yF hF (snd (nth (d_start d) c (0, 0)))) eqn:Es; cbn [andb];
    [|split; [constructor|simpl; lia]].
  destruct (above_wrist yF hF (snd (nth (d_end d) c (0, 0)))) eqn:Ee;
    [|split; [constructor|simpl; lia]].
  split; [|simpl; lia]. repeat constructor; assumption.
Qed.

Lemma candidates_above c yF hF ds :
  Forall (fun cd => above yF hF (fst cd)) (flat_map (defect_candidates c yF hF) ds) /\
  (length (flat_map (defect_candidates c yF hF) ds) <= 2 * length ds)%nat.
Proof.
  induction ds as [|d ds [IH1 IH2]]; [split; [constructor|simpl; lia]|].
  cbn [flat_map]. destruct (defect_candidates_above c yF hF d) as [H1 H2]. split.
  - apply Forall_app. now split.
  - rewrite length_app. cbn [length]. lia.
Qed.

(** X22.  No fingertip is reported in the wrist zone, and two fingertips need a
    convexity defect: every point [fingertips_of_contour] returns lies
    above the line [yF + 0.65 * hF], whether it comes from the defects,
    from their clustering or from the single-finger fallback; and the
    points are at most one, or at most twice as many as the defects the
    library reports. *)
Theorem fingertips_above_wrist (max_contour : Contour) (yF hF : Z) :
  Forall (above yF hF) (fingertips_of_contour max_contour yF hF) /\
  forall defects,
    convexityDefects max_contour (convexHull max_contour) = Some defects ->
    (length (fingertips_of_contour max_contour yF hF) <= Nat.max 1 (2 * length defects))%nat.
Proof.
  unfold fingertips_of_contour.
  destruct (3 <? length (convexHull max_contour))%nat;
    [|split; [constructor|intros; cbn [length]; lia]].
  destruct (convexityDefects max_contour (convexHull max_contour)) as [ds|];
    [|split; [constructor|intros; cbn [length]; lia]].
  destruct (candidates_above max_contour yF hF ds) as [Habove Hlen].
  set (cands := flat_map (defect_candidates max_contour yF hF) ds) in *.
  set (tips := match cands with
               | [] => []
               | _ => merge_close_points (filter_candidates cands) 20
               end).
  assert (Htips : Forall (above yF hF) tips /\ (length tips <= 2 * length ds)%nat).
  { unfold tips. destruct cands as [|c0 cands'] eqn:Ec; [split; [constructor|simpl; lia]|].
    rewrite <- Ec in *. split.
    - apply merge_close_points_keeps; [apply above_midpoint_closed|].
      apply Forall_forall. intros p Hp. apply filter_candidates_subset in Hp.
      apply in_map_iff in Hp as (cd & <- & Hcd).
      rewrite Forall_forall in Habove. now apply Habove.
    - pose proof (merge_close_points_length (filter_candidates cands) 20).
      pose proof (filter_candidates_length cands). lia. }
  destruct Htips as [Ht1 Ht2].
  destruct tips as [|t0 tips'] eqn:Et.
  - destruct (fallback_single_finger _ _ 50) as [single_pt|];
      [|split; [constructor|intros; cbn [length]; lia]].
    destruct (above_wrist yF hF (snd single_pt)) eqn:Ea;
      [|split; [constructor|intros; cbn [length]; lia]].
    split; [constructor; [exact Ea|constructor]|intros; cbn [length]; lia].
  - split; [exact Ht1|]. intros defects E. injection E as <-. lia.
Qed.

End Tips.

End FingertipFacts.

(** * How a stage ends *)

Module StageEnd.
Import Raster Fingers Calib Scorer ImageUtil Gesture StageScore.

Local Open Scope Z_scope.

(** What one iteration of the drawing loop reads from outside: the flag of
    [cap.read()], [int(end_t - now)], the fingertips [detect_hand] finds in
    the frame ([None] when [detect_hand] or the recalibration of the frame
    raises), and [cv2.waitKey(10) & 0xFF]. *)
Record Tick : Type := {
  ret : bool;
  seconds_left : Z;
  fingertips : option (list Point);
  key : Z }.

(** [ord('q')] *)
Definition ord_q : Z := 113.

(** The three ways out of the [while True] of lines 854-1037. *)
Inductive Exit : Type :=
| CameraLost
| Quit
| TimeUp.

(** The loop after some iterations: still running, with the pen position
    and the canvas operations so far; left, with the operations so far; or
    stopped by an exception. *)
Inductive Loop : Type :=
| Running (last_finger_point : option Point) (ops : list op)
| Exited (e : Exit) (ops : list op)
| Raised.

(** One iteration: the frame is read (line 860), the hand is detected
    (lines 879-925), the gesture is applied to the canvas (lines 936-974),
    the key is tested (line 1015) and then the clock (line 1017).  The
    display steps in between (lines 976-1010) write to copies of the frame
    only, and the key [s] only toggles the debug windows. *)
Definition loop_step (last_finger_point : option Point) (ops : list op) (t : Tick) : Loop :=
  let left := if seconds_left t <? 0 then 0 else seconds_left t in
  if negb (ret t) then Exited CameraLost ops
  else
    match fingertips t with
    | None => Raised
    | Some final_fingertips =>
        match gesture_step last_finger_point final_fingertips with
        | None => Raised
        | Some (new_ops, last_finger_point) =>
            let ops := ops ++ new_ops in
            if key t =? ord_q then Exited Quit ops
            else if left <=? 0 then Exited TimeUp ops
            else Running last_finger_point ops
        end
    end.

Fixpoint drawing_loop (last_finger_point : option Point) (ops : list op)
    (ticks : list Tick) : Loop :=
  match ticks with
  | [] => Running last_finger_point ops
  | t :: ticks' =>
      match loop_step last_finger_point ops t with
      | Running last_finger_point ops => drawing_loop last_finger_point ops ticks'
      | r => r
      end
  end.

Section Stage.

Variable cvtColor_BGR2GRAY : Z * Z * Z -> Z.

(** The canvas: a white screen on which the operations were drawn by
    [cv2.line], [cv2.circle] and [canvas[:] = 255]. *)
Variable render : list op -> raster Triple.

(** Lines 1017-1060, once the loop is left: the new total [run_stage]
    returns.  The drawing is scored only in the branch of the clock; after
    the other two exits [user_bin] and [ref_bin] are unbound where line
    1044 reads them, and the call raises ([None]). *)
Definition after_loop (total_score_so_far : Q) (ref_cropped : raster Z)
    (e : Exit) (ops : list op) : option Q :=
  match e with
  | TimeUp =>
      match stage_score cvtColor_BGR2GRAY (render ops) ref_cropped with
      | Some res => Some (total_score_so_far + final_score res)%Q
      | None => None
      end
  | Quit | CameraLost => None
  end.

(** The drawing phase of [run_stage] on the ticks it is given, from a
    blank canvas and a lifted pen: [Some None] while the loop is still
    running, [Some (Some total)] when the call returns, [None] when it
    raises. *)
Definition drawing_phase (total_score_so_far : Q) (ref_cropped : raster Z)
    (ticks : list Tick) : option (option Q) :=
  match drawing_loop None [] ticks with
  | Running _ _ => Some None
  | Exited e ops => option_map Some (after_loop total_score_so_far ref_cropped e ops)
  | Raised => None
  end.

End Stage.

End StageEnd.

Module StageEndFacts.
Import Raster Fingers Calib Scorer ImageUtil Gesture GestureFacts StageScore
       StageScoreFacts StageEnd.

Local Open Scope Z_scope.

(** A tick on which the loop goes on. *)
Definition goes_on (t : Tick) : Prop :=
  ret t = true /\ fingertips t <> None /\ key t <> ord_q /\ 0 < seconds_left t.

(** A tick on which the call raises: the hand detection of the frame
    raises, or [q] is pressed. *)
Definition fails (t : Tick) : Prop :=
  ret t = true /\ (fingertips t = None \/ key t = ord_q).

Lemma loop_step_cases last ops t tips :
  fingertips t = Some tips ->
  exists new_ops last',
    loop_step last ops t =
    if negb (ret t) then Exited CameraLost ops
    else if key t =? ord_q then Exited Quit (ops ++ new_ops)
    else if seconds_left t <=? 0 then Exited TimeUp (ops ++ new_ops)
    else Running last' (ops ++ new_ops).
Proof.
  intros Htips.
  destruct (gesture_step_cases last tips) as (new_ops & last' & Hstep & _).
  exists new_ops, last'.
  unfold loop_step. rewrite Htips, Hstep.
  destruct (negb (ret t)); [reflexivity|].
  destruct (key t =? ord_q); [reflexivity|].
  destruct (Z.ltb_spec (seconds_left t) 0) as [Hneg|Hpos].
  - destruct (Z.leb_spec (seconds_left t) 0); [reflexivity|lia].
  - reflexivity.
Qed.

(** The loop is left at the first tick that does not go on, and what
    happens there is decided in the order camera, detection, key, clock. *)
Lemma drawing_loop_exit ticks : forall last ops,
  match drawing_loop last ops ticks with
  | Running _ _ => Forall goes_on ticks
  | Exited e _ =>
      exists pre t post,
        ticks = pre ++ t :: post /\ Forall goes_on pre /\
        match e with
        | CameraLost => ret t = false
        | Quit => ret t = true /\ key t = ord_q
        | TimeUp =>
            ret t = true /\ fingertips t <> None /\ key t <> ord_q /\ seconds_left t <= 0
        end
  | Raised =>
      exists pre t post,
        ticks = pre ++ t :: post /\ Forall goes_on pre /\
        ret t = true /\ fingertips t = None
  end.
Proof.
  induction ticks as [|t ticks IH]; intros last ops; cbn [drawing_loop].
  - constructor.
  - destruct (ret t) eqn:Eret.
    2:{ unfold loop_step. rewrite Eret. cbn [negb].
        exists [], t, ticks. split; [reflexivity|]. split; [constructor|exact Eret]. }
    destruct (fingertips t) as [tips|] eqn:Etips.
    2:{ unfold loop_step. rewrite Eret, Etips. cbn [negb].
        exists [], t, ticks. split; [reflexivity|]. split; [constructor|].
        split; [exact Eret|exact Etips]. }
    destruct (loop_step_cases last ops t tips Etips) as (new_ops & last' & ->).
    rewrite Eret. cbn [negb].
    destruct (Z.eqb_spec (key t) ord_q) as [Ekey|Ekey].
    { exists [], t, ticks. split; [reflexivity|]. split; [constructor|].
      split; [exact Eret|exact Ekey]. }
    destruct (Z.leb_spec (seconds_left t) 0) as [Eleft|Eleft].
    { exists [], t, ticks. split; [reflexivity|]. split; [constructor|].
      split; [exact Eret|]. split; [rewrite Etips; discriminate|].
      split; [exact Ekey|exact Eleft]. }
    specialize (IH last' (ops ++ new_ops)).
    assert (Hgo : goes_on t).
    { split; [exact Eret|]. split; [rewrite Etips; discriminate|].
      split; [exact Ekey|exact Eleft]. }
    destruct (drawing_loop last' (ops ++ new_ops) ticks) as [l o|e o|].
    + now constructor.
    + destruct IH as (pre & t' & post & -> & Hpre & He).
      exists (t :: pre), t', post. split; [reflexivity|].
      split; [now constructor|exact He].
    + destruct IH as (pre & t' & post & -> & Hpre & He).
      exists (t :: pre), t', post. split; [reflexivity|].
      split; [now constructor|exact He].
Qed.

Section Stage.

Variable cvtColor_BGR2GRAY : Z * Z * Z -> Z.
Variable render : list op -> raster Triple.
Variables screen_h screen_w h_ref w_ref : Z.

Hypothesis screen_size : 1 <= screen_h /\ 1 <= screen_w.
Hypothesis render_rect : forall ops, rect screen_h screen_w (render ops).

(** X23.  A stage returns a total only when the clock ends it.  The drawing loop
    is left at the first tick whose frame cannot be read, whose hand
    detection raises, whose key is [q], or whose time is up, tested in
    that order; the gesture logic itself never raises.  When the time is
    up the call returns the old total plus a stage score between 0 and
    100.  When the frame cannot be read or [q] is pressed, even on the
    tick on which the time is up, the call raises instead of returning. *)
Theorem stage_returns_only_on_time_up (total_score_so_far : Q)
    (ref_cropped : raster Z) (ticks : list Tick) :
  1 <= h_ref -> 1 <= w_ref -> rect h_ref w_ref ref_cropped ->
  match drawing_phase cvtColor_BGR2GRAY render total_score_so_far ref_cropped ticks with
  | Some None => Forall goes_on ticks
  | Some (Some total) =>
      (exists pre t post,
         ticks = pre ++ t :: post /\ Forall goes_on pre /\
         ret t = true /\ fingertips t <> None /\ key t <> ord_q /\ seconds_left t <= 0) /\
      (total_score_so_far <= total <= total_score_so_far + 100)%Q
  | None =>
      exists pre t post,
        ticks = pre ++ t :: post /\ Forall goes_on pre /\
        (ret t = false \/ fails t)
  end.
Proof.
  intros Hhr Hwr Href. unfold drawing_phase.
  pose proof (drawing_loop_exit ticks None []) as Hexit.
  destruct (drawing_loop None [] ticks) as [l o|e o|]; [exact Hexit| |].
  - destruct Hexit as (pre & t & post & Hticks & Hpre & He).
    destruct e; cbn [after_loop option_map].
    + exists pre, t, post. split; [exact Hticks|]. split; [exact Hpre|]. now left.
    + exists pre, t, post. split; [exact Hticks|]. split; [exact Hpre|].
      right. split; [apply He|right; apply He].
    + destruct (stage_score_range cvtColor_BGR2GRAY screen_h screen_w h_ref w_ref
                  (render o) ref_cropped (proj1 screen_size) (proj2 screen_size)
                  Hhr Hwr (render_rect o) Href) as (res & -> & Hlo & Hhi).
      cbn [option_map]. split.
      * exists pre, t, post. split; [exact Hticks|]. split; [exact Hpre|exact He].
      * split.
        -- rewrite <- (Qplus_0_r total_score_so_far) at 1.
           apply Qplus_le_r. exact Hlo.
        -- apply Qplus_le_r. exact Hhi.
  - destruct Hexit as (pre & t & post & Hticks & Hpre & Hret & Hnone).
    exists pre, t, post. split; [exact Hticks|]. split; [exact Hpre|].
    right. split; [exact Hret|now left].
Qed.

End Stage.

(** A second of single-finger drawing, then [q] on the tick on which the
    time is up. *)
Lemma stage_returns_only_on_time_up_witness :
  exists pre t post,
    [ {| ret := true; seconds_left := 1; fingertips := Some [(1, 1)]; key := 255 |};
      {| ret := true; seconds_left := 0; fingertips := Some [(2, 2)]; key := 113 |} ]
    = pre ++ t :: post /\ Forall goes_on pre /\ (ret t = false \/ fails t).
Proof.
  assert (Hs : 1 <= 3 /\ 1 <= 4) by lia.
  assert (Hr : forall ops : list op, rect 3 4 (repeat (repeat white 4) 3))
    by (intros; split; [reflexivity|repeat constructor]).
  apply (stage_returns_only_on_time_up bgr2gray_fixed
           (fun _ => repeat (repeat white 4) 3) 3 4 1 2 Hs Hr
           0%Q [[255; 255]]
           [ {| ret := true; seconds_left := 1; fingertips := Some [(1, 1)]; key := 255 |};
             {| ret := true; seconds_left := 0; fingertips := Some [(2, 2)]; key := 113 |} ]);
    try lia.
  split; [reflexivity|]. repeat constructor.
Defined.

End StageEndFacts.

(** * The palm centre of a contour without area *)

Module PalmFacts.
Import Raster Fingers ImageUtil ImageUtilFacts.

Local Open Scope Z_scope.

Lemma boundingRect_holds (c : Contour) x y w h :
  c <> [] -> boundingRect c = (x, y, w, h) ->
  1 <= w /\ 1 <= h /\
  forall p, In p c -> x <= fst p < x + w /\ y <= snd p < y + h.
Proof.
  destruct c as [|p0 c']; [congruence|]. intros _. unfold boundingRect.
  fold (list_min (fst p0) (map fst c')). fold (list_max (fst p0) (map fst c')).
  fold (list_min (snd p0) (map snd c')). fold (list_max (snd p0) (map snd c')).
  destruct (list_min_spec (map fst c') (fst p0)) as (_ & Hx0 & Hxa).
  destruct (list_max_spec (map fst c') (fst p0)) as (_ & HX0 & HXa).
  destruct (list_min_spec (map snd c') (snd p0)) as (_ & Hy0 & Hya).
  destruct (list_max_spec (map snd c') (snd p0)) as (_ & HY0 & HYa).
  intros E. injection E as <- <- <- <-.
  split; [lia|]. split; [lia|].
  intros p [<-|Hin]; [lia|].
  pose proof (Hxa _ (in_map fst _ _ Hin)). pose proof (HXa _ (in_map fst _ _ Hin)).
  pose proof (Hya _ (in_map snd _ _ Hin)). pose proof (HYa _ (in_map snd _ _ Hin)).
  lia.
Qed.

(** X24.  When the contour has no area ([m00] is 0) the palm centre is not
    divided for: it is the centre of the bounding rectangle, a pixel inside
    the rectangle that holds every contour point. *)
Theorem palm_center_without_area (M : Moments) (contour : Contour) (x y w h : Z) :
  contour <> [] -> (m00 M == 0)%Q -> boundingRect contour = (x, y, w, h) ->
  get_palm_center M contour = (x + w / 2, y + h / 2) /\
  x <= x + w / 2 < x + w /\ y <= y + h / 2 < y + h /\
  forall p, In p contour -> x <= fst p < x + w /\ y <= snd p < y + h.
Proof.
  intros Hne Hm Hbox.
  destruct (boundingRect_holds contour x y w h Hne Hbox) as (Hw & Hh & Hall).
  unfold get_palm_center. rewrite Hbox.
  apply Qeq_bool_iff in Hm. rewrite Hm. cbn [negb].
  pose proof (Z.div_mod w 2 ltac:(lia)). pose proof (Z.mod_pos_bound w 2 ltac:(lia)).
  pose proof (Z.div_mod h 2 ltac:(lia)). pose proof (Z.mod_pos_bound h 2 ltac:(lia)).
  split; [reflexivity|]. split; [lia|]. split; [lia|exact Hall].
Qed.

Lemma palm_center_without_area_witness :
  get_palm_center {| m00 := 0; m10 := 0; m01 := 0 |} [(3, 4); (9, 4); (6, 4)] = (3 + 7 / 2, 4 + 1 / 2).
Proof.
  apply (palm_center_without_area {| m00 := 0; m10 := 0; m01 := 0 |}
           [(3, 4); (9, 4); (6, 4)] 3 4 7 1).
  - discriminate.
  - reflexivity.
  - reflexivity.
Defined.

End PalmFacts.
